(** * Instrumentation passes for unsafe-region measurement: a shallow embedding

    The passes of the repository rewrite LLVM IR.  The part of the IR they read
    and write is embedded below: modules, functions, basic blocks as instruction
    lists, instructions with their opcode, called operand, operands and string
    keyed metadata attachments.  An [Instruction*] of the source is the address
    of the instruction object; the embedding keeps that address in the record
    ([addr]) and threads the next free address through every function that
    creates instructions.  Whatever the source would do through a null pointer
    is [None]. *)

From Stdlib Require Import List String Ascii ZArith NArith Lia Bool Arith PeanoNat.
From Stdlib Require Import Sorted.
From Stdlib Require Decimal DecimalString DecimalN DecimalPos OrderedTypeEx.
Import ListNotations.
Local Open Scope string_scope.
Local Open Scope list_scope.

Set Warnings "-register-all,-abstract-large-number".

(* ================================================================== *)
(** * The IR *)
(* ================================================================== *)

Module IR.

(** Opcodes ([llvm/IR/Instruction.def]); the terminators come first. *)
Inductive Opcode : Set :=
  | Ret | Br | Switch | IndirectBr | Invoke | Resume | Unreachable
  | CleanupRet | CatchRet | CatchSwitch | CallBr
  | Alloca | Load | Store | GetElementPtr | Fence | AtomicCmpXchg | AtomicRMW
  | Trunc | ZExt | SExt | PtrToInt | IntToPtr | BitCast | AddrSpaceCast
  | Add | Sub | Mul | ICmp | Select | PHI | Call.

Definition isTerminatorOp (op : Opcode) : bool :=
  match op with
  | Ret | Br | Switch | IndirectBr | Invoke | Resume | Unreachable
  | CleanupRet | CatchRet | CatchSwitch | CallBr => true
  | _ => false
  end.

(** [isa<CallBase>]: call, invoke and callbr; [isa<CallInst>]: call only. *)
Definition isCallBaseOp (op : Opcode) : bool :=
  match op with Call | Invoke | CallBr => true | _ => false end.

Definition isCallInstOp (op : Opcode) : bool :=
  match op with Call => true | _ => false end.

Inductive AtomicOrdering : Set :=
  | NotAtomic | Unordered | Monotonic | Acquire | Release
  | AcquireRelease | SequentiallyConsistent.

Inductive Linkage : Set := ExternalLinkage | InternalLinkage | PrivateLinkage.

(** A debug location: line, column, whether a scope is attached, and the file
    of that scope when there is one. *)
Record DILocation : Set := mkDILocation {
  di_line : Z;
  di_column : Z;
  di_scope : bool;
  di_file : option string
}.

Definition getFilename (Loc : DILocation) : string :=
  match di_file Loc with Some f => f | None => "" end.

(** Metadata operands. *)
Inductive Metadata : Set :=
  | MDConstInt (bits : nat) (v : Z)
  | MDStr (s : string)
  | MDLoc (Loc : DILocation)
  | MDTuple (ops : list Metadata).

(** An [MDNode] is the list of its operands; attachments are kept in the order
    they were set, one per key. *)
Definition MDNode := list Metadata.
Definition Attachments := list (string * MDNode).

Fixpoint lookupMD (Kind : string) (mds : Attachments) : option MDNode :=
  match mds with
  | [] => None
  | (k, n) :: rest => if String.eqb k Kind then Some n else lookupMD Kind rest
  end.

Fixpoint storeMD (Kind : string) (n : MDNode) (mds : Attachments) : Attachments :=
  match mds with
  | [] => [(Kind, n)]
  | (k, m) :: rest =>
      if String.eqb k Kind then (k, n) :: rest else (k, m) :: storeMD Kind n rest
  end.

(** Values used as operands.  [VInst a] is the value defined by the
    instruction at address [a]; [VGlobal g] is the global variable with
    identity [g]. *)
Inductive Value : Set :=
  | VConstInt (bits : nat) (v : Z)
  | VInst (a : nat)
  | VArg (n : nat)
  | VGlobal (g : nat)
  | VUndef.

(** The called operand of a call-like instruction. *)
Inductive Callee : Set :=
  | CalleeFunction (name : string)
  | CalleeInlineAsm (asm constraints : string) (hasSideEffects : bool)
  | CalleeValue (v : Value).

Record Instruction : Set := mkInstruction {
  addr : nat;
  opcode : Opcode;
  calledOperand : option Callee;
  operands : list Value;
  ordering : AtomicOrdering;
  metadata : Attachments;
  debugLoc : option DILocation
}.

(** A basic block is the list of its instructions, the terminator last. *)
Abbreviation BasicBlock := (list Instruction) (only parsing).

Record Function : Set := mkFunction {
  fname : string;
  blocks : list BasicBlock;
  fmetadata : Attachments;
  flinkage : Linkage;
  fnoinline : bool
}.

(** Initializers of the global variables the passes create. *)
Inductive Initializer : Set :=
  | InitInt (bits : nat) (v : Z)
  | InitString (s : string)
  | InitArray (elems : list (list (nat * Z))).

Record GlobalVariable : Set := mkGlobalVariable {
  gid : nat;
  gname : string;
  gconstant : bool;
  glinkage : Linkage;
  ginit : Initializer;
  galign : option Z;
  gmetadata : Attachments
}.

(** A module: functions and globals in list order, [llvm.global_ctors] and
    [llvm.global_dtors] as (function name, priority) entries, and
    [llvm.compiler.used] as the identities of the globals it keeps. *)
Record Module : Set := mkModule {
  functions : list Function;
  globals : list GlobalVariable;
  global_ctors : list (string * Z);
  global_dtors : list (string * Z);
  compiler_used : list nat
}.

Inductive PreservedAnalyses : Set := PA_all | PA_none.

(** ** Queries *)

Definition isTerminator (I : Instruction) : bool := isTerminatorOp (opcode I).

Definition getMetadata (Kind : string) (I : Instruction) : option MDNode :=
  lookupMD Kind (metadata I).

Definition setMetadata (Kind : string) (n : MDNode) (I : Instruction) : Instruction :=
  mkInstruction (addr I) (opcode I) (calledOperand I) (operands I) (ordering I)
                (storeMD Kind n (metadata I)) (debugLoc I).

Definition isSome {A : Type} (o : option A) : bool :=
  match o with Some _ => true | None => false end.

(** [I.getMetadata("unsafe_inst") != nullptr] *)
Definition hasUnsafeInst (I : Instruction) : bool := isSome (getMetadata "unsafe_inst" I).

(** The asm text of an instruction that is a [CallBase] whose called operand
    is inline assembly. *)
Definition inlineAsmOfCallBase (I : Instruction) : option string :=
  if isCallBaseOp (opcode I) then
    match calledOperand I with
    | Some (CalleeInlineAsm asm _ _) => Some asm
    | _ => None
    end
  else None.

(** The same for [dyn_cast<CallInst>]. *)
Definition inlineAsmOfCallInst (I : Instruction) : option string :=
  if isCallInstOp (opcode I) then
    match calledOperand I with
    | Some (CalleeInlineAsm asm _ _) => Some asm
    | _ => None
    end
  else None.

Definition dbgIntrinsicNames : list string :=
  ["llvm.dbg.declare"; "llvm.dbg.value"; "llvm.dbg.addr"; "llvm.dbg.label";
   "llvm.dbg.assign"].

Definition inb (s : string) (l : list string) : bool := existsb (String.eqb s) l.

(** [isa<DbgInfoIntrinsic>]: a call of one of the debug intrinsics. *)
Definition isDbgInfoIntrinsic (I : Instruction) : bool :=
  isCallInstOp (opcode I) &&
  match calledOperand I with
  | Some (CalleeFunction n) => inb n dbgIntrinsicNames
  | _ => false
  end.

Definition isDeclaration (F : Function) : bool :=
  match blocks F with [] => true | _ :: _ => false end.

(** [Function::isIntrinsic]: the name is in the reserved [llvm.] space. *)
Definition isIntrinsic (F : Function) : bool := String.prefix "llvm." (fname F).

Definition getFMetadata (Kind : string) (F : Function) : option MDNode :=
  lookupMD Kind (fmetadata F).

Definition setFMetadata (Kind : string) (n : MDNode) (F : Function) : Function :=
  mkFunction (fname F) (blocks F) (storeMD Kind n (fmetadata F)) (flinkage F)
             (fnoinline F).

Definition setBlocks (bbs : list BasicBlock) (F : Function) : Function :=
  mkFunction (fname F) bbs (fmetadata F) (flinkage F) (fnoinline F).

(** ** Positions in a block, by address *)

Fixpoint back {A : Type} (l : list A) : option A :=
  match l with
  | [] => None
  | [x] => Some x
  | _ :: rest => back rest
  end.

(** [BB.getTerminator()]: the last instruction when it is a terminator. *)
Definition getTerminator (BB : BasicBlock) : option Instruction :=
  match back BB with
  | Some T => if isTerminator T then Some T else None
  | None => None
  end.

(** [I->getNextNode()] for the instruction at address [a]. *)
Fixpoint getNextNode (a : nat) (BB : BasicBlock) : option Instruction :=
  match BB with
  | [] => None
  | Inst :: rest => if Nat.eqb (addr Inst) a then hd_error rest else getNextNode a rest
  end.

(** Instructions created by an [IRBuilder] positioned at the instruction with
    address [a] are linked in before it, in creation order. *)
Fixpoint insertBefore (a : nat) (news : list Instruction) (BB : BasicBlock) : BasicBlock :=
  match BB with
  | [] => []
  | Inst :: rest =>
      if Nat.eqb (addr Inst) a then news ++ Inst :: rest
      else Inst :: insertBefore a news rest
  end.

(** [I->eraseFromParent()] *)
Fixpoint eraseFromParent (a : nat) (BB : BasicBlock) : BasicBlock :=
  match BB with
  | [] => []
  | Inst :: rest =>
      if Nat.eqb (addr Inst) a then rest else Inst :: eraseFromParent a rest
  end.

Definition addrs (BB : BasicBlock) : list nat := map addr BB.

(** ** Creating instructions *)

Definition CreateCall (a : nat) (c : Callee) (args : list Value) : Instruction :=
  mkInstruction a Call (Some c) args NotAtomic [] None.

Definition CreateFence (a : nat) (o : AtomicOrdering) : Instruction :=
  mkInstruction a Fence None [] o [] None.

Definition CreateRetVoid (a : nat) : Instruction :=
  mkInstruction a Ret None [] NotAtomic [] None.

(** ** The module's symbol table *)

Fixpoint lookupFunction (name : string) (fs : list Function) : option Function :=
  match fs with
  | [] => None
  | F :: rest => if String.eqb (fname F) name then Some F else lookupFunction name rest
  end.

Definition declaration (name : string) : Function :=
  mkFunction name [] [] ExternalLinkage false.

Definition setFunctions (fs : list Function) (M : Module) : Module :=
  mkModule fs (globals M) (global_ctors M) (global_dtors M) (compiler_used M).

(** [M.getOrInsertFunction(Name, Ty)]: the function of that name, declared at
    the end of the module when there is none.  Types are not part of the
    embedding, and the named value is taken to be a function. *)
Definition getOrInsertFunction (name : string) (M : Module) : Module :=
  match lookupFunction name (functions M) with
  | Some _ => M
  | None => setFunctions (functions M ++ [declaration name]) M
  end.

(** [Function::Create(Ty, Linkage, Name, &M)] followed by the construction of
    its body.  The requested name is taken to be free in [M]. *)
Definition addFunction (F : Function) (M : Module) : Module :=
  setFunctions (functions M ++ [F]) M.

Definition addGlobal (G : GlobalVariable) (M : Module) : Module :=
  mkModule (functions M) (globals M ++ [G]) (global_ctors M) (global_dtors M)
           (compiler_used M).

Definition appendToGlobalCtors (name : string) (prio : Z) (M : Module) : Module :=
  mkModule (functions M) (globals M) (global_ctors M ++ [(name, prio)])
           (global_dtors M) (compiler_used M).

Definition appendToGlobalDtors (name : string) (prio : Z) (M : Module) : Module :=
  mkModule (functions M) (globals M) (global_ctors M) (global_dtors M ++ [(name, prio)])
           (compiler_used M).

Definition appendToCompilerUsed (gs : list nat) (M : Module) : Module :=
  mkModule (functions M) (globals M) (global_ctors M) (global_dtors M)
           (compiler_used M ++ gs).

(** ** The selector *)

Definition UNSAFE_MARKER_BEGIN : string := "nop # marker_begin".
Definition UNSAFE_MARKER_END : string := "nop # marker_end".

(** [getenv("CARGO_PRIMARY_PACKAGE")] is [None] when the variable is unset.
    Every gated pass repeats this test. *)
Definition isPrimaryPackage (env : option string) : bool :=
  match env with
  | Some P => String.eqb P "1"
  | None => false
  end.

End IR.

(* ================================================================== *)
(** * InstMarker: planting the begin/end sentinels *)
(* ================================================================== *)

Module InstMarker.
Import IR.

Definition isPrimaryPackageImpl (env : option string) : bool := isPrimaryPackage env.

(** [InlineAsm::get(void (), text, "", true)] *)
Definition AsmMarkerBegin : Callee := CalleeInlineAsm UNSAFE_MARKER_BEGIN "" true.
Definition AsmMarkerEnd : Callee := CalleeInlineAsm UNSAFE_MARKER_END "" true.

(** The inner loop of [insertUnsafeMarkers]: the state is
    ([FirstUnsafeInst], [LastUnsafeInst]). *)
Definition scanStep (st : option Instruction * option Instruction) (Inst : Instruction)
  : option Instruction * option Instruction :=
  if hasUnsafeInst Inst then
    (match fst st with None => Some Inst | Some F => Some F end, Some Inst)
  else st.

Definition scanUnsafe (BB : BasicBlock) : option Instruction * option Instruction :=
  fold_left scanStep BB (None, None).

(** The body of the loop over the blocks: the rewritten block, whether the
    markers were inserted, and the next free address. *)
Definition markBlock (BB : BasicBlock) (n : nat) : option (BasicBlock * bool * nat) :=
  match scanUnsafe BB with
  | (Some First, Some Last) =>
      let BB1 := insertBefore (addr First) [CreateCall n AsmMarkerBegin []] BB in
      match getNextNode (addr Last) BB1 with
      | Some NextInst =>
          Some (insertBefore (addr NextInst) [CreateCall (n + 1) AsmMarkerEnd []] BB1,
                true, n + 2)
      | None =>
          match getTerminator BB1 with
          | Some T =>
              Some (insertBefore (addr T) [CreateCall (n + 1) AsmMarkerEnd []] BB1,
                    true, n + 2)
          | None => None
          end
      end
  | _ => Some (BB, false, n)
  end.

Fixpoint markBlocks (BBs : list BasicBlock) (Modified : bool) (n : nat)
  : option (list BasicBlock * bool * nat) :=
  match BBs with
  | [] => Some ([], Modified, n)
  | BB :: rest =>
      match markBlock BB n with
      | None => None
      | Some (BB', m, n') =>
          match markBlocks rest (Modified || m) n' with
          | None => None
          | Some (rest', Modified', n'') => Some (BB' :: rest', Modified', n'')
          end
      end
  end.

Definition insertUnsafeMarkers (F : Function) (n : nat) : option (Function * bool * nat) :=
  match markBlocks (blocks F) false n with
  | None => None
  | Some (bbs, Modified, n') => Some (setBlocks bbs F, Modified, n')
  end.

(** [!unsafe_line_info !{i32 line, !"file"}] *)
Definition createUnsafeLineMetadata (Inst : Instruction) (Line : Z) (File : string)
  : Instruction :=
  setMetadata "unsafe_line_info" [MDConstInt 32 Line; MDStr File] Inst.

Definition captureInst (Inst : Instruction) : Instruction :=
  if hasUnsafeInst Inst then
    match debugLoc Inst with
    | Some Loc =>
        let Line := di_line Loc in
        let File := getFilename Loc in
        if negb (Z.eqb Line 0) && negb (String.eqb File "")
        then createUnsafeLineMetadata Inst Line File
        else Inst
    | None => Inst
    end
  else Inst.

Definition captureUnsafeLineInfo (F : Function) : Function :=
  setBlocks (map (map captureInst) (blocks F)) F.

Definition run (env : option string) (F : Function) (n : nat)
  : option (PreservedAnalyses * Function * nat) :=
  if negb (isPrimaryPackage env) then Some (PA_all, F, n)
  else
    match insertUnsafeMarkers (captureUnsafeLineInfo F) n with
    | None => None
    | Some (F', Modified, n') => Some (if Modified then PA_none else PA_all, F', n')
    end.

End InstMarker.

(* ================================================================== *)
(** * UnsafeFunctionTracker: function ids and the metadata table *)
(* ================================================================== *)

Module UnsafeFunctionTracker.
Import IR.

Definition INIT_METADATA_FN : string := "__unsafe_init_metadata".
Definition RECORD_FUNCTION_FN : string := "__unsafe_record_function".
Definition DUMP_STATS_FN : string := "__unsafe_dump_stats".
Definition FUNCTION_ID_METADATA : string := "unsafe_count.func_id".

Definition wrap32 (z : Z) : Z := Z.modulo z 4294967296.

Record FunctionMetadata : Set := mkFunctionMetadata {
  id : Z;
  hasUnsafeInst : Z;
  hasUnsafeRegions : Z;
  _padding : Z
}.

Definition isMarkerInstruction (Inst : Instruction) : bool :=
  match inlineAsmOfCallBase Inst with
  | Some AsmStr =>
      String.eqb AsmStr UNSAFE_MARKER_BEGIN || String.eqb AsmStr UNSAFE_MARKER_END
  | None => false
  end.

Definition hasUnsafeMetadata (Inst : Instruction) : bool :=
  isSome (getMetadata "unsafe_inst" Inst).

Definition shouldInstrumentFunction (F : Function) : bool :=
  if isDeclaration F || isIntrinsic F then false
  else negb (String.prefix "__unsafe_" (fname F)) && negb (String.prefix "llvm." (fname F)).

(** The inner loop of [analyzeFunction] over one block, entered with the
    current [inUnsafeRegion]: whether the function returned [true] inside the
    block, and [inUnsafeRegion] where the block ends. *)
Fixpoint analyzeInsts (BB : BasicBlock) (inUnsafeRegion : bool) : bool * bool :=
  match BB with
  | [] => (false, inUnsafeRegion)
  | Inst :: rest =>
      if isMarkerInstruction Inst then
        match inlineAsmOfCallBase Inst with
        | Some AsmStr =>
            if String.eqb AsmStr UNSAFE_MARKER_BEGIN then analyzeInsts rest true
            else if String.eqb AsmStr UNSAFE_MARKER_END then analyzeInsts rest false
            else analyzeInsts rest inUnsafeRegion
        | None => analyzeInsts rest inUnsafeRegion
        end
      else if inUnsafeRegion && hasUnsafeMetadata Inst then (true, inUnsafeRegion)
      else analyzeInsts rest inUnsafeRegion
  end.

(** The outer loop; [inUnsafeRegion] is declared before it and carried from
    one block to the next. *)
Fixpoint analyzeBlocks (BBs : list BasicBlock) (inUnsafeRegion : bool) : bool :=
  match BBs with
  | [] => false
  | BB :: rest =>
      match analyzeInsts BB inUnsafeRegion with
      | (true, _) => true
      | (false, inUnsafeRegion') => analyzeBlocks rest inUnsafeRegion'
      end
  end.

Definition analyzeFunction (F : Function) : bool := analyzeBlocks (blocks F) false.

(** Phase 1 over the functions from position [idx] on: the functions with
    their attachments, the records pushed to [metadata], and
    [functionsToInstrument] as positions in the module's function list. *)
Fixpoint assignIds (fs : list Function) (idx : nat) (nextId : Z)
  : list Function * list FunctionMetadata * list nat :=
  match fs with
  | [] => ([], [], [])
  | F :: rest =>
      if negb (shouldInstrumentFunction F) then
        match assignIds rest (S idx) nextId with
        | (fs', metadata, toInstrument) => (F :: fs', metadata, toInstrument)
        end
      else
        let F' := setFMetadata FUNCTION_ID_METADATA [MDConstInt 32 nextId] F in
        let isUnsafe := analyzeFunction F' in
        match assignIds rest (S idx) (wrap32 (nextId + 1)) with
        | (fs', metadata, toInstrument) =>
            (F' :: fs',
             mkFunctionMetadata nextId (if isUnsafe then 1 else 0) 0 0 :: metadata,
             idx :: toInstrument)
        end
  end.

Definition setAttrs (name : string) (F : Function) : Function :=
  if String.eqb (fname F) name
  then mkFunction (fname F) (blocks F) (fmetadata F) ExternalLinkage true
  else F.

Definition markRuntimeHelper (name : string) (M : Module) : Module :=
  setFunctions (map (setAttrs name) (functions M)) M.

(** One element of the constant array: [{i32 id, i8, i8, i16 0}]. *)
Definition tableElem (meta : FunctionMetadata) : list (nat * Z) :=
  [(32, id meta); (8, hasUnsafeInst meta); (8, hasUnsafeRegions meta); (16, 0%Z)].

Definition metadataTable (g : nat) (metadata : list FunctionMetadata) : GlobalVariable :=
  mkGlobalVariable g "__unsafe_metadata_table" true InternalLinkage
    (InitArray (map tableElem metadata)) (Some 8%Z) [].

Fixpoint replaceAt {A : Type} (k : nat) (x : A) (l : list A) : list A :=
  match l, k with
  | [], _ => []
  | _ :: rest, O => x :: rest
  | y :: rest, S k' => y :: replaceAt k' x rest
  end.

(** The id constant read back from the attachment. *)
Definition idConstant (F : Function) : option Value :=
  match getFMetadata FUNCTION_ID_METADATA F with
  | Some (MDConstInt bits v :: _) => Some (VConstInt bits v)
  | _ => None
  end.

(** One iteration of phase 5, for the function at position [idx]. *)
Definition instrumentEntry (idx : nat) (fs : list Function) (n : nat)
  : option (list Function * nat) :=
  match nth_error fs idx with
  | None => None
  | Some F =>
      match blocks F with
      | (Front :: _) as EntryBB :: others =>
          match idConstant F with
          | Some IdConst =>
              let call := CreateCall n (CalleeFunction RECORD_FUNCTION_FN) [IdConst] in
              Some (replaceAt idx
                      (setBlocks (insertBefore (addr Front) [call] EntryBB :: others) F) fs,
                    n + 1)
          | None => None
          end
      | _ => None
      end
  end.

Fixpoint instrumentEntries (toInstrument : list nat) (fs : list Function) (n : nat)
  : option (list Function * nat) :=
  match toInstrument with
  | [] => Some (fs, n)
  | idx :: rest =>
      match instrumentEntry idx fs n with
      | None => None
      | Some (fs', n') => instrumentEntries rest fs' n'
      end
  end.

Definition run (env : option string) (M : Module) (n : nat)
  : option (PreservedAnalyses * Module * nat) :=
  if negb (isPrimaryPackage env) then Some (PA_all, M, n)
  else
    (* Phase 1 *)
    match assignIds (functions M) 0 0%Z with
    | (fs1, metadata, functionsToInstrument) =>
        match metadata with
        | [] => Some (PA_all, M, n)
        | _ :: _ =>
            let M1 := setFunctions fs1 M in
            (* Phase 2 *)
            let M2 := getOrInsertFunction DUMP_STATS_FN
                        (getOrInsertFunction RECORD_FUNCTION_FN
                           (getOrInsertFunction INIT_METADATA_FN M1)) in
            let M3 := markRuntimeHelper DUMP_STATS_FN
                        (markRuntimeHelper RECORD_FUNCTION_FN
                           (markRuntimeHelper INIT_METADATA_FN M2)) in
            (* Phase 3 *)
            let GV := metadataTable n metadata in
            let M4 := addGlobal GV M3 in
            (* Phase 4 *)
            let Count := VConstInt 32 (wrap32 (Z.of_nat (List.length metadata))) in
            let InitBB :=
              [CreateCall (n + 1) (CalleeFunction INIT_METADATA_FN) [VGlobal n; Count];
               CreateRetVoid (n + 2)] in
            let InitFunc :=
              mkFunction "__unsafe_module_init" [InitBB] [] InternalLinkage false in
            let M5 := appendToGlobalCtors "__unsafe_module_init" 0 (addFunction InitFunc M4) in
            let M6 := appendToGlobalDtors DUMP_STATS_FN 0 M5 in
            (* Phase 5 *)
            match instrumentEntries functionsToInstrument (functions M6) (n + 3) with
            | None => None
            | Some (fs', n') => Some (PA_none, setFunctions fs' M6, n')
            end
        end
    end.

End UnsafeFunctionTracker.

(* ================================================================== *)
(** * UnsafeInstCounter: per-block instruction counts *)
(* ================================================================== *)

Module UnsafeInstCounter.
Import IR.

Definition RECORD_BLOCK_FN : string := "__unsafe_record_block".

(** [UnsafeFunctionTrackerPass::FUNCTION_ID_METADATA] *)
Definition FUNCTION_ID_METADATA : string := "unsafe_count.func_id".

Definition UINT32_MAX : Z := 4294967295.

(** Unsigned arithmetic of the counters: [uint32_t] and [uint16_t]. *)
Definition wrap32 (z : Z) : Z := Z.modulo z 4294967296.
Definition wrap16 (z : Z) : Z := Z.modulo z 65536.

Inductive UnsafeCategory : Set :=
  | UNSAFE_LOAD | UNSAFE_STORE | UNSAFE_CALL | UNSAFE_CAST | UNSAFE_GEP | UNSAFE_OTHER.

(** The enumerators' values, used as array indices. *)
Definition categoryIndex (c : UnsafeCategory) : nat :=
  match c with
  | UNSAFE_LOAD => 0 | UNSAFE_STORE => 1 | UNSAFE_CALL => 2
  | UNSAFE_CAST => 3 | UNSAFE_GEP => 4 | UNSAFE_OTHER => 5
  end.

Definition MAX_UNSAFE_CATEGORIES : nat := 6.

Record BlockCounts : Set := mkBlockCounts {
  totalInsts : Z;
  totalUnsafeInsts : Z;
  unsafeCounts : list Z
}.

(** The constructor: both totals zero, the array cleared by [memset]. *)
Definition BlockCounts_init : BlockCounts :=
  mkBlockCounts 0 0 (repeat 0%Z MAX_UNSAFE_CATEGORIES).

Definition hasInstructions (c : BlockCounts) : bool := Z.ltb 0 (totalInsts c).
Definition hasUnsafeInstructions (c : BlockCounts) : bool := Z.ltb 0 (totalUnsafeInsts c).

(** The result and the two out-parameters [isBegin], [isEnd]. *)
Definition isMarkerInstruction (Inst : Instruction) : bool * bool * bool :=
  match inlineAsmOfCallBase Inst with
  | Some AsmStr =>
      if String.eqb AsmStr UNSAFE_MARKER_BEGIN then (true, true, false)
      else if String.eqb AsmStr UNSAFE_MARKER_END then (true, false, true)
      else (false, false, false)
  | None => (false, false, false)
  end.

Definition shouldInstrumentFunction (F : Function) : bool :=
  if isDeclaration F || isIntrinsic F then false
  else negb (String.prefix "__unsafe_" (fname F)) && negb (String.prefix "llvm." (fname F)).

Definition getUnsafeCategory (Inst : Instruction) : bool * UnsafeCategory :=
  match opcode Inst with
  | Load => (true, UNSAFE_LOAD)
  | Store | AtomicCmpXchg | AtomicRMW => (true, UNSAFE_STORE)
  | Call | Invoke | CallBr => (true, UNSAFE_CALL)
  | BitCast | IntToPtr | PtrToInt | AddrSpaceCast => (true, UNSAFE_CAST)
  | GetElementPtr => (true, UNSAFE_GEP)
  | _ => (true, UNSAFE_OTHER)
  end.

Fixpoint updateAt (k : nat) (f : Z -> Z) (l : list Z) : list Z :=
  match l, k with
  | [], _ => []
  | x :: rest, O => f x :: rest
  | x :: rest, S k' => x :: updateAt k' f rest
  end.

(** [counts.unsafeCounts[category]++] on a [uint16_t] *)
Definition bumpCategory (category : UnsafeCategory) (cs : list Z) : list Z :=
  updateAt (categoryIndex category) (fun v => wrap16 (v + 1)) cs.

(** One iteration of the loop of [analyzeBasicBlock]; the state is the
    counts and [inUnsafeRegion]. *)
Definition analyzeStep (st : BlockCounts * bool) (Inst : Instruction) : BlockCounts * bool :=
  let (counts, inUnsafeRegion) := st in
  if isDbgInfoIntrinsic Inst then st
  else
    match isMarkerInstruction Inst with
    | (true, isBegin, isEnd) =>
        (counts, if isBegin then true else if isEnd then false else inUnsafeRegion)
    | (false, _, _) =>
        let total := wrap32 (totalInsts counts + 1) in
        if inUnsafeRegion then
          let unsafeTotal := wrap32 (totalUnsafeInsts counts + 1) in
          match getUnsafeCategory Inst with
          | (true, category) =>
              (mkBlockCounts total unsafeTotal (bumpCategory category (unsafeCounts counts)),
               inUnsafeRegion)
          | (false, _) =>
              (mkBlockCounts total unsafeTotal (unsafeCounts counts), inUnsafeRegion)
          end
        else (mkBlockCounts total (totalUnsafeInsts counts) (unsafeCounts counts),
              inUnsafeRegion)
    end.

Definition analyzeBasicBlock (BB : BasicBlock) : BlockCounts :=
  fst (fold_left analyzeStep BB (BlockCounts_init, false)).

(** [None] is the failed [cast<>] on an attachment of another shape. *)
Definition getFunctionId (F : Function) : option Z :=
  match getFMetadata FUNCTION_ID_METADATA F with
  | None => Some UINT32_MAX
  | Some (MDConstInt bits v :: _) => Some (wrap32 (Z.modulo v (2 ^ Z.of_nat bits)))
  | Some _ => None
  end.

Definition setAttrs (name : string) (F : Function) : Function :=
  if String.eqb (fname F) name
  then mkFunction (fname F) (blocks F) (fmetadata F) ExternalLinkage true
  else F.

(** [addFnAttr(Attribute::NoInline)] and [setLinkage(ExternalLinkage)] on the
    function of that name. *)
Definition markRuntimeHelper (name : string) (M : Module) : Module :=
  setFunctions (map (setAttrs name) (functions M)) M.

Definition getOrCreateRecordBlockFn (M : Module) : Module :=
  markRuntimeHelper RECORD_BLOCK_FN (getOrInsertFunction RECORD_BLOCK_FN M).

Definition recordBlockCall (a : nat) (funcId total unsafeTotal ld st cl cs gp ot : Z)
  : Instruction :=
  CreateCall a (CalleeFunction RECORD_BLOCK_FN)
    [VConstInt 32 funcId; VConstInt 32 total; VConstInt 32 unsafeTotal;
     VConstInt 16 ld; VConstInt 16 st; VConstInt 16 cl;
     VConstInt 16 cs; VConstInt 16 gp; VConstInt 16 ot].

Definition countOf (category : UnsafeCategory) (c : BlockCounts) : Z :=
  nth (categoryIndex category) (unsafeCounts c) 0%Z.

(** The body of the loop over the blocks in [run]. *)
Definition instrumentBlock (funcId : Z) (BB : BasicBlock) (n : nat)
  : option (BasicBlock * bool * nat) :=
  let counts := analyzeBasicBlock BB in
  if negb (hasInstructions counts) then Some (BB, false, n)
  else
    match getTerminator BB with
    | None => None
    | Some T =>
        if negb (hasUnsafeInstructions counts) then
          Some (insertBefore (addr T)
                  [recordBlockCall n funcId (totalInsts counts) 0 0 0 0 0 0 0] BB,
                true, n + 1)
        else
          Some (insertBefore (addr T)
                  [recordBlockCall n funcId (totalInsts counts) (totalUnsafeInsts counts)
                     (countOf UNSAFE_LOAD counts) (countOf UNSAFE_STORE counts)
                     (countOf UNSAFE_CALL counts) (countOf UNSAFE_CAST counts)
                     (countOf UNSAFE_GEP counts) (countOf UNSAFE_OTHER counts)] BB,
                true, n + 1)
    end.

Fixpoint instrumentBlocks (funcId : Z) (BBs : list BasicBlock) (modified : bool) (n : nat)
  : option (list BasicBlock * bool * nat) :=
  match BBs with
  | [] => Some ([], modified, n)
  | BB :: rest =>
      match instrumentBlock funcId BB n with
      | None => None
      | Some (BB', m, n') =>
          match instrumentBlocks funcId rest (modified || m) n' with
          | None => None
          | Some (rest', modified', n'') => Some (BB' :: rest', modified', n'')
          end
      end
  end.

(** [run] on the function [F] of the module [M]: the verdict, the module
    with the declaration it may have gained, the rewritten function and the
    next free address. *)
Definition run (env : option string) (M : Module) (F : Function) (n : nat)
  : option (PreservedAnalyses * Module * Function * nat) :=
  if negb (isPrimaryPackage env) then Some (PA_all, M, F, n)
  else if negb (shouldInstrumentFunction F) then Some (PA_all, M, F, n)
  else
    match getFunctionId F with
    | None => None
    | Some funcId =>
        if Z.eqb funcId UINT32_MAX then Some (PA_all, M, F, n)
        else
          let M1 := getOrCreateRecordBlockFn M in
          match instrumentBlocks funcId (blocks F) false n with
          | None => None
          | Some (bbs, modified, n') =>
              Some (if modified then PA_none else PA_all, M1, setBlocks bbs F, n')
          end
    end.

End UnsafeInstCounter.

(* ================================================================== *)
(** * CpuCycleCount: measurement calls in place of the sentinels *)
(* ================================================================== *)

Module CpuCycleCount.
Import IR.

Definition PROGRAM_START_FN : string := "record_program_start".
Definition START_MEASUREMENT_FN : string := "cpu_cycle_start_measurement".
Definition END_MEASUREMENT_FN : string := "cpu_cycle_end_measurement".
Definition PRINT_STATS_FN : string := "print_cpu_cycle_stats".

(** The state of the first pass: [CurrentBeginMarker], [InstrumentationPairs]
    and [MarkersToRemove]; instruction pointers are addresses. *)
Definition Collected : Set := (option nat * list (nat * nat) * list nat)%type.

Definition collectStep (st : Collected) (Inst : Instruction) : Collected :=
  match st with
  | (CurrentBeginMarker, Pairs, ToRemove) =>
      match inlineAsmOfCallBase Inst with
      | None => st
      | Some Asm =>
          if String.eqb Asm UNSAFE_MARKER_BEGIN then
            match CurrentBeginMarker with
            | None => (Some (addr Inst), Pairs, ToRemove)
            | Some _ => st
            end
          else
            match String.eqb Asm UNSAFE_MARKER_END, CurrentBeginMarker with
            | true, Some Begin =>
                (None, Pairs ++ [(Begin, addr Inst)], ToRemove ++ [Begin; addr Inst])
            | _, _ => st
            end
      end
  end.

(** One block of the first pass; [CurrentBeginMarker] starts out null. *)
Definition collectBlock (acc : list (nat * nat) * list nat) (BB : BasicBlock)
  : list (nat * nat) * list nat :=
  match fold_left collectStep BB (None, fst acc, snd acc) with
  | (_, Pairs, ToRemove) => (Pairs, ToRemove)
  end.

Definition collectMarkers (bbs : list BasicBlock) : list (nat * nat) * list nat :=
  fold_left collectBlock bbs ([], []).

(** An instruction is found in the block its parent pointer names; the
    search over the blocks stands for that pointer. *)
Definition insertBeforeF (a : nat) (news : list Instruction) (bbs : list BasicBlock)
  : list BasicBlock :=
  map (insertBefore a news) bbs.

(** One iteration of the second pass. *)
Definition instrumentPair (st : list BasicBlock * nat) (pair : nat * nat)
  : list BasicBlock * nat :=
  match st, pair with
  | (bbs, n), (BeginMarker, EndMarker) =>
      let Fence1 := CreateFence n SequentiallyConsistent in
      let StartCycleValue := CreateCall (n + 1) (CalleeFunction START_MEASUREMENT_FN) [] in
      let bbs1 := insertBeforeF BeginMarker [Fence1; StartCycleValue] bbs in
      let Fence2 := CreateFence (n + 2) SequentiallyConsistent in
      let EndCall := CreateCall (n + 3) (CalleeFunction END_MEASUREMENT_FN)
                       [VInst (n + 1)] in
      (insertBeforeF EndMarker [Fence2; EndCall] bbs1, n + 4)
  end.

Definition isValueOf (a : nat) (v : Value) : bool :=
  match v with VInst b => Nat.eqb a b | _ => false end.

(** The instruction uses the value defined at address [a]. *)
Definition uses (a : nat) (Inst : Instruction) : bool :=
  existsb (isValueOf a) (operands Inst) ||
  match calledOperand Inst with
  | Some (CalleeValue v) => isValueOf a v
  | _ => false
  end.

Definition user_empty (a : nat) (bbs : list BasicBlock) : bool :=
  negb (existsb (existsb (uses a)) bbs).

Definition replaceValue (a : nat) (new : Value) (v : Value) : Value :=
  if isValueOf a v then new else v.

Definition replaceUses (a : nat) (new : Value) (Inst : Instruction) : Instruction :=
  mkInstruction (addr Inst) (opcode Inst)
    (match calledOperand Inst with
     | Some (CalleeValue v) => Some (CalleeValue (replaceValue a new v))
     | other => other
     end)
    (map (replaceValue a new) (operands Inst))
    (ordering Inst) (metadata Inst) (debugLoc Inst).

Definition replaceAllUsesWith (a : nat) (new : Value) (bbs : list BasicBlock)
  : list BasicBlock :=
  map (map (replaceUses a new)) bbs.

(** [Marker->getParent()] is non-null while the marker is linked in. *)
Definition hasParent (a : nat) (bbs : list BasicBlock) : bool :=
  existsb (existsb (fun Inst => Nat.eqb (addr Inst) a)) bbs.

(** One iteration of the third pass. *)
Definition removeMarker (bbs : list BasicBlock) (Marker : nat) : list BasicBlock :=
  if hasParent Marker bbs then
    let bbs1 :=
      if negb (user_empty Marker bbs) then replaceAllUsesWith Marker VUndef bbs
      else bbs in
    map (eraseFromParent Marker) bbs1
  else bbs.

Definition instrumentUnsafeBlocks (F : Function) (n : nat) : bool * Function * nat :=
  match collectMarkers (blocks F) with
  | ([], _) => (false, F, n)
  | (InstrumentationPairs, MarkersToRemove) =>
      match fold_left instrumentPair InstrumentationPairs (blocks F, n) with
      | (bbs2, n') =>
          (true, setBlocks (fold_left removeMarker MarkersToRemove bbs2) F, n')
      end
  end.

Definition setupRuntimeFunctions (M : Module) : Module :=
  getOrInsertFunction PRINT_STATS_FN
    (getOrInsertFunction END_MEASUREMENT_FN
       (getOrInsertFunction START_MEASUREMENT_FN
          (getOrInsertFunction PROGRAM_START_FN M))).

Definition Ctor (n : nat) : Function :=
  mkFunction "cpu_cycle_ctor"
    [[CreateCall n (CalleeFunction PROGRAM_START_FN) []; CreateRetVoid (n + 1)]]
    [] InternalLinkage false.

Definition setupModuleHooks (M : Module) (n : nat) : Module * nat :=
  (appendToGlobalDtors PRINT_STATS_FN 0
     (appendToGlobalCtors "cpu_cycle_ctor" 0 (addFunction (Ctor n) M)),
   n + 2).

(** The loop of [run] over the functions of the module. *)
Fixpoint instrumentFunctions (fs : list Function) (Modified : bool) (n : nat)
  : list Function * bool * nat :=
  match fs with
  | [] => ([], Modified, n)
  | F :: rest =>
      if isDeclaration F then
        match instrumentFunctions rest Modified n with
        | (rest', Modified', n') => (F :: rest', Modified', n')
        end
      else
        match instrumentUnsafeBlocks F n with
        | (changed, F', n1) =>
            match instrumentFunctions rest (if changed then true else Modified) n1 with
            | (rest', Modified', n') => (F' :: rest', Modified', n')
            end
        end
  end.

Definition run (env : option string) (M : Module) (n : nat)
  : PreservedAnalyses * Module * nat :=
  if negb (isPrimaryPackage env) then (PA_all, M, n)
  else
    let M1 := setupRuntimeFunctions M in
    match setupModuleHooks M1 n with
    | (M2, n2) =>
        match instrumentFunctions (functions M2) false n2 with
        | (fs', Modified, n') =>
            (if Modified then PA_none else PA_all, setFunctions fs' M2, n')
        end
    end.

End CpuCycleCount.

(* ================================================================== *)
(** * ExternalCallTracker: timers around external calls *)
(* ================================================================== *)

Module ExternalCallTracker.
Import IR.

Definition EXTERNAL_CALL_START_FN : string := "external_call_start".
Definition EXTERNAL_CALL_END_FN : string := "external_call_end".

(** "Checks if a function name is a runtime function that should not be
    instrumented." *)
Definition isRuntimeFunction (Name : string) : bool :=
  String.prefix "cpu_cycle_" Name ||
  String.prefix "record_" Name ||
  String.prefix "external_call_" Name.

(** [Call->getCalledFunction()], looked up in the module. *)
Definition getCalledFunction (M : Module) (Inst : Instruction) : option Function :=
  if isCallBaseOp (opcode Inst) then
    match calledOperand Inst with
    | Some (CalleeFunction name) => lookupFunction name (functions M)
    | _ => None
    end
  else None.

(** The test of the first pass on one instruction. *)
Definition isExternalCall (M : Module) (Inst : Instruction) : bool :=
  match getCalledFunction M Inst with
  | None => false
  | Some CalledFn =>
      if negb (isDeclaration CalledFn) || isIntrinsic CalledFn then false
      else negb (isRuntimeFunction (fname CalledFn))
  end.

Definition collectCalls (M : Module) (bbs : list BasicBlock) : list Instruction :=
  flat_map (filter (isExternalCall M)) bbs.

Fixpoint nextNonDebug (l : list Instruction) : option Instruction :=
  match l with
  | [] => None
  | Inst :: rest => if isDbgInfoIntrinsic Inst then nextNonDebug rest else Some Inst
  end.

Fixpoint nextNonDebugIn (a : nat) (BB : BasicBlock) : option Instruction :=
  match BB with
  | [] => None
  | Inst :: rest => if Nat.eqb (addr Inst) a then nextNonDebug rest else nextNonDebugIn a rest
  end.

(** [I->getNextNonDebugInstruction()], in the block that holds [I]. *)
Fixpoint getNextNonDebugInstruction (a : nat) (bbs : list BasicBlock) : option Instruction :=
  match bbs with
  | [] => None
  | BB :: rest =>
      if existsb (fun Inst => Nat.eqb (addr Inst) a) BB then nextNonDebugIn a BB
      else getNextNonDebugInstruction a rest
  end.

Definition insertBeforeF (a : nat) (news : list Instruction) (bbs : list BasicBlock)
  : list BasicBlock :=
  map (insertBefore a news) bbs.

(** One iteration of the second pass; the state is the blocks, [Modified]
    and the next free address. *)
Definition instrumentCall (st : list BasicBlock * bool * nat) (Inst : Instruction)
  : list BasicBlock * bool * nat :=
  match st with
  | (bbs, Modified, n) =>
      if isTerminator Inst then st
      else
        let Fence1 := CreateFence n SequentiallyConsistent in
        let StartTime := CreateCall (n + 1) (CalleeFunction EXTERNAL_CALL_START_FN) [] in
        let bbs1 := insertBeforeF (addr Inst) [Fence1; StartTime] bbs in
        match getNextNonDebugInstruction (addr Inst) bbs1 with
        | Some NextInst =>
            let Fence2 := CreateFence (n + 2) SequentiallyConsistent in
            let EndCall := CreateCall (n + 3) (CalleeFunction EXTERNAL_CALL_END_FN)
                             [VInst (n + 1)] in
            (insertBeforeF (addr NextInst) [Fence2; EndCall] bbs1, true, n + 4)
        | None => (bbs1, Modified, n + 2)
        end
  end.

Definition instrumentExternalCalls (M : Module) (F : Function) (n : nat)
  : bool * Function * nat :=
  match collectCalls M (blocks F) with
  | [] => (false, F, n)
  | CallsToInstrument =>
      match fold_left instrumentCall CallsToInstrument (blocks F, false, n) with
      | (bbs, Modified, n') => (Modified, setBlocks bbs F, n')
      end
  end.

Fixpoint instrumentFunctions (M : Module) (fs : list Function) (Modified : bool) (n : nat)
  : list Function * bool * nat :=
  match fs with
  | [] => ([], Modified, n)
  | F :: rest =>
      if isDeclaration F || isRuntimeFunction (fname F) then
        match instrumentFunctions M rest Modified n with
        | (rest', Modified', n') => (F :: rest', Modified', n')
        end
      else
        match instrumentExternalCalls M F n with
        | (changed, F', n1) =>
            match instrumentFunctions M rest (if changed then true else Modified) n1 with
            | (rest', Modified', n') => (F' :: rest', Modified', n')
            end
        end
  end.

Definition run (env : option string) (M : Module) (n : nat)
  : PreservedAnalyses * Module * nat :=
  if negb (isPrimaryPackage env) then (PA_all, M, n)
  else
    let M1 := getOrInsertFunction EXTERNAL_CALL_END_FN
                (getOrInsertFunction EXTERNAL_CALL_START_FN M) in
    match instrumentFunctions M1 (functions M1) false n with
    | (fs', Modified, n') => (if Modified then PA_none else PA_all, setFunctions fs' M1, n')
    end.

End ExternalCallTracker.

(* ================================================================== *)
(** * HeapTracker: calls in front of loads and stores *)
(* ================================================================== *)

Module HeapTracker.
Import IR.

Definition DYN_MEM_ACCESS_FN : string := "dyn_mem_access".
Definition DYN_UNSAFE_MEM_ACCESS_FN : string := "dyn_unsafe_mem_access".

Definition isLoad (Inst : Instruction) : bool :=
  match opcode Inst with Load => true | _ => false end.

Definition isStore (Inst : Instruction) : bool :=
  match opcode Inst with Store => true | _ => false end.

(** The pointer operand: operand 0 of a load, operand 1 of a store. *)
Definition getPointerOperand (Inst : Instruction) : Value :=
  if isLoad Inst then nth 0 (operands Inst) VUndef else nth 1 (operands Inst) VUndef.

(** The second loop of [instrumentMemInst] on one block, over the collected
    [memInsts]. *)
Fixpoint instrumentCollected (memInsts : list Instruction) (BB : BasicBlock) (n : nat)
  : BasicBlock * nat :=
  match memInsts with
  | [] => (BB, n)
  | MemInst :: rest =>
      let call := CreateCall n (CalleeFunction DYN_MEM_ACCESS_FN)
                    [getPointerOperand MemInst] in
      instrumentCollected rest (insertBefore (addr MemInst) [call] BB) (n + 1)
  end.

Fixpoint instrumentMemInst (bbs : list BasicBlock) (n : nat) : list BasicBlock * nat :=
  match bbs with
  | [] => ([], n)
  | BB :: rest =>
      let memInsts := filter (fun Inst => isLoad Inst || isStore Inst) BB in
      match instrumentCollected memInsts BB n with
      | (BB', n1) =>
          match instrumentMemInst rest n1 with
          | (rest', n') => (BB' :: rest', n')
          end
      end
  end.

(** The loop of [instrumentUnsafeMemInst] over one block.  A call created at
    the current instruction is linked in before it, so the walk never meets
    it; [ActiveMarkerBegin] is carried along. *)
Fixpoint unsafeMemBlock (BB : BasicBlock) (ActiveMarkerBegin : option nat) (n : nat)
  : BasicBlock * nat :=
  match BB with
  | [] => ([], n)
  | Inst :: rest =>
      let created :=
        match ActiveMarkerBegin with
        | Some _ =>
            if isLoad Inst || isStore Inst then
              [CreateCall n (CalleeFunction DYN_UNSAFE_MEM_ACCESS_FN)
                 [getPointerOperand Inst; VConstInt 1 (if isLoad Inst then 1 else 0)]]
            else []
        | None => []
        end in
      let Active' :=
        match inlineAsmOfCallInst Inst with
        | Some AsmStr =>
            if String.eqb AsmStr UNSAFE_MARKER_BEGIN then Some (addr Inst)
            else if String.eqb AsmStr UNSAFE_MARKER_END then
                   match ActiveMarkerBegin with Some _ => None | None => None end
                 else ActiveMarkerBegin
        | None => ActiveMarkerBegin
        end in
      match unsafeMemBlock rest Active' (n + List.length created) with
      | (rest', n') => (created ++ Inst :: rest', n')
      end
  end.

Fixpoint instrumentUnsafeMemInst (bbs : list BasicBlock) (n : nat) : list BasicBlock * nat :=
  match bbs with
  | [] => ([], n)
  | BB :: rest =>
      match unsafeMemBlock BB None n with
      | (BB', n1) =>
          match instrumentUnsafeMemInst rest n1 with
          | (rest', n') => (BB' :: rest', n')
          end
      end
  end.

Definition run (env : option string) (M : Module) (F : Function) (n : nat)
  : PreservedAnalyses * Module * Function * nat :=
  if negb (isPrimaryPackage env) then (PA_all, M, F, n)
  else
    let M1 := getOrInsertFunction DYN_UNSAFE_MEM_ACCESS_FN
                (getOrInsertFunction DYN_MEM_ACCESS_FN M) in
    match instrumentMemInst (blocks F) n with
    | (bbs1, n1) =>
        match instrumentUnsafeMemInst bbs1 n1 with
        | (bbs2, n2) => (PA_all, M1, setBlocks bbs2 F, n2)
        end
    end.

End HeapTracker.

(* ================================================================== *)
(** * DebugInfoPreserver: the anchor global *)
(* ================================================================== *)

Module DebugInfoPreserver.
Import IR.

Definition isPHI (Inst : Instruction) : bool :=
  match opcode Inst with PHI => true | _ => false end.

Definition sameNode (a : nat) (p : option nat) : bool :=
  match p with Some b => Nat.eqb a b | None => false end.

(** [PN->moveBefore(&*InsertPt)] *)
Definition moveBefore (PN : Instruction) (InsertPt : option nat) (BB : BasicBlock)
  : BasicBlock :=
  match InsertPt with
  | Some a => insertBefore a [PN] (eraseFromParent (addr PN) BB)
  | None => eraseFromParent (addr PN) BB ++ [PN]
  end.

(** [++InsertPt] *)
Definition advance (InsertPt : option nat) (BB : BasicBlock) : option nat :=
  match InsertPt with
  | Some a => option_map addr (getNextNode a BB)
  | None => None
  end.

(** The loop of [verifyPHINodes]: [rest] are the instructions from [I] on,
    [InsertPt] is an address in the block or [None] for [end()]. *)
Fixpoint verifyLoop (rest : list Instruction) (InsertPt : option nat) (BB : BasicBlock)
    (Modified : bool) : bool * BasicBlock :=
  match rest with
  | [] => (Modified, BB)
  | PN :: rest' =>
      if isPHI PN then
        if negb (sameNode (addr PN) InsertPt) then
          let BB1 := moveBefore PN InsertPt BB in
          verifyLoop rest' (advance InsertPt BB1) BB1 true
        else verifyLoop rest' (advance InsertPt BB) BB Modified
      else (Modified, BB)
  end.

Definition verifyPHINodes (BB : BasicBlock) : bool * BasicBlock :=
  verifyLoop BB (option_map addr (hd_error BB)) BB false.

Definition isValidDebugLocation (Loc : option DILocation) : bool :=
  match Loc with
  | None => false
  | Some L =>
      di_scope L && isSome (di_file L) && Z.ltb 0 (di_line L) && Z.ltb 0 (di_column L)
  end.

Fixpoint verifyBlocks (bbs : list BasicBlock) (Modified : bool) : bool * list BasicBlock :=
  match bbs with
  | [] => (Modified, [])
  | BB :: rest =>
      match verifyPHINodes BB with
      | (m, BB') =>
          match verifyBlocks rest (Modified || m) with
          | (Modified', rest') => (Modified', BB' :: rest')
          end
      end
  end.

(** Step a. *)
Fixpoint reorderPHIs (fs : list Function) (Modified : bool) : bool * list Function :=
  match fs with
  | [] => (Modified, [])
  | F :: rest =>
      if isDeclaration F then
        match reorderPHIs rest Modified with
        | (Modified', rest') => (Modified', F :: rest')
        end
      else
        match verifyBlocks (blocks F) Modified with
        | (m, bbs) =>
            match reorderPHIs rest m with
            | (Modified', rest') => (Modified', setBlocks bbs F :: rest')
            end
        end
  end.

(** Step c: one node per instruction with a valid location. *)
Definition collectLocations (fs : list Function) : list Metadata :=
  flat_map
    (fun F =>
       flat_map
         (flat_map (fun Inst =>
                      match debugLoc Inst with
                      | Some Loc =>
                          if isValidDebugLocation (Some Loc) then [MDTuple [MDLoc Loc]] else []
                      | None => []
                      end))
         (blocks F))
    fs.

(** [run] never reads the environment. *)
Definition run (M : Module) (n : nat) : PreservedAnalyses * Module * nat :=
  match reorderPHIs (functions M) false with
  | (Modified, fs) =>
      let M1 := setFunctions fs M in
      let MetadataRefs := collectLocations fs in
      let GV :=
        mkGlobalVariable n "__unsafe_coverage_anchor" false InternalLinkage (InitInt 8 0)
          None
          (match MetadataRefs with
           | [] => []
           | _ :: _ => [("preserved.debuginfo", MetadataRefs)]
           end) in
      let M2 := appendToCompilerUsed [n] (addGlobal GV M1) in
      (if Modified then PA_none else PA_all, M2, n + 1)
  end.

End DebugInfoPreserver.

(* ================================================================== *)
(** * DynamicLineCount: line registration and tracking calls *)
(* ================================================================== *)

Module DynamicLineCount.
Import IR.

Definition REGISTER_UNSAFE_LINE_FN : string := "register_unsafe_line".
Definition TRACK_UNSAFE_LINE_EXECUTION_FN : string := "track_unsafe_line_execution".
Definition PRINT_UNSAFE_COVERAGE_STATS_FN : string := "print_unsafe_coverage_stats".

(** Conversion to [unsigned]. *)
Definition toUnsigned (z : Z) : Z := Z.modulo z 4294967296.

Definition setupRuntimeFunctions (M : Module) : Module :=
  getOrInsertFunction PRINT_UNSAFE_COVERAGE_STATS_FN
    (getOrInsertFunction TRACK_UNSAFE_LINE_EXECUTION_FN
       (getOrInsertFunction REGISTER_UNSAFE_LINE_FN M)).

(** [Builder.CreateGlobalStringPtr(Str)]: a fresh private constant holding
    the string; the call's value is that global. *)
Definition createGlobalString (a : nat) (Str : string) : GlobalVariable :=
  mkGlobalVariable a "" true PrivateLinkage (InitString Str) (Some 1%Z) [].

(** [isMarkerInstruction]: [Some true] for a begin marker, [Some false] for an
    end marker, [None] when the function returns false. *)
Definition isMarkerInstruction (Inst : Instruction) : option bool :=
  match inlineAsmOfCallBase Inst with
  | Some AsmStr =>
      if String.eqb AsmStr UNSAFE_MARKER_BEGIN then Some true
      else if String.eqb AsmStr UNSAFE_MARKER_END then Some false
      else None
  | None => None
  end.

Definition shouldInstrumentFunction (F : Function) : bool :=
  if isDeclaration F || isIntrinsic F then false
  else
    negb (String.eqb (fname F) REGISTER_UNSAFE_LINE_FN) &&
    negb (String.eqb (fname F) TRACK_UNSAFE_LINE_EXECUTION_FN) &&
    negb (String.eqb (fname F) PRINT_UNSAFE_COVERAGE_STATS_FN) &&
    negb (String.eqb (fname F) "unsafe_lines_module_ctor") &&
    negb (String.eqb (fname F) "unsafe_lines_module_dtor").

(** [std::to_string] of an unsigned value. *)
Definition to_string (z : Z) : string :=
  DecimalString.NilEmpty.string_of_uint (N.to_uint (Z.to_N z)).

(** [std::set<std::string>::insert] on the set kept as its sorted sequence. *)
Fixpoint setInsert (k : string) (s : list string) : list string :=
  match s with
  | [] => [k]
  | x :: rest =>
      match String.compare k x with
      | Lt => k :: s
      | Eq => s
      | Gt => x :: setInsert k rest
      end
  end.

(** Line and file of an [unsafe_line_info] node that passes the three tests
    on its operands. *)
Definition lineInfo (Inst : Instruction) : option (Z * string) :=
  match getMetadata "unsafe_line_info" Inst with
  | Some (MDConstInt _ v :: MDStr File :: _) => Some (toUnsigned v, File)
  | _ => None
  end.

(** What the loops of [collectAndInstrumentFunction] carry: the set of line
    keys, the string globals created so far, [Modified], the next address. *)
Record Collect : Set := mkCollect {
  allUnsafeLines : list string;
  strings : list GlobalVariable;
  modified : bool;
  fresh : nat
}.

Fixpoint collectBlock (BB : BasicBlock) (insideUnsafeRegion : bool) (c : Collect)
  : BasicBlock * Collect :=
  match BB with
  | [] => ([], c)
  | Inst :: rest =>
      match isMarkerInstruction Inst with
      | Some isBegin =>
          match collectBlock rest isBegin c with
          | (rest', c') => (Inst :: rest', c')
          end
      | None =>
          match
            (if insideUnsafeRegion && isSome (getMetadata "unsafe_inst" Inst)
             then lineInfo Inst else None)
          with
          | Some (Line, File) =>
              let LineKey := String.append File (String.append ":" (to_string Line)) in
              let n := fresh c in
              let FileArg := createGlobalString n File in
              let call := CreateCall (n + 1) (CalleeFunction TRACK_UNSAFE_LINE_EXECUTION_FN)
                            [VConstInt 64 Line; VGlobal n] in
              let c1 := mkCollect (setInsert LineKey (allUnsafeLines c))
                          (strings c ++ [FileArg]) true (n + 2) in
              match collectBlock rest insideUnsafeRegion c1 with
              | (rest', c') => (call :: Inst :: rest', c')
              end
          | None =>
              match collectBlock rest insideUnsafeRegion c with
              | (rest', c') => (Inst :: rest', c')
              end
          end
      end
  end.

Fixpoint collectBlocks (bbs : list BasicBlock) (c : Collect) : list BasicBlock * Collect :=
  match bbs with
  | [] => ([], c)
  | BB :: rest =>
      match collectBlock BB false c with
      | (BB', c1) =>
          match collectBlocks rest c1 with
          | (rest', c') => (BB' :: rest', c')
          end
      end
  end.

(** Phase 1 of [run]. *)
Fixpoint collectFunctions (fs : list Function) (c : Collect) : list Function * Collect :=
  match fs with
  | [] => ([], c)
  | F :: rest =>
      if shouldInstrumentFunction F then
        match collectBlocks (blocks F) c with
        | (bbs, c1) =>
            match collectFunctions rest c1 with
            | (rest', c') => (setBlocks bbs F :: rest', c')
            end
        end
      else
        match collectFunctions rest c with
        | (rest', c') => (F :: rest', c')
        end
  end.

Definition digitValue (ch : ascii) : option Z :=
  let k := nat_of_ascii ch in
  if (48 <=? k)%nat && (k <=? 57)%nat then Some (Z.of_nat (k - 48)) else None.

Fixpoint leadingDigits (s : string) : list Z :=
  match s with
  | EmptyString => []
  | String ch rest =>
      match digitValue ch with
      | Some d => d :: leadingDigits rest
      | None => []
      end
  end.

(** [std::stoul] on text that begins with a digit or with something that is
    no number: the leading digits are read, and [None] stands for the
    exception thrown when there are none or the value does not fit
    [unsigned long].  Leading blanks and a sign are not modelled. *)
Definition stoul (s : string) : option Z :=
  match leadingDigits s with
  | [] => None
  | ds =>
      let v := fold_left (fun acc d => (10 * acc + d)%Z) ds 0%Z in
      if (v <? 18446744073709551616)%Z then Some v else None
  end.

(** The loop of [createModuleConstructor] over the set. *)
Fixpoint registerLines (keys : list string) (n : nat)
  : option (list Instruction * list GlobalVariable * nat) :=
  match keys with
  | [] => Some ([], [], n)
  | lineKey :: rest =>
      match String.index 0 ":" lineKey with
      | None => None
      | Some colonPos =>
          let file := String.substring 0 colonPos lineKey in
          match stoul (String.substring (colonPos + 1)
                         (String.length lineKey - (colonPos + 1)) lineKey) with
          | None => None
          | Some v =>
              let line := toUnsigned v in
              let FileArg := createGlobalString n file in
              let call := CreateCall (n + 1) (CalleeFunction REGISTER_UNSAFE_LINE_FN)
                            [VConstInt 64 line; VGlobal n] in
              match registerLines rest (n + 2) with
              | None => None
              | Some (calls, gs, n') => Some (call :: calls, FileArg :: gs, n')
              end
          end
      end
  end.

Definition addGlobals (gs : list GlobalVariable) (M : Module) : Module :=
  fold_left (fun acc G => addGlobal G acc) gs M.

Definition createModuleConstructor (M : Module) (keys : list string) (n : nat)
  : option (Module * nat) :=
  match registerLines keys n with
  | None => None
  | Some (calls, gs, n1) =>
      let CtorFn :=
        mkFunction "unsafe_lines_module_ctor" [calls ++ [CreateRetVoid n1]] []
          InternalLinkage false in
      Some (appendToGlobalCtors "unsafe_lines_module_ctor" 0
              (addFunction CtorFn (addGlobals gs M)), n1 + 1)
  end.

Definition createModuleDestructor (M : Module) (n : nat) : Module * nat :=
  let DtorFn :=
    mkFunction "unsafe_lines_module_dtor"
      [[CreateCall n (CalleeFunction PRINT_UNSAFE_COVERAGE_STATS_FN) [];
        CreateRetVoid (n + 1)]] [] InternalLinkage false in
  (appendToGlobalDtors "unsafe_lines_module_dtor" 0 (addFunction DtorFn M), n + 2).

(** [run] never reads the environment.  [None] is the exception of
    [std::stoul] leaving the pass. *)
Definition run (M : Module) (n : nat) : option (PreservedAnalyses * Module * nat) :=
  let M1 := setupRuntimeFunctions M in
  match collectFunctions (functions M1) (mkCollect [] [] false n) with
  | (fs, c) =>
      let M2 := addGlobals (strings c) (setFunctions fs M1) in
      match
        (match allUnsafeLines c with
         | [] => Some (M2, modified c, fresh c)
         | keys =>
             match createModuleConstructor M2 keys (fresh c) with
             | Some (M3, n3) => Some (M3, true, n3)
             | None => None
             end
         end)
      with
      | None => None
      | Some (M3, Modified, n3) =>
          if Modified then
            match createModuleDestructor M3 n3 with
            | (M4, n4) => Some (PA_none, M4, n4)
            end
          else Some (PA_all, M3, n3)
      end
  end.

End DynamicLineCount.

(* ================================================================== *)
(** * Vocabulary of the statements *)
(* ================================================================== *)

Module Props.
Import IR.

Inductive MarkerKind : Set := MarkerBegin | MarkerEnd.

(** The three-valued recognizer: not a sentinel, a begin, an end. *)
Definition markerKind (Inst : Instruction) : option MarkerKind :=
  match inlineAsmOfCallBase Inst with
  | Some asm =>
      if String.eqb asm UNSAFE_MARKER_BEGIN then Some MarkerBegin
      else if String.eqb asm UNSAFE_MARKER_END then Some MarkerEnd
      else None
  | None => None
  end.

Definition isMarker (Inst : Instruction) : bool := isSome (markerKind Inst).

(** The sentinels of a block, in order. *)
Definition markerKinds (BB : BasicBlock) : list MarkerKind :=
  flat_map (fun Inst => match markerKind Inst with Some k => [k] | None => [] end) BB.

Definition unsafeFree (BB : BasicBlock) : Prop :=
  Forall (fun Inst => hasUnsafeInst Inst = false) BB.

(** A segment that is empty or starts at an instruction carrying [unsafe_inst]. *)
Definition startsUnsafe (mid : list Instruction) : Prop :=
  match mid with
  | [] => True
  | First :: _ => hasUnsafeInst First = true
  end.

Definition terminatorCount (BB : BasicBlock) : nat := List.length (filter isTerminator BB).

(** A block ends with its one terminator. *)
Definition wellFormedBlock (BB : BasicBlock) : Prop :=
  (exists T, back BB = Some T /\ isTerminator T = true) /\ terminatorCount BB = 1.

(** Every address of the block is below the next free one. *)
Definition belowFresh (n : nat) (BB : BasicBlock) : Prop :=
  Forall (fun Inst => addr Inst < n) BB.

(** Distinct instruction objects of a function have distinct addresses. *)
Definition uniqueAddrs (F : Function) : Prop := NoDup (addrs (List.concat (blocks F))).

Definition freshFor (n : nat) (F : Function) : Prop := Forall (belowFresh n) (blocks F).

Definition wellFormedFunction (F : Function) : Prop := Forall wellFormedBlock (blocks F).

Definition sentinelFree (F : Function) : Prop :=
  Forall (fun BB => markerKinds BB = []) (blocks F).

Definition isBeginSentinel (Inst : Instruction) : Prop :=
  opcode Inst = Call /\ calledOperand Inst = Some InstMarker.AsmMarkerBegin.

Definition isEndSentinel (Inst : Instruction) : Prop :=
  opcode Inst = Call /\ calledOperand Inst = Some InstMarker.AsmMarkerEnd.

(** The sentinels as MarkerPlanter creates them, at a given address. *)
Definition beginAt (n : nat) : Instruction := CreateCall n InstMarker.AsmMarkerBegin [].
Definition endAt (n : nat) : Instruction := CreateCall n InstMarker.AsmMarkerEnd [].

(** What MarkerPlanter does to a block.  [mid ++ [Last]] is the segment from
    the first to the last instruction carrying [unsafe_inst]. *)
Inductive Planted : BasicBlock -> BasicBlock -> Prop :=
  | Planted_none : forall BB,
      unsafeFree BB -> Planted BB BB
  | Planted_after : forall pre mid Last post b e,
      unsafeFree pre -> startsUnsafe mid -> hasUnsafeInst Last = true ->
      unsafeFree post -> post <> [] ->
      isBeginSentinel b -> isEndSentinel e ->
      Planted (pre ++ mid ++ Last :: post) (pre ++ b :: mid ++ Last :: e :: post)
  | Planted_before_terminator : forall pre mid Last b e,
      unsafeFree pre -> startsUnsafe mid -> hasUnsafeInst Last = true ->
      isTerminator Last = true ->
      isBeginSentinel b -> isEndSentinel e ->
      Planted (pre ++ mid ++ [Last]) (pre ++ b :: mid ++ [e; Last]).

(** Executable readings of "the begin sits immediately before the first
    instruction carrying [unsafe_inst]" and "the end sits after the last". *)
Fixpoint indexWhere (p : Instruction -> bool) (BB : BasicBlock) : option nat :=
  match BB with
  | [] => None
  | Inst :: rest =>
      if p Inst then Some 0
      else match indexWhere p rest with Some k => Some (S k) | None => None end
  end.


Definition isKind (k : MarkerKind) (Inst : Instruction) : bool :=
  match markerKind Inst, k with
  | Some MarkerBegin, MarkerBegin => true
  | Some MarkerEnd, MarkerEnd => true
  | _, _ => false
  end.

Definition beginJustBeforeFirstUnsafe (BB : BasicBlock) : bool :=
  match indexWhere (isKind MarkerBegin) BB, indexWhere hasUnsafeInst BB with
  | Some b, Some f => Nat.eqb (S b) f
  | _, _ => false
  end.


(** ** InstructionCounter *)

(** An instruction the counter counts: neither a debug intrinsic nor a
    sentinel. *)
Definition counted (Inst : Instruction) : bool :=
  negb (isDbgInfoIntrinsic Inst) && negb (isMarker Inst).

Definition countedInsts (BB : BasicBlock) : list Instruction := filter counted BB.

(** The counted instructions that lie inside a marker region, given whether
    a region is open where the scan starts. *)
Fixpoint regionInsts (inRegion : bool) (BB : BasicBlock) : list Instruction :=
  match BB with
  | [] => []
  | Inst :: rest =>
      if isDbgInfoIntrinsic Inst then regionInsts inRegion rest
      else
        match markerKind Inst with
        | Some MarkerBegin => regionInsts true rest
        | Some MarkerEnd => regionInsts false rest
        | None => (if inRegion then [Inst] else []) ++ regionInsts inRegion rest
        end
  end.

Definition categoryOf (Inst : Instruction) : UnsafeInstCounter.UnsafeCategory :=
  snd (UnsafeInstCounter.getUnsafeCategory Inst).

Definition inCategory (c : UnsafeInstCounter.UnsafeCategory) (Inst : Instruction) : bool :=
  Nat.eqb (UnsafeInstCounter.categoryIndex (categoryOf Inst))
          (UnsafeInstCounter.categoryIndex c).

(** How many instructions of a list fall into a category. *)
Definition categoryCount (c : UnsafeInstCounter.UnsafeCategory) (l : list Instruction) : nat :=
  List.length (filter (inCategory c) l).

Definition sumZ (l : list Z) : Z := fold_right Z.add 0%Z l.

(** The call InstructionCounter emits for a block, from the block alone. *)
Definition recordBlockCallOf (a : nat) (funcId : Z) (BB : BasicBlock) : Instruction :=
  let region := regionInsts false BB in
  let field c := UnsafeInstCounter.wrap16 (Z.of_nat (categoryCount c region)) in
  UnsafeInstCounter.recordBlockCall a funcId
    (Z.of_nat (List.length (countedInsts BB)))
    (Z.of_nat (List.length region))
    (field UnsafeInstCounter.UNSAFE_LOAD) (field UnsafeInstCounter.UNSAFE_STORE)
    (field UnsafeInstCounter.UNSAFE_CALL) (field UnsafeInstCounter.UNSAFE_CAST)
    (field UnsafeInstCounter.UNSAFE_GEP) (field UnsafeInstCounter.UNSAFE_OTHER).

(** What InstructionCounter does to a block. *)
Inductive Recorded (funcId : Z) : BasicBlock -> BasicBlock -> Prop :=
  | Recorded_none : forall BB,
      countedInsts BB = [] -> Recorded funcId BB BB
  | Recorded_one : forall body T a,
      countedInsts (body ++ [T]) <> [] ->
      Recorded funcId (body ++ [T]) (body ++ [recordBlockCallOf a funcId (body ++ [T]); T]).

(** The 32-bit counters of a block cannot wrap. *)
Definition fitsCounters (BB : BasicBlock) : Prop :=
  (Z.of_nat (List.length BB) < 4294967296)%Z.

(** The fields of a call as integers, in operand order. *)
Definition intOperands (Inst : Instruction) : list Z :=
  flat_map (fun v => match v with VConstInt _ z => [z] | _ => [] end) (operands Inst).

(** The fields of the first [__unsafe_record_block] call of a block. *)
Definition isRecordBlockCall (Inst : Instruction) : bool :=
  match calledOperand Inst with
  | Some (CalleeFunction name) => String.eqb name UnsafeInstCounter.RECORD_BLOCK_FN
  | _ => false
  end.

Definition recordFields (BB : BasicBlock) : option (list Z) :=
  option_map intOperands (find isRecordBlockCall BB).

(** Increments of the 32-bit and 16-bit counters, and the array after the
    instructions of a list have bumped their categories. *)
Definition inc32 (z : Z) : Z := UnsafeInstCounter.wrap32 (z + 1).
Definition inc16 (z : Z) : Z := UnsafeInstCounter.wrap16 (z + 1).

Definition bumpAll (l : list Instruction) (cs : list Z) : list Z :=
  fold_left (fun acc Inst => UnsafeInstCounter.bumpCategory (categoryOf Inst) acc) l cs.

(** ** FunctionTracker *)

(** The attachment FunctionTracker writes for the id [k]. *)
Definition idNode (k : nat) : option MDNode := Some [MDConstInt 32 (Z.of_nat k)].

Definition funcIdOf (F : Function) : option MDNode :=
  getFMetadata UnsafeFunctionTracker.FUNCTION_ID_METADATA F.

Definition eligible (F : Function) : bool := UnsafeFunctionTracker.shouldInstrumentFunction F.

(** What the pass may do to a function that was already in the module: the
    name and the eligibility stay, and an ineligible function keeps its
    attachments and its body. *)
Definition SameFunction (F F' : Function) : Prop :=
  fname F' = fname F /\ eligible F' = eligible F /\
  (eligible F = false -> fmetadata F' = fmetadata F /\ blocks F' = blocks F).

(** Whether a block holds an instruction carrying [unsafe_inst] between a
    begin sentinel and the next end sentinel of that block. *)
Fixpoint taggedInRegion (inRegion : bool) (BB : BasicBlock) : bool :=
  match BB with
  | [] => false
  | Inst :: rest =>
      match markerKind Inst with
      | Some MarkerBegin => taggedInRegion true rest
      | Some MarkerEnd => taggedInRegion false rest
      | None => (inRegion && hasUnsafeInst Inst) || taggedInRegion inRegion rest
      end
  end.

(** Whether a region is open where the block ends. *)
Fixpoint regionOpenAtEnd (inRegion : bool) (BB : BasicBlock) : bool :=
  match BB with
  | [] => inRegion
  | Inst :: rest =>
      match markerKind Inst with
      | Some MarkerBegin => regionOpenAtEnd true rest
      | Some MarkerEnd => regionOpenAtEnd false rest
      | None => regionOpenAtEnd inRegion rest
      end
  end.

Definition hasTaggedInRegion (F : Function) : bool :=
  existsb (taggedInRegion false) (blocks F).

(** The [hasUnsafeInst] bytes of the table a module carries, in order. *)
Definition tableFlags (M : Module) : list Z :=
  flat_map (fun G =>
              if String.eqb (gname G) "__unsafe_metadata_table" then
                match ginit G with
                | InitArray elems => map (fun e => snd (nth 1 e (0, 0%Z))) elems
                | _ => []
                end
              else [])
           (globals M).

(** ** CycleCounter *)

(** The sentinels alternate begin, end, begin, end, ... and end closed. *)
Fixpoint alternating (ks : list MarkerKind) : bool :=
  match ks with
  | [] => true
  | MarkerBegin :: MarkerEnd :: rest => alternating rest
  | _ => false
  end.

Definition balanced (BB : BasicBlock) : bool := alternating (markerKinds BB).

Definition fenceAt (a : nat) : Instruction := CreateFence a SequentiallyConsistent.

Definition startCallAt (a : nat) : Instruction :=
  CreateCall a (CalleeFunction CpuCycleCount.START_MEASUREMENT_FN) [].

(** The end call at address [a], fed the value of the start call at [s]. *)
Definition endCallAt (a s : nat) : Instruction :=
  CreateCall a (CalleeFunction CpuCycleCount.END_MEASUREMENT_FN) [VInst s].

(** What CycleCounter does to a block whose sentinels alternate, with the
    addresses it allocates from [n] on: each begin gives way to a fence and
    the start call, the matching end to a fence and the end call fed the
    start call's value; everything else stays. *)
Inductive ReplacedFrom : nat -> BasicBlock -> BasicBlock -> nat -> Prop :=
  | Replaced_nil : forall n, ReplacedFrom n [] [] n
  | Replaced_plain : forall n n' Inst l l',
      markerKind Inst = None ->
      ReplacedFrom n l l' n' ->
      ReplacedFrom n (Inst :: l) (Inst :: l') n'
  | Replaced_pair : forall n n' b mid e l l',
      markerKind b = Some MarkerBegin ->
      Forall (fun Inst => markerKind Inst = None) mid ->
      markerKind e = Some MarkerEnd ->
      ReplacedFrom (n + 4) l l' n' ->
      ReplacedFrom n (b :: mid ++ e :: l)
        (fenceAt n :: startCallAt (n + 1) :: mid
           ++ fenceAt (n + 2) :: endCallAt (n + 3) (n + 1) :: l') n'.

(** The addresses of the sentinels of a function, in order. *)
Definition sentinelAddrs (F : Function) : list nat :=
  addrs (filter isMarker (List.concat (blocks F))).

(** An operand that names one of the instructions at [R] reads undef. *)
Definition dropsValue (R : list nat) (v : Value) : Value :=
  if existsb (fun a => CpuCycleCount.isValueOf a v) R then VUndef else v.

(** The instruction with undef for every use of an instruction at [R]: what
    [replaceAllUsesWith(UndefValue)] on each of them leaves of it. *)
Definition undefUses (R : list nat) (Inst : Instruction) : Instruction :=
  mkInstruction (addr Inst) (opcode Inst)
    (match calledOperand Inst with
     | Some (CalleeValue v) => Some (CalleeValue (dropsValue R v))
     | other => other
     end)
    (map (dropsValue R) (operands Inst))
    (ordering Inst) (metadata Inst) (debugLoc Inst).

(** What CycleCounter does to a function whose blocks hold alternating
    sentinels: in every block the pairs give way to the fenced calls, and
    an instruction that used the value of a sentinel uses undef instead. *)
Definition CycleInstrumented (F F' : Function) : Prop :=
  fname F' = fname F /\
  Forall2 (fun B B' => exists k k',
             ReplacedFrom k (map (undefUses (sentinelAddrs F)) B) B' k')
          (blocks F) (blocks F').

(** What the statement about CycleCounter asks of a function of the input:
    distinct addresses below the next free one, and alternating sentinels in
    every block. *)
Definition cycleReady (n : nat) (F : Function) : Prop :=
  uniqueAddrs F /\ freshFor n F /\
  Forall (fun B => balanced B = true) (blocks F).

Definition sentinelCount (M : Module) : nat :=
  List.length
    (filter isMarker (List.concat (flat_map blocks (functions M)))).

End Props.

(* ================================================================== *)
(** * Sample programs *)
(* ================================================================== *)

Module Samples.
Import IR.

Definition inst (a : nat) (op : Opcode) : Instruction :=
  mkInstruction a op None [] NotAtomic [] None.

(** The front end's tag. *)
Definition tagged (i : Instruction) : Instruction := setMetadata "unsafe_inst" [] i.

Definition fn (name : string) (bbs : list BasicBlock) : Function :=
  mkFunction name bbs [] ExternalLinkage false.

Definition primary : option string := Some "1".

(** [alloca; store !unsafe_inst; ret !unsafe_inst]: the last tagged
    instruction is the terminator. *)
Definition blockTaggedRet : BasicBlock :=
  [inst 0 Alloca; tagged (inst 1 Store); tagged (inst 2 Ret)].

Definition fnTaggedRet : Function := fn "f" [blockTaggedRet].

(** [alloca; load !unsafe_inst; add; store !unsafe_inst; ret] *)
Definition blockTwoTagged : BasicBlock :=
  [inst 0 Alloca; tagged (inst 1 Load); inst 2 Add; tagged (inst 3 Store); inst 4 Ret].

Definition fnTwoTagged : Function := fn "g" [blockTwoTagged].

(** A region of 65536 loads: [begin; load x 65536; end; ret]. *)
Definition blockManyLoads : BasicBlock :=
  Props.beginAt 1 :: map (fun k => inst k Load) (seq 3 65536)
    ++ [Props.endAt 2; inst 0 Ret].

(** [load; begin; store; end; ret], and a block with no region. *)
Definition blockOneRegion : BasicBlock :=
  [inst 0 Load; Props.beginAt 1; tagged (inst 2 Store); Props.endAt 3; inst 4 Ret].

Definition blockNoRegion : BasicBlock := [inst 5 Add; inst 6 Ret].

Definition withFuncId (id : Z) (F : Function) : Function :=
  setFMetadata "unsafe_count.func_id" [MDConstInt 32 id] F.

Definition fnCounted : Function := withFuncId 7 (fn "h" [blockOneRegion; blockNoRegion]).

Definition emptyModule : Module := mkModule [] [] [] [] [].

Definition moduleOf (fs : list Function) : Module := mkModule fs [] [] [] [].

(** A region left open at the end of the first block, and a tagged store in
    the second block: [[begin; br]; [store !unsafe_inst; ret]]. *)
Definition fnOpenRegion : Function :=
  fn "k" [[Props.beginAt 0; inst 1 Br]; [tagged (inst 2 Store); inst 3 Ret]].

(** A region whose block was split after planting:
    [[begin; store !unsafe_inst; br]; [end; ret]]. *)
Definition fnSplitRegion : Function :=
  fn "s" [[Props.beginAt 0; tagged (inst 1 Store); inst 2 Br]; [Props.endAt 3; inst 4 Ret]].

(** Two regions in one block and one in the next. *)
Definition fnRegions : Function :=
  fn "r" [[Props.beginAt 0; inst 1 Load; Props.endAt 2; inst 3 Add;
           Props.beginAt 4; inst 5 Store; Props.endAt 6; inst 7 Br];
          [Props.beginAt 8; inst 9 Store; Props.endAt 10; inst 11 Ret]].

(** A region whose begin sentinel has a user: the store names its value.
    [[begin; store %begin; end; ret]] *)
Definition fnUsedSentinel : Function :=
  fn "u" [[Props.beginAt 0;
           mkInstruction 1 Store None [VInst 0] NotAtomic [] None;
           Props.endAt 2; inst 3 Ret]].

(** A function whose id attachment holds [UINT32_MAX]. *)
Definition fnMaxId : Function :=
  withFuncId 4294967295 (fn "h" [blockOneRegion; blockNoRegion]).


(** Two definitions around a declaration. *)
Definition moduleThree : Module :=
  moduleOf [fn "a" [blockNoRegion]; fn "memcpy" []; fn "b" [blockOneRegion]].

(** A function that reports a block to the runtime, in a module that
    declares the helper: [[call @__unsafe_record_block(...); ret]]. *)
Definition fnRecordsBlock : Function :=
  fn "w" [[UnsafeInstCounter.recordBlockCall 1 0 1 0 0 0 0 0 0 0; inst 0 Ret]].

Definition moduleRecordsBlock : Module :=
  moduleOf [declaration UnsafeInstCounter.RECORD_BLOCK_FN; fnRecordsBlock].

End Samples.

(* ================================================================== *)
(** * FunctionTracker between its phases *)
(* ================================================================== *)

Module UnsafeFunctionTrackerInv.
Import IR Props UnsafeFunctionTracker.

(** The id with its 32-bit wrap-around. *)
Definition idNodeW (k : nat) : option MDNode := Some [MDConstInt 32 (wrap32 (Z.of_nat k))].

(** Phase 1 on one function. *)
Definition Tagged (F F1 : Function) : Prop :=
  fname F1 = fname F /\ blocks F1 = blocks F /\
  (eligible F = false -> F1 = F) /\
  (eligible F = true -> idConstant F1 <> None).

(** Phases 2 to 5 on a function of the module. *)
Definition Kept (F F' : Function) : Prop :=
  fname F' = fname F /\ fmetadata F' = fmetadata F /\
  isDeclaration F' = isDeclaration F /\
  (eligible F = false -> blocks F' = blocks F).

Definition helpers (F : Function) : Function :=
  setAttrs DUMP_STATS_FN (setAttrs RECORD_FUNCTION_FN (setAttrs INIT_METADATA_FN F)).

Definition PlainDeclaration (D : Function) : Prop := blocks D = [] /\ fmetadata D = [].

(** A function phase 5 can instrument. *)
Definition Ready (F : Function) : Prop :=
  eligible F = true /\ idConstant F <> None /\
  exists Front rest others, blocks F = (Front :: rest) :: others.

Definition InitFunc (n : nat) (metadata : list FunctionMetadata) : Function :=
  mkFunction "__unsafe_module_init"
    [[CreateCall (n + 1) (CalleeFunction INIT_METADATA_FN)
        [VGlobal n; VConstInt 32 (wrap32 (Z.of_nat (List.length metadata)))];
      CreateRetVoid (n + 2)]] [] InternalLinkage false.

(** The module when phase 5 starts. *)
Definition beforePhase5 (M1 : Module) (n : nat) (metadata : list FunctionMetadata) : Module :=
  appendToGlobalDtors DUMP_STATS_FN 0
    (appendToGlobalCtors "__unsafe_module_init" 0
       (addFunction (InitFunc n metadata)
          (addGlobal (metadataTable n metadata)
             (markRuntimeHelper DUMP_STATS_FN
                (markRuntimeHelper RECORD_FUNCTION_FN
                   (markRuntimeHelper INIT_METADATA_FN
                      (getOrInsertFunction DUMP_STATS_FN
                         (getOrInsertFunction RECORD_FUNCTION_FN
                            (getOrInsertFunction INIT_METADATA_FN M1))))))))).

End UnsafeFunctionTrackerInv.

(* ================================================================== *)
(** * CycleCounter block by block *)
(* ================================================================== *)

Module CpuCycleCountInv.
Import IR Props CpuCycleCount.

Definition blockPairs (BB : BasicBlock) : list (nat * nat) := fst (collectBlock ([], []) BB).

Definition blockMarkers (BB : BasicBlock) : list nat := snd (collectBlock ([], []) BB).

Definition SentinelOf (BB : BasicBlock) (a : nat) : Prop :=
  exists Mk, In Mk BB /\ addr Mk = a /\ isMarker Mk = true.

Definition pairStepB (st : BasicBlock * nat) (pair : nat * nat) : BasicBlock * nat :=
  (insertBefore (snd pair) [fenceAt (snd st + 2); endCallAt (snd st + 3) (snd st + 1)]
     (insertBefore (fst pair) [fenceAt (snd st); startCallAt (snd st + 1)] (fst st)),
   snd st + 4).

Definition eraseAllB (R : list nat) (BB : BasicBlock) : BasicBlock :=
  fold_left (fun B a => eraseFromParent a B) R BB.

Definition foreignPair (BB : BasicBlock) (p : nat * nat) : Prop :=
  ~ In (fst p) (addrs BB) /\ ~ In (snd p) (addrs BB).

Definition Unused (a : nat) (bbs : list (list Instruction)) : Prop :=
  forall B i, In B bbs -> In i B -> uses a i = false.

(** The instructions the second pass creates from address [n] on. *)
Definition Inserted (n : nat) (i : Instruction) : Prop :=
  exists k, n <= k /\
    (i = fenceAt k \/ i = startCallAt k \/ exists s, n <= s /\ i = endCallAt k s).

Definition pairAddrs (p : nat * nat) : list nat := [fst p; snd p].

End CpuCycleCountInv.

(* ================================================================== *)
(** * Vocabulary for the remaining passes *)
(* ================================================================== *)

Module PassProps.
Import IR Props.

(** ** MarkerPlanter *)

(** The blocks of a function that hold an instruction carrying [unsafe_inst]. *)
Definition taggedBlocks (F : Function) : nat :=
  List.length (filter (existsb hasUnsafeInst) (blocks F)).

Definition instructionCount (F : Function) : nat := List.length (List.concat (blocks F)).

(** The instructions a block gains when its flag is set. *)
Definition grown (m : bool) : nat := if m then 2 else 0.

(** ** FunctionTracker *)

(** The records FunctionTracker pushes for a list of eligible functions,
    the first of which gets the id [k]. *)
Fixpoint tableRows (fs : list Function) (k : Z) : list UnsafeFunctionTracker.FunctionMetadata :=
  match fs with
  | [] => []
  | F :: rest =>
      UnsafeFunctionTracker.mkFunctionMetadata k
        (if UnsafeFunctionTracker.analyzeFunction F then 1 else 0) 0 0
      :: tableRows rest (UnsafeFunctionTracker.wrap32 (k + 1))
  end.

(** The positions of the eligible functions of a list that starts at
    position [idx] of the module. *)
Fixpoint eligiblePositions (fs : list Function) (idx : nat) : list nat :=
  match fs with
  | [] => []
  | F :: rest =>
      if eligible F then idx :: eligiblePositions rest (S idx)
      else eligiblePositions rest (S idx)
  end.

Definition recordFunctionCallAt (a : nat) (c : Value) : Instruction :=
  CreateCall a (CalleeFunction UnsafeFunctionTracker.RECORD_FUNCTION_FN) [c].

(** A function after phase 5 put the call created at address [a] in front
    of its entry block. *)
Definition entered (a : nat) (F : Function) : Function :=
  match blocks F, UnsafeFunctionTracker.idConstant F with
  | (Front :: rest) :: others, Some c =>
      setBlocks ((recordFunctionCallAt a c :: Front :: rest) :: others) F
  | _, _ => F
  end.

(** Phase 5 over a function list, allocating from [n] on. *)
Fixpoint enterAll (fs : list Function) (n : nat) : list Function * nat :=
  match fs with
  | [] => ([], n)
  | F :: rest =>
      if eligible F then (entered n F :: fst (enterAll rest (n + 1)), snd (enterAll rest (n + 1)))
      else (F :: fst (enterAll rest n), snd (enterAll rest n))
  end.

(** ** CycleCounter *)

(** Whether a sequence of sentinels holds an end that closes a begin, given
    whether a begin is pending where it starts. *)
Fixpoint closesPair (pending : bool) (ks : list MarkerKind) : bool :=
  match ks with
  | [] => false
  | MarkerBegin :: rest => closesPair true rest
  | MarkerEnd :: rest => pending || closesPair pending rest
  end.

Definition unpaired (BB : BasicBlock) : Prop := closesPair false (markerKinds BB) = false.

(** ** ExternalCallTracker *)

(** The instructions that were there before the pass started allocating at
    address [n]. *)
Definition olderThan (n : nat) (Inst : Instruction) : bool := Nat.ltb (addr Inst) n.

Definition extStartAt (a : nat) : Instruction :=
  CreateCall a (CalleeFunction ExternalCallTracker.EXTERNAL_CALL_START_FN) [].

Definition extEndAt (a s : nat) : Instruction :=
  CreateCall a (CalleeFunction ExternalCallTracker.EXTERNAL_CALL_END_FN) [VInst s].

(** The instructions ExternalCallTracker creates. *)
Definition TimerInst (Inst : Instruction) : Prop :=
  exists a, Inst = CreateFence a SequentiallyConsistent \/ Inst = extStartAt a \/
            exists s, Inst = extEndAt a s.

Definition keptOrTimer (n : nat) (bbs : list BasicBlock) : Prop :=
  Forall (Forall (fun i => olderThan n i = true \/ TimerInst i)) bbs.

(** No external call of the function's body is one the second pass wraps:
    each collected call is a terminator. *)
Definition nothingToWrap (M : Module) (F : Function) : Prop :=
  Forall (fun Inst => isTerminator Inst = true)
         (ExternalCallTracker.collectCalls M (blocks F)).

(** ** HeapTracker *)

Definition isMemInst (Inst : Instruction) : bool :=
  HeapTracker.isLoad Inst || HeapTracker.isStore Inst.

Definition memCallAt (a : nat) (Inst : Instruction) : Instruction :=
  CreateCall a (CalleeFunction HeapTracker.DYN_MEM_ACCESS_FN)
    [HeapTracker.getPointerOperand Inst].

Definition unsafeMemCallAt (a : nat) (Inst : Instruction) : Instruction :=
  CreateCall a (CalleeFunction HeapTracker.DYN_UNSAFE_MEM_ACCESS_FN)
    [HeapTracker.getPointerOperand Inst;
     VConstInt 1 (if HeapTracker.isLoad Inst then 1 else 0)].

(** [ActiveMarkerBegin] after an instruction. *)
Definition activeAfter (act : option nat) (x : Instruction) : option nat :=
  match inlineAsmOfCallInst x with
  | Some AsmStr =>
      if String.eqb AsmStr UNSAFE_MARKER_BEGIN then Some (addr x)
      else if String.eqb AsmStr UNSAFE_MARKER_END then
             match act with Some _ => None | None => None end
           else act
  | None => act
  end.

(** The region state after an instruction, as HeapTracker reads the
    sentinels: only a plain call of the inline assembly counts. *)
Definition regionAfter (active : bool) (Inst : Instruction) : bool :=
  match inlineAsmOfCallInst Inst with
  | Some AsmStr =>
      if String.eqb AsmStr UNSAFE_MARKER_BEGIN then true
      else if String.eqb AsmStr UNSAFE_MARKER_END then false
      else active
  | None => active
  end.

(** A block after the first pass of HeapTracker, read as a walk. *)
Fixpoint memWalk (BB : BasicBlock) (n : nat) : BasicBlock * nat :=
  match BB with
  | [] => ([], n)
  | Inst :: rest =>
      if isMemInst Inst then
        match memWalk rest (n + 1) with
        | (rest', n') => (memCallAt n Inst :: Inst :: rest', n')
        end
      else
        match memWalk rest n with
        | (rest', n') => (Inst :: rest', n')
        end
  end.

Fixpoint memWalkBlocks (bbs : list BasicBlock) (n : nat) : list BasicBlock * nat :=
  match bbs with
  | [] => ([], n)
  | BB :: rest =>
      match memWalk BB n with
      | (BB', n1) =>
          match memWalkBlocks rest n1 with
          | (rest', n') => (BB' :: rest', n')
          end
      end
  end.

(** A block after HeapTracker, read in one walk: every load or store is
    preceded by the [dyn_mem_access] call and, inside a region, by the
    [dyn_unsafe_mem_access] call between that call and the access.  [n] is
    the next address of the first kind of call, [k] of the second. *)
Fixpoint heapWalk (BB : BasicBlock) (active : bool) (n k : nat) : BasicBlock * nat * nat :=
  match BB with
  | [] => ([], n, k)
  | Inst :: rest =>
      if isMemInst Inst then
        match heapWalk rest active (n + 1) (if active then k + 1 else k) with
        | (rest', n', k') =>
            (memCallAt n Inst
               :: (if active then [unsafeMemCallAt k Inst] else []) ++ Inst :: rest',
             n', k')
        end
      else
        match heapWalk rest (regionAfter active Inst) n k with
        | (rest', n', k') => (Inst :: rest', n', k')
        end
  end.

(** The same over the blocks of a function; the region state starts out
    closed in every block. *)
Fixpoint heapWalkBlocks (bbs : list BasicBlock) (n k : nat) : list BasicBlock * nat * nat :=
  match bbs with
  | [] => ([], n, k)
  | BB :: rest =>
      match heapWalk BB false n k with
      | (BB', n1, k1) =>
          match heapWalkBlocks rest n1 k1 with
          | (rest', n', k') => (BB' :: rest', n', k')
          end
      end
  end.

Definition memInstCount (bbs : list BasicBlock) : nat :=
  List.length (filter isMemInst (List.concat bbs)).

(** ** DebugInfoAnchor *)

(** Distinct instruction objects of a block have distinct addresses, in every
    block of every function of the module. *)
Definition uniqueInBlocks (M : Module) : Prop :=
  Forall (fun F => Forall (fun BB => NoDup (addrs BB)) (blocks F)) (functions M).

(** The instructions of a module, in iteration order. *)
Definition instructionsOf (M : Module) : list Instruction :=
  flat_map (fun F => List.concat (blocks F)) (functions M).

(** The locations of the instructions of a list that pass
    [isValidDebugLocation], one per instruction. *)
Definition validLocations (l : list Instruction) : list DILocation :=
  flat_map (fun Inst =>
              match debugLoc Inst with
              | Some Loc =>
                  if DebugInfoPreserver.isValidDebugLocation (Some Loc) then [Loc] else []
              | None => []
              end) l.

Definition locationNode (Loc : DILocation) : Metadata := MDTuple [MDLoc Loc].

(** The anchor global with the attachment for a list of nodes: none when the
    list is empty. *)
Definition anchorGlobal (a : nat) (refs : list Metadata) : GlobalVariable :=
  mkGlobalVariable a "__unsafe_coverage_anchor" false InternalLinkage (InitInt 8 0) None
    (match refs with
     | [] => []
     | _ :: _ => [("preserved.debuginfo", refs)]
     end).

(** ** DynamicLineCount *)

(** The key the pass builds for a line of a file. *)
Definition lineKeyOf (p : Z * string) : string :=
  String.append (snd p) (String.append ":" (DynamicLineCount.to_string (fst p))).

(** The (line, file) pairs of the instructions of a block that receive a
    tracking call, in block order, given whether a region is open where the
    walk starts. *)
Fixpoint trackedBlock (inside : bool) (BB : BasicBlock) : list (Z * string) :=
  match BB with
  | [] => []
  | Inst :: rest =>
      match DynamicLineCount.isMarkerInstruction Inst with
      | Some isBegin => trackedBlock isBegin rest
      | None =>
          match (if inside && hasUnsafeInst Inst then DynamicLineCount.lineInfo Inst
                 else None) with
          | Some p => p :: trackedBlock inside rest
          | None => trackedBlock inside rest
          end
      end
  end.

Definition trackedFunctions (fs : list Function) : list (Z * string) :=
  flat_map (fun F => if DynamicLineCount.shouldInstrumentFunction F
                     then flat_map (trackedBlock false) (blocks F) else [])
           fs.

Fixpoint noColon (s : string) : bool :=
  match s with
  | EmptyString => true
  | String c rest => negb (Ascii.eqb c ":") && noColon rest
  end.

(** The set after the keys of a list of pairs were inserted. *)
Definition insertKeys (ps : list (Z * string)) (s : list string) : list string :=
  fold_left (fun acc p => DynamicLineCount.setInsert (lineKeyOf p) acc) ps s.

(** The state of phase 1 after the pairs [ps] were tracked and the string
    globals [gs] created. *)
Definition after (ps : list (Z * string)) (gs : list GlobalVariable)
    (c : DynamicLineCount.Collect) : DynamicLineCount.Collect :=
  DynamicLineCount.mkCollect
    (insertKeys ps (DynamicLineCount.allUnsafeLines c))
    (DynamicLineCount.strings c ++ gs)
    (DynamicLineCount.modified c || negb (Nat.eqb (List.length ps) 0))
    (DynamicLineCount.fresh c + 2 * List.length ps).

Definition registerCallAt (a : nat) (p : Z * string) : Instruction :=
  CreateCall (a + 1) (CalleeFunction DynamicLineCount.REGISTER_UNSAFE_LINE_FN)
    [VConstInt 64 (fst p); VGlobal a].

(** The calls and string globals the constructor gets for a list of pairs. *)
Fixpoint registered (ps : list (Z * string)) (n : nat)
  : list Instruction * list GlobalVariable :=
  match ps with
  | [] => ([], [])
  | p :: rest =>
      (registerCallAt n p :: fst (registered rest (n + 2)),
       DynamicLineCount.createGlobalString n (snd p) :: snd (registered rest (n + 2)))
  end.

(** A line that fits [unsigned] and a file name without a colon. *)
Definition goodPair (p : Z * string) : Prop :=
  (0 <= fst p < 4294967296)%Z /\ noColon (snd p) = true.

(** A character with which no number starts for [std::stoul]: no digit, no
    blank, no sign. *)
Definition opensNoNumber (c : ascii) : Prop :=
  DynamicLineCount.digitValue c = None /\
  ~ In c [" "; "009"; "010"; "011"; "012"; "013"; "+"; "-"]%char.

(** The order of [std::set<std::string>]. *)
Definition ltS (a b : string) : Prop := String.compare a b = Lt.

(** The digits of a decimal numeral and their value. *)
Fixpoint uintDigits (d : Decimal.uint) : list Z :=
  match d with
  | Decimal.Nil => []
  | Decimal.D0 d => 0%Z :: uintDigits d
  | Decimal.D1 d => 1%Z :: uintDigits d
  | Decimal.D2 d => 2%Z :: uintDigits d
  | Decimal.D3 d => 3%Z :: uintDigits d
  | Decimal.D4 d => 4%Z :: uintDigits d
  | Decimal.D5 d => 5%Z :: uintDigits d
  | Decimal.D6 d => 6%Z :: uintDigits d
  | Decimal.D7 d => 7%Z :: uintDigits d
  | Decimal.D8 d => 8%Z :: uintDigits d
  | Decimal.D9 d => 9%Z :: uintDigits d
  end.

Definition horner (ds : list Z) (acc : Z) : Z :=
  fold_left (fun a d => (10 * a + d)%Z) ds acc.

End PassProps.

(* ================================================================== *)
(** * More sample programs *)
(* ================================================================== *)

Module PassSamples.
Import IR Samples.

(** A load and a store with their operands. *)
Definition loadFrom (a : nat) (p : Value) : Instruction :=
  mkInstruction a Load None [p] NotAtomic [] None.

Definition storeTo (a : nat) (v p : Value) : Instruction :=
  mkInstruction a Store None [v; p] NotAtomic [] None.

Definition callTo (a : nat) (name : string) : Instruction := CreateCall a (CalleeFunction name) [].

Definition invokeOf (a : nat) (name : string) : Instruction :=
  mkInstruction a Invoke (Some (CalleeFunction name)) [] NotAtomic [] None.

(** An instruction at line [line], column 5 of [file]. *)
Definition located (line : Z) (file : string) (i : Instruction) : Instruction :=
  mkInstruction (addr i) (opcode i) (calledOperand i) (operands i) (ordering i) (metadata i)
    (Some (mkDILocation line 5 true (Some file))).

(** An instruction carrying the line information MarkerPlanter writes. *)
Definition lined (line : Z) (file : string) (i : Instruction) : Instruction :=
  setMetadata "unsafe_line_info" [MDConstInt 32 line; MDStr file] i.

(** [phi; phi; add; ret] *)
Definition blockTwoPhis : BasicBlock := [inst 0 PHI; inst 1 PHI; inst 2 Add; inst 3 Ret].

(** Two instructions at the same source location. *)
Definition moduleLocated : Module :=
  moduleOf [fn "a" [[located 3 "a.rs" (inst 0 Load); located 3 "a.rs" (inst 1 Add);
                     inst 2 Ret]]].

(** [alloca; call @puts; llvm.dbg.value; ret] in a module that declares [puts]. *)
Definition blockCallsPuts : BasicBlock :=
  [inst 0 Alloca; callTo 1 "puts"; callTo 2 "llvm.dbg.value"; inst 3 Ret].

Definition fnCallsPuts : Function := fn "m" [blockCallsPuts].

Definition modulePuts : Module :=
  moduleOf [declaration "puts"; declaration "llvm.dbg.value"; fnCallsPuts].

(** The only external call is the invoke that ends the block. *)
Definition moduleInvokes : Module :=
  moduleOf [declaration "puts"; fn "m" [[inst 0 Alloca; invokeOf 1 "puts"]]].

(** [load p; begin; store v, q; end; ret] *)
Definition fnHeap : Function :=
  fn "h" [[loadFrom 0 (VArg 0); Props.beginAt 1; storeTo 2 (VInst 0) (VArg 1);
           Props.endAt 3; inst 4 Ret]].

Definition moduleNoRegion : Module := moduleOf [fn "a" [blockNoRegion]].

(** A tagged store at line 42 inside a region. *)
Definition moduleCovered : Module :=
  moduleOf [fn "c" [[Props.beginAt 0; lined 42 "src/main.rs" (tagged (inst 1 Store));
                     Props.endAt 2; inst 3 Ret]]].

(** The same with a drive letter in the file name. *)
Definition moduleDrive : Module :=
  moduleOf [fn "c" [[Props.beginAt 0; lined 42 "C:/src/main.rs" (tagged (inst 1 Store));
                     Props.endAt 2; inst 3 Ret]]].

(** A tagged store with a debug location. *)
Definition taggedLocated : Instruction := located 42 "src/lib.rs" (tagged (inst 1 Store)).

(** A declaration and a runtime helper: nothing the tracker is to number. *)
Definition moduleHelpersOnly : Module :=
  moduleOf [fn "memcpy" []; fn "__unsafe_helper" [blockNoRegion]].

End PassSamples.

(* ================================================================== *)
(** * Proofs *)
(* ================================================================== *)

Module ListFacts.
Import IR Props.

Lemma back_app_last : forall (A : Type) (l : list A) (x : A), back (l ++ [x]) = Some x.
Proof.
  induction l as [|y l IH]; intros x; [reflexivity|].
  simpl. destruct (l ++ [x]) eqn:E.
  - destruct l; discriminate.
  - rewrite <- E. apply IH.
Qed.

Lemma insertBefore_skip : forall a news l1 l2,
  ~ In a (addrs l1) -> insertBefore a news (l1 ++ l2) = l1 ++ insertBefore a news l2.
Proof.
  induction l1 as [|x l1 IH]; intros l2 Hn; [reflexivity|].
  simpl in *. destruct (Nat.eqb_spec (addr x) a) as [E|E].
  - exfalso. apply Hn. now left.
  - f_equal. apply IH. intros H. apply Hn. now right.
Qed.

Lemma insertBefore_here : forall a news x l,
  addr x = a -> insertBefore a news (x :: l) = news ++ x :: l.
Proof. intros a news x l E. simpl. rewrite E, Nat.eqb_refl. reflexivity. Qed.

Lemma insertBefore_at : forall a news l1 x l2,
  ~ In a (addrs l1) -> addr x = a ->
  insertBefore a news (l1 ++ x :: l2) = l1 ++ news ++ x :: l2.
Proof.
  intros. rewrite insertBefore_skip by assumption. now rewrite insertBefore_here.
Qed.

Lemma insertBefore_absent : forall a news l,
  ~ In a (addrs l) -> insertBefore a news l = l.
Proof.
  intros a news l H. rewrite <- (app_nil_r l) at 1.
  rewrite insertBefore_skip by assumption. simpl. apply app_nil_r.
Qed.

Lemma eraseFromParent_skip : forall a l1 l2,
  ~ In a (addrs l1) -> eraseFromParent a (l1 ++ l2) = l1 ++ eraseFromParent a l2.
Proof.
  induction l1 as [|x l1 IH]; intros l2 Hn; [reflexivity|].
  simpl in *. destruct (Nat.eqb_spec (addr x) a) as [E|E].
  - exfalso. apply Hn. now left.
  - f_equal. apply IH. intros H. apply Hn. now right.
Qed.

Lemma eraseFromParent_absent : forall a l,
  ~ In a (addrs l) -> eraseFromParent a l = l.
Proof.
  intros a l H. rewrite <- (app_nil_r l) at 1.
  rewrite eraseFromParent_skip by assumption. simpl. apply app_nil_r.
Qed.

Lemma getNextNode_at : forall a l1 x l2,
  ~ In a (addrs l1) -> addr x = a -> getNextNode a (l1 ++ x :: l2) = hd_error l2.
Proof.
  induction l1 as [|y l1 IH]; intros x l2 Hn E; simpl in *.
  - now rewrite E, Nat.eqb_refl.
  - destruct (Nat.eqb_spec (addr y) a) as [E'|E'].
    + exfalso. apply Hn. now left.
    + apply IH; [|assumption]. intros H. apply Hn. now right.
Qed.

Lemma addrs_app : forall l1 l2, addrs (l1 ++ l2) = addrs l1 ++ addrs l2.
Proof. intros. apply map_app. Qed.

Lemma NoDup_app_l : forall (A : Type) (l1 l2 : list A), NoDup (l1 ++ l2) -> NoDup l1.
Proof.
  induction l1 as [|x l1 IH]; intros l2 H; [constructor|].
  simpl in H. inversion H; subst. constructor.
  - intros Hin. apply H2. apply in_or_app. now left.
  - eapply IH; eauto.
Qed.

Lemma NoDup_app_r : forall (A : Type) (l1 l2 : list A), NoDup (l1 ++ l2) -> NoDup l2.
Proof.
  induction l1 as [|x l1 IH]; intros l2 H; [assumption|].
  simpl in H. inversion H; subst. now apply IH.
Qed.

Lemma NoDup_app_disjoint : forall (A : Type) (l1 l2 : list A) (x : A),
  NoDup (l1 ++ l2) -> In x l1 -> In x l2 -> False.
Proof.
  induction l1 as [|y l1 IH]; intros l2 x H H1 H2; [contradiction|].
  simpl in H. inversion H; subst. destruct H1 as [->|H1].
  - apply H4. apply in_or_app. now right.
  - eapply IH; eauto.
Qed.

Lemma addr_not_in_prefix : forall l1 x l2,
  NoDup (addrs (l1 ++ x :: l2)) -> ~ In (addr x) (addrs l1).
Proof.
  intros l1 x l2 Hnd Hin. rewrite addrs_app in Hnd.
  eapply NoDup_app_disjoint; [exact Hnd | exact Hin | simpl; now left].
Qed.

Lemma fresh_not_in : forall n l, belowFresh n l -> ~ In n (addrs l).
Proof.
  intros n l H Hin. unfold addrs in Hin. apply in_map_iff in Hin.
  destruct Hin as [x [E Hx]]. unfold belowFresh in H. rewrite Forall_forall in H.
  specialize (H x Hx). lia.
Qed.

Lemma belowFresh_in : forall n l x, belowFresh n l -> In x l -> addr x < n.
Proof. intros n l x H Hx. unfold belowFresh in H. rewrite Forall_forall in H. auto. Qed.

Lemma belowFresh_mono : forall n m BB, n <= m -> belowFresh n BB -> belowFresh m BB.
Proof.
  intros n m BB Hle H. unfold belowFresh in *. eapply Forall_impl; [|exact H].
  simpl. intros. lia.
Qed.

Lemma NoDup_concat_each : forall (BBs : list BasicBlock),
  NoDup (addrs (List.concat BBs)) -> Forall (fun BB => NoDup (addrs BB)) BBs.
Proof.
  induction BBs as [|BB BBs IH]; intros H; [constructor|].
  simpl in H. rewrite addrs_app in H. constructor.
  - eapply NoDup_app_l; eauto.
  - apply IH. eapply NoDup_app_r; eauto.
Qed.

Lemma Forall2_Forall_r : forall (A B : Type) (R : A -> B -> Prop) (P : A -> Prop)
    (Q : B -> Prop) (l : list A) (l' : list B),
  (forall a b, R a b -> P a -> Q b) -> Forall2 R l l' -> Forall P l -> Forall Q l'.
Proof.
  intros A B R P Q l l' H H2. induction H2; intros HP; constructor; inversion HP; subst; eauto.
Qed.

Lemma back_map : forall (A B : Type) (f : A -> B) (l : list A),
  back (map f l) = option_map f (back l).
Proof.
  induction l as [|x l IH]; [reflexivity|].
  simpl. destruct l as [|y l]; [reflexivity|]. simpl in *. exact IH.
Qed.

Lemma back_Some_split : forall (A : Type) (l : list A) (x : A),
  back l = Some x -> exists body, l = body ++ [x].
Proof.
  induction l as [|y l IH]; intros x H; [discriminate|].
  destruct l as [|z l].
  - inversion H; subst. now exists [].
  - destruct (IH x H) as [body Hb]. exists (y :: body). simpl. now rewrite <- Hb.
Qed.

Lemma Forall2_nth_error_l : forall (A B : Type) (R : A -> B -> Prop) l l' i a,
  Forall2 R l l' -> nth_error l i = Some a ->
  exists b, nth_error l' i = Some b /\ R a b.
Proof.
  intros A B R l l' i a H. revert i. induction H as [|x y l l' Hxy H IH]; intros i Hi.
  - destruct i; discriminate.
  - destruct i as [|i]; simpl in *.
    + inversion Hi; subst. now exists y.
    + now apply IH.
Qed.

Lemma Forall2_trans : forall (A B C : Type) (R : A -> B -> Prop) (S : B -> C -> Prop)
    (T : A -> C -> Prop) l1 l2 l3,
  (forall a b c, R a b -> S b c -> T a c) ->
  Forall2 R l1 l2 -> Forall2 S l2 l3 -> Forall2 T l1 l3.
Proof.
  intros A B C R S T l1 l2 l3 HT H12. revert l3.
  induction H12 as [|a b l1 l2 Hab H12 IH]; intros l3 H23; inversion H23; subst.
  - constructor.
  - constructor; eauto.
Qed.

Lemma Forall2_map_r : forall (A B : Type) (R : A -> B -> Prop) (f : A -> B) l,
  (forall a, R a (f a)) -> Forall2 R l (map f l).
Proof. intros A B R f l H. induction l; simpl; constructor; auto. Qed.

Lemma eraseFromParent_at : forall a l1 x l2,
  ~ In a (addrs l1) -> addr x = a -> eraseFromParent a (l1 ++ x :: l2) = l1 ++ l2.
Proof.
  intros a l1 x l2 Hn E. rewrite eraseFromParent_skip by assumption.
  simpl. now rewrite E, Nat.eqb_refl.
Qed.

Lemma In_addrs : forall (x : Instruction) l, In x l -> In (addr x) (addrs l).
Proof. intros. unfold addrs. now apply in_map. Qed.

End ListFacts.

Module InstMarkerProofs.
Import IR Props InstMarker ListFacts.

Lemma scan_unsafeFree : forall l st, unsafeFree l -> fold_left scanStep l st = st.
Proof.
  induction l as [|x l IH]; intros st H; [reflexivity|].
  inversion H; subst. simpl. unfold scanStep at 2. rewrite H2. now apply IH.
Qed.

Lemma scan_first_fixed : forall l f y,
  exists y', fold_left scanStep l (Some f, y) = (Some f, y').
Proof.
  induction l as [|x l IH]; intros f y; simpl.
  - now exists y.
  - unfold scanStep at 2. destruct (hasUnsafeInst x); simpl; apply IH.
Qed.

Lemma scan_segment : forall mid Last y,
  startsUnsafe mid -> hasUnsafeInst Last = true ->
  fold_left scanStep (mid ++ [Last]) (None, y) = (Some (hd Last mid), Some Last).
Proof.
  intros mid Last y Hs HL. rewrite fold_left_app. simpl.
  destruct mid as [|f mid]; simpl in *.
  - unfold scanStep. now rewrite HL.
  - unfold scanStep at 3. rewrite Hs. simpl.
    destruct (scan_first_fixed mid f (Some f)) as [y' ->].
    unfold scanStep. now rewrite HL.
Qed.

Lemma scanUnsafe_shape : forall pre mid Last post,
  unsafeFree pre -> startsUnsafe mid -> hasUnsafeInst Last = true -> unsafeFree post ->
  scanUnsafe (pre ++ mid ++ Last :: post) = (Some (hd Last mid), Some Last).
Proof.
  intros pre mid Last post Hpre Hs HL Hpost. unfold scanUnsafe.
  rewrite fold_left_app, (scan_unsafeFree pre) by assumption.
  change (Last :: post) with ([Last] ++ post).
  rewrite app_assoc, fold_left_app, scan_segment by assumption.
  now apply scan_unsafeFree.
Qed.

Lemma scanUnsafe_none : forall BB, unsafeFree BB -> scanUnsafe BB = (None, None).
Proof. intros. now apply scan_unsafeFree. Qed.

Lemma markBlock_unsafeFree : forall BB n,
  unsafeFree BB -> markBlock BB n = Some (BB, false, n).
Proof. intros BB n H. unfold markBlock. now rewrite scanUnsafe_none. Qed.

(** The begin marker lands in front of the first tagged instruction. *)
Lemma plant_begin : forall pre mid Last post n,
  NoDup (addrs (pre ++ mid ++ Last :: post)) ->
  insertBefore (addr (hd Last mid)) [beginAt n] (pre ++ mid ++ Last :: post)
  = pre ++ beginAt n :: mid ++ Last :: post.
Proof.
  intros pre mid Last post n Hnd.
  assert (Hpre : ~ In (addr (hd Last mid)) (addrs pre)).
  { intros Hin. rewrite addrs_app in Hnd.
    eapply NoDup_app_disjoint; [exact Hnd | exact Hin |].
    destruct mid; simpl; now left. }
  rewrite insertBefore_skip by assumption.
  destruct mid as [|f mid]; simpl; now rewrite Nat.eqb_refl.
Qed.

Ltac in_addrs :=
  unfold addrs in *; repeat rewrite map_app in *; simpl in *;
  repeat rewrite in_app_iff in *; simpl in *.

(** An old instruction is not found among the instructions before it, also
    after the freshly allocated begin marker has been linked in among them. *)
Lemma not_in_marked_prefix : forall pre mid x rest n,
  NoDup (addrs ((pre ++ mid) ++ x :: rest)) ->
  addr x < n ->
  ~ In (addr x) (addrs (pre ++ beginAt n :: mid)).
Proof.
  intros pre mid x rest n Hnd Hlt Hin.
  pose proof (addr_not_in_prefix _ _ _ Hnd) as Hn.
  in_addrs. intuition lia.
Qed.

Lemma markBlock_after : forall pre mid Last post n,
  unsafeFree pre -> startsUnsafe mid -> hasUnsafeInst Last = true -> unsafeFree post ->
  NoDup (addrs (pre ++ mid ++ Last :: post)) ->
  belowFresh n (pre ++ mid ++ Last :: post) ->
  post <> [] ->
  markBlock (pre ++ mid ++ Last :: post) n
  = Some (pre ++ beginAt n :: mid ++ Last :: endAt (n + 1) :: post, true, n + 2).
Proof.
  intros pre mid Last post n Hpre Hs HL Hpost Hnd Hfr Hne.
  unfold markBlock. rewrite scanUnsafe_shape by assumption.
  cbv zeta. fold (beginAt n). fold (endAt (n + 1)).
  rewrite plant_begin by assumption.
  destruct post as [|Next post]; [contradiction|].
  assert (HltL : addr Last < n).
  { eapply belowFresh_in; [exact Hfr|]. rewrite !in_app_iff. right. right. now left. }
  assert (HltN : addr Next < n).
  { eapply belowFresh_in; [exact Hfr|]. rewrite !in_app_iff. right. right. right. now left. }
  replace (pre ++ beginAt n :: mid ++ Last :: Next :: post)
    with ((pre ++ beginAt n :: mid) ++ Last :: Next :: post)
    by (rewrite <- app_assoc; reflexivity).
  rewrite getNextNode_at; [| | reflexivity].
  2:{ apply not_in_marked_prefix with (rest := Next :: post); [|assumption].
      now rewrite <- app_assoc. }
  simpl hd_error. cbv iota.
  replace ((pre ++ beginAt n :: mid) ++ Last :: Next :: post)
    with ((pre ++ beginAt n :: mid ++ [Last]) ++ Next :: post)
    by (rewrite <- !app_assoc; simpl; rewrite <- app_assoc; reflexivity).
  rewrite insertBefore_at; [| | reflexivity].
  2:{ apply not_in_marked_prefix with (rest := post); [|assumption].
      rewrite <- !app_assoc. exact Hnd. }
  simpl. rewrite <- !app_assoc. simpl. rewrite <- app_assoc. reflexivity.
Qed.

Lemma markBlock_before_terminator : forall pre mid Last n,
  unsafeFree pre -> startsUnsafe mid -> hasUnsafeInst Last = true ->
  isTerminator Last = true ->
  NoDup (addrs (pre ++ mid ++ [Last])) ->
  belowFresh n (pre ++ mid ++ [Last]) ->
  markBlock (pre ++ mid ++ [Last]) n
  = Some (pre ++ beginAt n :: mid ++ [endAt (n + 1); Last], true, n + 2).
Proof.
  intros pre mid Last n Hpre Hs HL HT Hnd Hfr.
  unfold markBlock. rewrite scanUnsafe_shape by (assumption || constructor).
  cbv zeta. fold (beginAt n). fold (endAt (n + 1)).
  rewrite plant_begin by assumption.
  assert (HltL : addr Last < n).
  { eapply belowFresh_in; [exact Hfr|]. rewrite !in_app_iff. right. right. now left. }
  replace (pre ++ beginAt n :: mid ++ [Last])
    with ((pre ++ beginAt n :: mid) ++ [Last])
    by (rewrite <- app_assoc; reflexivity).
  assert (Hn : ~ In (addr Last) (addrs (pre ++ beginAt n :: mid))).
  { apply not_in_marked_prefix with (rest := []); [|assumption].
    now rewrite <- app_assoc. }
  rewrite getNextNode_at by (assumption || reflexivity). simpl hd_error. cbv iota.
  unfold getTerminator. rewrite back_app_last, HT.
  rewrite insertBefore_at by (assumption || reflexivity).
  rewrite <- app_assoc. reflexivity.
Qed.

Lemma unsafe_decompose : forall BB,
  unsafeFree BB \/
  exists pre mid Last post,
    BB = pre ++ mid ++ Last :: post /\ unsafeFree pre /\ startsUnsafe mid /\
    hasUnsafeInst Last = true /\ unsafeFree post.
Proof.
  induction BB as [|x BB IH].
  - left. constructor.
  - destruct (hasUnsafeInst x) eqn:Hx.
    + right. destruct IH as [Hfree | (pre & mid & Last & post & -> & Hpre & Hs & HL & Hpost)].
      * exists [], [], x, BB. repeat split; try assumption; constructor.
      * exists [], (x :: pre ++ mid), Last, post. simpl. rewrite <- app_assoc.
        repeat split; try assumption; constructor.
    + destruct IH as [Hfree | (pre & mid & Last & post & -> & Hpre & Hs & HL & Hpost)].
      * left. now constructor.
      * right. exists (x :: pre), mid, Last, post.
        repeat split; try assumption. now constructor.
Qed.

Lemma beginAt_sentinel : forall n, isBeginSentinel (beginAt n).
Proof. intros. split; reflexivity. Qed.

Lemma endAt_sentinel : forall n, isEndSentinel (endAt n).
Proof. intros. split; reflexivity. Qed.

Lemma terminatorCount_app : forall l1 l2,
  terminatorCount (l1 ++ l2) = terminatorCount l1 + terminatorCount l2.
Proof. intros. unfold terminatorCount. now rewrite filter_app, length_app. Qed.

(** One block: the loop body succeeds on a well-formed block and plants as
    [Planted] says. *)
Lemma markBlock_planted : forall BB n,
  NoDup (addrs BB) -> belowFresh n BB -> wellFormedBlock BB ->
  exists BB' (m : bool), markBlock BB n = Some (BB', m, if m then n + 2 else n) /\ Planted BB BB'.
Proof.
  intros BB n Hnd Hfr Hwf.
  destruct (unsafe_decompose BB)
    as [Hfree | (pre & mid & Last & post & -> & Hpre & Hs & HL & Hpost)].
  - exists BB, false. split; [now apply markBlock_unsafeFree | now constructor].
  - destruct post as [|Next post].
    + assert (HT : isTerminator Last = true).
      { destruct Hwf as [[T [Hb HT]] _]. rewrite app_assoc, back_app_last in Hb.
        now inversion Hb; subst. }
      exists (pre ++ beginAt n :: mid ++ [endAt (n + 1); Last]), true.
      split; [now apply markBlock_before_terminator|].
      apply Planted_before_terminator; auto using beginAt_sentinel, endAt_sentinel.
    + exists (pre ++ beginAt n :: mid ++ Last :: endAt (n + 1) :: Next :: post), true.
      split; [apply markBlock_after; auto; discriminate|].
      apply Planted_after; auto using beginAt_sentinel, endAt_sentinel. discriminate.
Qed.

Lemma markBlocks_planted : forall BBs Modified n,
  Forall (fun BB => NoDup (addrs BB)) BBs ->
  Forall (belowFresh n) BBs ->
  Forall wellFormedBlock BBs ->
  exists BBs' m n',
    markBlocks BBs Modified n = Some (BBs', m, n') /\ Forall2 Planted BBs BBs'.
Proof.
  induction BBs as [|BB BBs IH]; intros Modified n Hnd Hfr Hwf.
  - exists [], Modified, n. split; [reflexivity | constructor].
  - inversion Hnd as [|? ? Hnd1 Hnd2]; subst.
    inversion Hfr as [|? ? Hfr1 Hfr2]; subst.
    inversion Hwf as [|? ? Hwf1 Hwf2]; subst.
    destruct (markBlock_planted BB n) as (BB' & m & Hmb & Hpl); try assumption.
    simpl. rewrite Hmb.
    destruct (IH (Modified || m) (if m then n + 2 else n)) as (BBs' & m' & n' & -> & Hall);
      try assumption.
    { eapply Forall_impl; [|exact Hfr2]. intros b Hb.
      eapply belowFresh_mono; [|exact Hb]. destruct m; lia. }
    exists (BB' :: BBs'), m', n'. split; [reflexivity | now constructor].
Qed.








(** [captureUnsafeLineInfo] only adds the [unsafe_line_info] attachment. *)
Lemma lookupMD_storeMD_other : forall k k' n mds,
  String.eqb k' k = false -> lookupMD k (storeMD k' n mds) = lookupMD k mds.
Proof.
  intros k k' n mds Hk. induction mds as [|[k0 m] mds IH]; simpl.
  - now rewrite Hk.
  - destruct (String.eqb k0 k') eqn:E; simpl.
    + apply String.eqb_eq in E. subst k0. rewrite Hk. reflexivity.
    + rewrite IH. reflexivity.
Qed.

Lemma captureInst_addr : forall i, addr (captureInst i) = addr i.
Proof.
  intros i. unfold captureInst.
  destruct (hasUnsafeInst i); [|reflexivity].
  destruct (debugLoc i); [|reflexivity].
  destruct (_ && _); reflexivity.
Qed.

Lemma captureInst_opcode : forall i, opcode (captureInst i) = opcode i.
Proof.
  intros i. unfold captureInst.
  destruct (hasUnsafeInst i); [|reflexivity].
  destruct (debugLoc i); [|reflexivity].
  destruct (_ && _); reflexivity.
Qed.


Lemma captureInst_hasUnsafeInst : forall i, hasUnsafeInst (captureInst i) = hasUnsafeInst i.
Proof.
  intros i. unfold captureInst.
  destruct (hasUnsafeInst i) eqn:Hu; [|exact Hu].
  destruct (debugLoc i); [|exact Hu].
  destruct (_ && _); [|exact Hu].
  unfold hasUnsafeInst, getMetadata in *. simpl.
  rewrite lookupMD_storeMD_other by reflexivity. exact Hu.
Qed.

Lemma captureInst_isTerminator : forall i, isTerminator (captureInst i) = isTerminator i.
Proof. intros. unfold isTerminator. now rewrite captureInst_opcode. Qed.


Lemma capture_addrs : forall BB, addrs (map captureInst BB) = addrs BB.
Proof.
  intros. unfold addrs. rewrite map_map. apply map_ext. apply captureInst_addr.
Qed.


Lemma capture_belowFresh : forall n BB, belowFresh n BB -> belowFresh n (map captureInst BB).
Proof.
  intros n BB H. unfold belowFresh in *. rewrite Forall_map.
  eapply Forall_impl; [|exact H]. intros a Ha. simpl. now rewrite captureInst_addr.
Qed.

Lemma capture_wellFormed : forall BB, wellFormedBlock BB -> wellFormedBlock (map captureInst BB).
Proof.
  intros BB [[T [Hb HT]] Hc]. split.
  - exists (captureInst T). rewrite back_map, Hb. split; [reflexivity|].
    now rewrite captureInst_isTerminator.
  - unfold terminatorCount in *. rewrite <- Hc. clear.
    induction BB as [|x BB IH]; [reflexivity|]. simpl.
    rewrite captureInst_isTerminator. destruct (isTerminator x); simpl; now rewrite IH.
Qed.

Lemma markBlock_counter : forall BB n BB' m n',
  markBlock BB n = Some (BB', m, n') -> n <= n'.
Proof.
  intros BB n BB' m n' H. unfold markBlock in H.
  destruct (scanUnsafe BB) as [[First|] [Last|]]; try (inversion H; subst; lia).
  destruct (getNextNode _ _); [inversion H; subst; lia|].
  destruct (getTerminator _); [inversion H; subst; lia | discriminate].
Qed.

(** The loop over the blocks hands each block to the loop body once, with an
    address that is still free, and keeps a change it has seen. *)
Lemma markBlocks_nth : forall BBs Modified n BBs' m n',
  markBlocks BBs Modified n = Some (BBs', m, n') ->
  (Modified = true -> m = true) /\ n <= n' /\
  forall i BB, nth_error BBs i = Some BB ->
    exists a BB' mi a',
      n <= a /\ markBlock BB a = Some (BB', mi, a') /\
      nth_error BBs' i = Some BB' /\ (mi = true -> m = true).
Proof.
  induction BBs as [|B BBs IH]; intros Modified n BBs' m n' H.
  - inversion H; subst. split; [auto|]. split; [lia|]. intros [|i] BB Hi; discriminate.
  - cbn [markBlocks] in H.
    destruct (markBlock B n) as [[[B' mb] n1]|] eqn:Hb; [|discriminate].
    destruct (markBlocks BBs (Modified || mb) n1) as [[[rest' m1] n2]|] eqn:Hr; [|discriminate].
    inversion H; subst. clear H.
    destruct (IH _ _ _ _ _ Hr) as (Hm & Hle & Hnth).
    pose proof (markBlock_counter _ _ _ _ _ Hb) as Hle1.
    split; [intros ->; now apply Hm|]. split; [lia|].
    intros [|i] BB Hi; cbn [nth_error] in *.
    + inversion Hi; subst. exists n, B', mb, n1. split; [lia|]. split; [exact Hb|].
      split; [reflexivity|]. intros ->. apply Hm. apply orb_true_r.
    + destruct (Hnth i BB Hi) as (a & BB' & mi & a' & Ha & Hmb & Hn & Hmi).
      exists a, BB', mi, a'. split; [lia|]. auto.
Qed.

Lemma back_app_cons : forall (A : Type) (l : list A) x r, back (l ++ x :: r) = back (x :: r).
Proof.
  induction l as [|y l IH]; intros x r; [reflexivity|].
  simpl. destruct (l ++ x :: r) eqn:E.
  - destruct l; discriminate.
  - rewrite <- E. apply IH.
Qed.

Lemma back_past_end : forall (A : Type) (l1 : list A) b l2 x e q r,
  back (l1 ++ b :: l2 ++ x :: e :: q :: r) = back (q :: r).
Proof.
  intros A l1 b l2 x e q r. rewrite back_app_cons.
  change (b :: l2 ++ x :: e :: q :: r) with ((b :: l2) ++ x :: e :: q :: r).
  rewrite back_app_cons. reflexivity.
Qed.

Lemma capture_unsafeFree_map : forall l, unsafeFree l -> unsafeFree (map captureInst l).
Proof.
  intros l H. unfold unsafeFree in *. rewrite Forall_map.
  eapply Forall_impl; [|exact H]. intros x Hx. now rewrite captureInst_hasUnsafeInst.
Qed.

Lemma capture_startsUnsafe : forall l, startsUnsafe l -> startsUnsafe (map captureInst l).
Proof. intros [|x l] H; [exact I|]. cbn. now rewrite captureInst_hasUnsafeInst. Qed.

(** A terminator in the middle of a block that ends in its only terminator
    is the last instruction. *)
Lemma terminator_is_last : forall front Last post,
  wellFormedBlock (front ++ Last :: post) -> isTerminator Last = true -> post = [].
Proof.
  intros front Last post [[T [Hb HT]] Hc] HL.
  destruct post as [|p ps]; [reflexivity|]. exfalso.
  change (front ++ Last :: p :: ps) with (front ++ [Last] ++ p :: ps) in *.
  rewrite app_assoc, back_app_cons in Hb.
  apply back_Some_split in Hb. destruct Hb as [body Eb].
  rewrite Eb, !terminatorCount_app in Hc.
  unfold terminatorCount in Hc at 2 4. cbn [filter] in Hc. rewrite HL, HT in Hc.
  cbn in Hc. lia.
Qed.

(** C4: on a primary build, in a block of the function whose first and last
    instruction carrying [unsafe_inst] are known, MarkerPlanter links the
    begin sentinel in before the first; the last one is the terminator
    exactly when nothing follows it, and then the end sentinel is linked in
    immediately before it; otherwise the end sentinel is linked in
    immediately after it.  Either way the block still ends with its
    terminator, the only one it holds. *)
Theorem C4_end_sentinel_position : forall env F n i pre mid Last post,
  isPrimaryPackage env = true ->
  uniqueAddrs F -> freshFor n F -> wellFormedFunction F ->
  nth_error (blocks F) i = Some (pre ++ mid ++ Last :: post) ->
  unsafeFree pre -> startsUnsafe mid -> hasUnsafeInst Last = true -> unsafeFree post ->
  exists F' n' a BB' T,
    InstMarker.run env F n = Some (PA_none, F', n') /\
    nth_error (blocks F') i = Some BB' /\
    n <= a /\
    (isTerminator Last = true <-> post = []) /\
    BB' = match post with
          | [] =>
              map captureInst pre ++ beginAt a :: map captureInst mid
                ++ [endAt (a + 1); captureInst Last]
          | _ :: _ =>
              map captureInst pre ++ beginAt a :: map captureInst mid
                ++ captureInst Last :: endAt (a + 1) :: map captureInst post
          end /\
    getTerminator (pre ++ mid ++ Last :: post) = Some T /\
    getTerminator BB' = Some (captureInst T) /\
    terminatorCount BB' = 1.
Proof.
  intros env F n i pre mid Last post Henv Hu Hfr Hwf Hi Hpre Hs HL Hpost.
  set (BB := pre ++ mid ++ Last :: post) in *.
  assert (HwfB : wellFormedBlock BB).
  { unfold wellFormedFunction in Hwf. rewrite Forall_forall in Hwf.
    apply Hwf. eapply nth_error_In; exact Hi. }
  assert (HndB : NoDup (addrs BB)).
  { apply NoDup_concat_each in Hu. rewrite Forall_forall in Hu.
    apply Hu. eapply nth_error_In; exact Hi. }
  assert (HfrB : belowFresh n BB).
  { unfold freshFor in Hfr. rewrite Forall_forall in Hfr.
    apply Hfr. eapply nth_error_In; exact Hi. }
  unfold InstMarker.run. rewrite Henv. cbn [negb]. unfold insertUnsafeMarkers.
  destruct (markBlocks_planted (blocks (captureUnsafeLineInfo F)) false n)
    as (BBs' & m & n' & Hmb & _).
  { cbn. rewrite Forall_map. apply NoDup_concat_each in Hu.
    eapply Forall_impl; [|exact Hu]. intros b H. cbn. now rewrite capture_addrs. }
  { cbn. rewrite Forall_map. eapply Forall_impl; [|exact Hfr].
    intros b H. now apply capture_belowFresh. }
  { cbn. rewrite Forall_map. eapply Forall_impl; [|exact Hwf].
    intros b H. now apply capture_wellFormed. }
  rewrite Hmb.
  destruct (markBlocks_nth _ _ _ _ _ _ Hmb) as (_ & _ & Hnth).
  destruct (Hnth i (map captureInst BB)) as (a & BB' & mi & a' & Ha & Hblk & Hn' & Hmi).
  { cbn [captureUnsafeLineInfo blocks setBlocks]. now rewrite nth_error_map, Hi. }
  assert (Emap : map captureInst BB
                 = map captureInst pre ++ map captureInst mid
                     ++ captureInst Last :: map captureInst post).
  { unfold BB. now rewrite !map_app. }
  assert (Hpre' := capture_unsafeFree_map pre Hpre).
  assert (Hs' := capture_startsUnsafe mid Hs).
  assert (HL' : hasUnsafeInst (captureInst Last) = true)
    by now rewrite captureInst_hasUnsafeInst.
  assert (Hpost' := capture_unsafeFree_map post Hpost).
  assert (Hnd' : NoDup (addrs (map captureInst BB))) by now rewrite capture_addrs.
  assert (Hfr' : belowFresh a (map captureInst BB)).
  { apply capture_belowFresh. eapply belowFresh_mono; eassumption. }
  destruct HwfB as [[T [Hb HT]] Hc].
  assert (Hterm : isTerminator Last = true <-> post = []).
  { split.
    - intros H. apply (terminator_is_last (pre ++ mid) Last post); [|exact H].
      rewrite <- app_assoc. split; [now exists T | exact Hc].
    - intros ->. unfold BB in Hb. rewrite app_assoc, back_app_last in Hb.
      inversion Hb; subst. exact HT. }
  assert (HgT : getTerminator BB = Some T) by (unfold getTerminator; now rewrite Hb, HT).
  assert (Hcount : forall b e l1 l2 l3,
             isTerminator b = false -> isTerminator e = false ->
             map captureInst BB = l1 ++ l2 ++ l3 ->
             terminatorCount (l1 ++ b :: l2 ++ e :: l3) = 1).
  { intros b e l1 l2 l3 Hbt Het E.
    destruct (capture_wellFormed BB (conj (ex_intro _ T (conj Hb HT)) Hc)) as [_ Hc'].
    rewrite E in Hc'. rewrite <- Hc'.
    change (b :: l2 ++ e :: l3) with ([b] ++ l2 ++ [e] ++ l3).
    rewrite !terminatorCount_app. reflexivity || (unfold terminatorCount; cbn [filter];
      rewrite Hbt, Het; cbn; lia). }
  destruct post as [|p ps].
  - assert (HTL : isTerminator (captureInst Last) = true)
      by (rewrite captureInst_isTerminator; now apply Hterm).
    rewrite Emap in Hblk, Hnd', Hfr'. cbn [map] in Hblk, Hnd', Hfr'.
    rewrite markBlock_before_terminator in Hblk by assumption.
    inversion Hblk; subst BB' mi a'. rewrite (Hmi eq_refl).
    exists (setBlocks BBs' (captureUnsafeLineInfo F)), n', a. eexists. exists T.
    split; [reflexivity|]. split; [exact Hn'|]. split; [exact Ha|]. split; [exact Hterm|].
    split; [reflexivity|]. split; [exact HgT|]. split.
    + assert (T = Last).
      { unfold BB in Hb. rewrite app_assoc, back_app_last in Hb. now inversion Hb. }
      subst T. unfold getTerminator.
      replace (map captureInst pre ++ beginAt a :: map captureInst mid
                 ++ [endAt (a + 1); captureInst Last])
        with ((map captureInst pre ++ beginAt a :: map captureInst mid ++ [endAt (a + 1)])
                ++ [captureInst Last])
        by (rewrite <- !app_assoc; cbn; rewrite <- app_assoc; reflexivity).
      now rewrite back_app_last, HTL.
    + apply (Hcount (beginAt a) (endAt (a + 1)) (map captureInst pre) (map captureInst mid)
               [captureInst Last]); [reflexivity | reflexivity | exact Emap].
  - rewrite Emap in Hblk, Hnd', Hfr'.
    rewrite markBlock_after in Hblk by (try assumption; discriminate).
    inversion Hblk; subst BB' mi a'. rewrite (Hmi eq_refl).
    exists (setBlocks BBs' (captureUnsafeLineInfo F)), n', a. eexists. exists T.
    split; [reflexivity|]. split; [exact Hn'|]. split; [exact Ha|]. split; [exact Hterm|].
    split; [reflexivity|]. split; [exact HgT|]. split.
    + unfold getTerminator. cbn [map]. rewrite back_past_end.
      unfold BB in Hb.
      replace (pre ++ mid ++ Last :: p :: ps) with ((pre ++ mid ++ [Last]) ++ p :: ps) in Hb
        by (rewrite <- !app_assoc; reflexivity).
      rewrite back_app_cons in Hb.
      change (captureInst p :: map captureInst ps) with (map captureInst (p :: ps)).
      rewrite back_map, Hb. cbn [option_map]. now rewrite captureInst_isTerminator, HT.
    + replace (map captureInst mid ++ captureInst Last :: endAt (a + 1)
                 :: captureInst p :: map captureInst ps)
        with ((map captureInst mid ++ [captureInst Last])
                ++ endAt (a + 1) :: map captureInst (p :: ps))
        by (rewrite <- app_assoc; reflexivity).
      apply (Hcount (beginAt a) (endAt (a + 1)) (map captureInst pre)
               (map captureInst mid ++ [captureInst Last]) (map captureInst (p :: ps))).
      * reflexivity.
      * reflexivity.
      * rewrite Emap. now rewrite <- app_assoc.
Qed.

Lemma C4_witness :
  (exists F' n' a BB' T,
     InstMarker.run Samples.primary Samples.fnTaggedRet 10 = Some (PA_none, F', n') /\
     nth_error (blocks F') 0 = Some BB' /\
     10 <= a /\
     (isTerminator (Samples.tagged (Samples.inst 2 Ret)) = true <-> @nil Instruction = []) /\
     BB' = [Samples.inst 0 Alloca; beginAt a; Samples.tagged (Samples.inst 1 Store);
            endAt (a + 1); Samples.tagged (Samples.inst 2 Ret)] /\
     getTerminator Samples.blockTaggedRet = Some T /\
     getTerminator BB' = Some (captureInst T) /\
     terminatorCount BB' = 1) /\
  (exists F' n' a BB' T,
     InstMarker.run Samples.primary Samples.fnTwoTagged 10 = Some (PA_none, F', n') /\
     nth_error (blocks F') 0 = Some BB' /\
     10 <= a /\
     (isTerminator (Samples.tagged (Samples.inst 3 Store)) = true
      <-> [Samples.inst 4 Ret] = []) /\
     BB' = [Samples.inst 0 Alloca; beginAt a; Samples.tagged (Samples.inst 1 Load);
            Samples.inst 2 Add; Samples.tagged (Samples.inst 3 Store); endAt (a + 1);
            Samples.inst 4 Ret] /\
     getTerminator Samples.blockTwoTagged = Some T /\
     getTerminator BB' = Some (captureInst T) /\
     terminatorCount BB' = 1).
Proof.
  split.
  - apply (C4_end_sentinel_position Samples.primary Samples.fnTaggedRet 10 0
             [Samples.inst 0 Alloca] [Samples.tagged (Samples.inst 1 Store)]
             (Samples.tagged (Samples.inst 2 Ret)) []).
    + reflexivity.
    + unfold uniqueAddrs. simpl. repeat constructor; simpl; intuition discriminate.
    + repeat constructor.
    + repeat constructor. eexists; split; reflexivity.
    + reflexivity.
    + repeat constructor.
    + reflexivity.
    + reflexivity.
    + constructor.
  - apply (C4_end_sentinel_position Samples.primary Samples.fnTwoTagged 10 0
             [Samples.inst 0 Alloca] [Samples.tagged (Samples.inst 1 Load); Samples.inst 2 Add]
             (Samples.tagged (Samples.inst 3 Store)) [Samples.inst 4 Ret]).
    + reflexivity.
    + unfold uniqueAddrs. simpl. repeat constructor; simpl; intuition discriminate.
    + repeat constructor.
    + repeat constructor. eexists; split; reflexivity.
    + reflexivity.
    + repeat constructor.
    + reflexivity.
    + reflexivity.
    + repeat constructor.
Defined.




End InstMarkerProofs.

Module UnsafeInstCounterProofs.
Import IR Props UnsafeInstCounter ListFacts.

Lemma isMarkerInstruction_markerKind : forall i,
  isMarkerInstruction i =
  match markerKind i with
  | Some MarkerBegin => (true, true, false)
  | Some MarkerEnd => (true, false, true)
  | None => (false, false, false)
  end.
Proof.
  intros i. unfold isMarkerInstruction, markerKind.
  destruct (inlineAsmOfCallBase i) as [asm|]; [|reflexivity].
  destruct (String.eqb asm UNSAFE_MARKER_BEGIN); [reflexivity|].
  destruct (String.eqb asm UNSAFE_MARKER_END); reflexivity.
Qed.

Lemma getUnsafeCategory_total : forall i, getUnsafeCategory i = (true, categoryOf i).
Proof. intros i. unfold categoryOf, getUnsafeCategory. destruct (opcode i); reflexivity. Qed.

Lemma counted_dbg : forall i, isDbgInfoIntrinsic i = true -> counted i = false.
Proof. intros i H. unfold counted. now rewrite H. Qed.

Lemma counted_marker : forall i k, markerKind i = Some k -> counted i = false.
Proof.
  intros i k H. unfold counted, isMarker. rewrite H. simpl. apply andb_false_r.
Qed.

Lemma counted_plain : forall i,
  isDbgInfoIntrinsic i = false -> markerKind i = None -> counted i = true.
Proof. intros i H1 H2. unfold counted, isMarker. now rewrite H1, H2. Qed.

(** The loop of [analyzeBasicBlock], from any state. *)
Lemma analyze_fold : forall l c f,
  fst (fold_left analyzeStep l (c, f)) =
  mkBlockCounts
    (Nat.iter (List.length (countedInsts l)) inc32 (totalInsts c))
    (Nat.iter (List.length (regionInsts f l)) inc32 (totalUnsafeInsts c))
    (bumpAll (regionInsts f l) (unsafeCounts c)).
Proof.
  induction l as [|i l IH]; intros c f.
  - destruct c; reflexivity.
  - cbn [fold_left]. unfold analyzeStep at 2. unfold countedInsts in *.
    cbn [filter regionInsts].
    destruct (isDbgInfoIntrinsic i) eqn:Hd.
    + rewrite (counted_dbg i Hd). apply IH.
    + rewrite isMarkerInstruction_markerKind.
      destruct (markerKind i) as [[|]|] eqn:Hm.
      * rewrite (counted_marker i _ Hm). apply IH.
      * rewrite (counted_marker i _ Hm). apply IH.
      * rewrite (counted_plain i Hd Hm). destruct f.
        -- rewrite getUnsafeCategory_total. rewrite IH. cbn [totalInsts totalUnsafeInsts unsafeCounts].
           cbn [app List.length]. rewrite !Nat.iter_succ_r. reflexivity.
        -- rewrite IH. cbn [totalInsts totalUnsafeInsts unsafeCounts app List.length].
           rewrite !Nat.iter_succ_r. reflexivity.
Qed.

Lemma wrap32_succ : forall z, wrap32 (wrap32 z + 1) = wrap32 (z + 1).
Proof. intros. unfold wrap32. apply Zplus_mod_idemp_l. Qed.

Lemma wrap16_succ : forall z, wrap16 (wrap16 z + 1) = wrap16 (z + 1).
Proof. intros. unfold wrap16. apply Zplus_mod_idemp_l. Qed.

Lemma iter_inc32 : forall k, Nat.iter k inc32 0%Z = wrap32 (Z.of_nat k).
Proof.
  induction k as [|k IH]; [reflexivity|].
  rewrite Nat.iter_succ, IH. unfold inc32. rewrite wrap32_succ. f_equal. lia.
Qed.

Lemma iter_inc16 : forall k, Nat.iter k inc16 0%Z = wrap16 (Z.of_nat k).
Proof.
  induction k as [|k IH]; [reflexivity|].
  rewrite Nat.iter_succ, IH. unfold inc16. rewrite wrap16_succ. f_equal. lia.
Qed.

Lemma updateAt_length : forall k f l, List.length (updateAt k f l) = List.length l.
Proof.
  intros k f l. revert k. induction l as [|x l IH]; intros [|k]; simpl; auto.
Qed.

Lemma nth_updateAt : forall l k j f,
  j < List.length l ->
  nth j (updateAt k f l) 0%Z = if Nat.eqb j k then f (nth j l 0%Z) else nth j l 0%Z.
Proof.
  induction l as [|x l IH]; intros k j f Hj; [simpl in Hj; lia|].
  destruct k as [|k], j as [|j]; simpl; try reflexivity.
  apply IH. simpl in Hj. lia.
Qed.

Lemma bumpAll_length : forall l cs, List.length (bumpAll l cs) = List.length cs.
Proof.
  induction l as [|i l IH]; intros cs; [reflexivity|].
  unfold bumpAll in *. simpl. rewrite IH. unfold bumpCategory. apply updateAt_length.
Qed.

Lemma nth_bumpAll : forall l cs c,
  categoryIndex c < List.length cs ->
  nth (categoryIndex c) (bumpAll l cs) 0%Z
  = Nat.iter (categoryCount c l) inc16 (nth (categoryIndex c) cs 0%Z).
Proof.
  induction l as [|i l IH]; intros cs c Hc; [reflexivity|].
  unfold bumpAll in *. cbn [fold_left]. rewrite IH
    by (unfold bumpCategory; now rewrite updateAt_length).
  unfold bumpCategory. rewrite nth_updateAt by assumption.
  unfold categoryCount. cbn [filter]. unfold inCategory at 2.
  rewrite (Nat.eqb_sym (categoryIndex (categoryOf i))).
  destruct (Nat.eqb (categoryIndex c) (categoryIndex (categoryOf i))).
  - cbn [List.length]. rewrite Nat.iter_succ_r. reflexivity.
  - reflexivity.
Qed.

(** [analyzeBasicBlock] in closed form. *)
Lemma analyze_totalInsts : forall BB,
  totalInsts (analyzeBasicBlock BB) = wrap32 (Z.of_nat (List.length (countedInsts BB))).
Proof. intros. unfold analyzeBasicBlock. rewrite analyze_fold. simpl. apply iter_inc32. Qed.

Lemma analyze_totalUnsafeInsts : forall BB,
  totalUnsafeInsts (analyzeBasicBlock BB)
  = wrap32 (Z.of_nat (List.length (regionInsts false BB))).
Proof. intros. unfold analyzeBasicBlock. rewrite analyze_fold. simpl. apply iter_inc32. Qed.

Lemma analyze_countOf : forall BB c,
  countOf c (analyzeBasicBlock BB)
  = wrap16 (Z.of_nat (categoryCount c (regionInsts false BB))).
Proof.
  intros. unfold analyzeBasicBlock, countOf. rewrite analyze_fold.
  cbn [unsafeCounts BlockCounts_init].
  rewrite nth_bumpAll by (destruct c; simpl; lia).
  replace (nth (categoryIndex c) (repeat 0%Z MAX_UNSAFE_CATEGORIES) 0%Z) with 0%Z
    by (destruct c; reflexivity).
  apply iter_inc16.
Qed.

Lemma regionInsts_length : forall BB f, List.length (regionInsts f BB) <= List.length BB.
Proof.
  induction BB as [|i BB IH]; intros f; [simpl; lia|].
  cbn [regionInsts List.length].
  destruct (isDbgInfoIntrinsic i); [specialize (IH f); lia|].
  destruct (markerKind i) as [[|]|].
  - specialize (IH true). lia.
  - specialize (IH false). lia.
  - rewrite length_app. specialize (IH f). destruct f; simpl; lia.
Qed.

Lemma countedInsts_length : forall BB, List.length (countedInsts BB) <= List.length BB.
Proof. intros. unfold countedInsts. apply filter_length_le. Qed.

Lemma categoryCount_cons : forall c i l,
  categoryCount c (i :: l) = (if inCategory c i then 1 else 0) + categoryCount c l.
Proof.
  intros. unfold categoryCount. cbn [filter]. destruct (inCategory c i); reflexivity.
Qed.

(** Every instruction falls into exactly one category. *)
Lemma category_partition : forall l,
  categoryCount UNSAFE_LOAD l + categoryCount UNSAFE_STORE l + categoryCount UNSAFE_CALL l
  + categoryCount UNSAFE_CAST l + categoryCount UNSAFE_GEP l + categoryCount UNSAFE_OTHER l
  = List.length l.
Proof.
  induction l as [|i l IH]; [reflexivity|].
  rewrite !categoryCount_cons. cbn [List.length]. unfold inCategory.
  destruct (categoryOf i); cbn [categoryIndex Nat.eqb]; lia.
Qed.

Lemma wrap32_small : forall z, (0 <= z < 4294967296)%Z -> wrap32 z = z.
Proof. intros. unfold wrap32. now apply Z.mod_small. Qed.

Lemma wrap16_small : forall z, (0 <= z < 65536)%Z -> wrap16 z = z.
Proof. intros. unfold wrap16. now apply Z.mod_small. Qed.

Lemma Z_ltb_0_of_nat : forall k, Z.ltb 0 (Z.of_nat k) = negb (Nat.eqb k 0).
Proof.
  intros [|k]; [reflexivity|]. simpl negb.
  apply Z.ltb_lt. lia.
Qed.

(** The loop body of [run] on a block that ends in its terminator. *)
Lemma instrumentBlock_spec : forall funcId body T n,
  isTerminator T = true ->
  NoDup (addrs (body ++ [T])) ->
  fitsCounters (body ++ [T]) ->
  instrumentBlock funcId (body ++ [T]) n =
  match countedInsts (body ++ [T]) with
  | [] => Some (body ++ [T], false, n)
  | _ :: _ => Some (body ++ [recordBlockCallOf n funcId (body ++ [T]); T], true, n + 1)
  end.
Proof.
  intros funcId body T n HT Hnd Hfit. unfold instrumentBlock.
  set (BB := body ++ [T]) in *.
  pose proof (countedInsts_length BB) as Hc.
  pose proof (regionInsts_length BB false) as Hr.
  unfold fitsCounters in Hfit.
  cbv zeta. unfold hasInstructions, hasUnsafeInstructions.
  rewrite analyze_totalInsts, analyze_totalUnsafeInsts.
  rewrite !wrap32_small by lia. rewrite !Z_ltb_0_of_nat.
  destruct (countedInsts BB) as [|c0 cs0] eqn:Hcount; [reflexivity|].
  cbn [List.length Nat.eqb negb].
  unfold getTerminator. unfold BB at 1. rewrite back_app_last, HT.
  assert (Hins : forall c, insertBefore (addr T) [c] BB = body ++ [c; T]).
  { intros c. unfold BB. rewrite insertBefore_at; [reflexivity | | reflexivity].
    unfold BB in Hnd. now apply addr_not_in_prefix with (l2 := []). }
  rewrite !Hins.
  unfold recordBlockCallOf. cbv zeta. rewrite Hcount.
  destruct (regionInsts false BB) as [|r0 rs0] eqn:Hregion.
  - reflexivity.
  - cbn [List.length Nat.eqb negb]. rewrite !analyze_countOf, Hregion. reflexivity.
Qed.

Lemma instrumentBlock_recorded : forall funcId BB n,
  NoDup (addrs BB) -> wellFormedBlock BB -> fitsCounters BB ->
  exists BB' m n', instrumentBlock funcId BB n = Some (BB', m, n') /\ Recorded funcId BB BB'.
Proof.
  intros funcId BB n Hnd [[T [Hb HT]] _] Hfit.
  destruct (back_Some_split _ BB T Hb) as [body ->].
  rewrite instrumentBlock_spec by assumption.
  destruct (countedInsts (body ++ [T])) as [|c0 cs0] eqn:Hc.
  - exists (body ++ [T]), false, n. split; [reflexivity|]. now constructor.
  - exists (body ++ [recordBlockCallOf n funcId (body ++ [T]); T]), true, (n + 1).
    split; [reflexivity|]. constructor. rewrite Hc. discriminate.
Qed.

Lemma instrumentBlocks_recorded : forall funcId BBs modified n,
  Forall (fun BB => NoDup (addrs BB)) BBs ->
  Forall wellFormedBlock BBs ->
  Forall fitsCounters BBs ->
  exists bbs m n',
    instrumentBlocks funcId BBs modified n = Some (bbs, m, n') /\
    Forall2 (Recorded funcId) BBs bbs.
Proof.
  induction BBs as [|BB BBs IH]; intros modified n Hnd Hwf Hfit.
  - exists [], modified, n. split; [reflexivity | constructor].
  - inversion Hnd as [|? ? Hnd1 Hnd2]; subst.
    inversion Hwf as [|? ? Hwf1 Hwf2]; subst.
    inversion Hfit as [|? ? Hfit1 Hfit2]; subst.
    destruct (instrumentBlock_recorded funcId BB n) as (BB' & m & n1 & Hib & Hrec);
      try assumption.
    destruct (IH (modified || m) n1) as (bbs & m' & n' & Hibs & Hall); try assumption.
    cbn [instrumentBlocks]. rewrite Hib, Hibs.
    exists (BB' :: bbs), m', n'. split; [reflexivity | now constructor].
Qed.

(** C7, as the code has it: in the call emitted for a block, the six
    category fields sum exactly to the [unsafe_total] field provided no
    category holds 65536 or more of the instructions counted inside the
    block's marker regions; the category counters are 16 bits wide. *)
Theorem C7_category_fields_sum : forall funcId body T n,
  isTerminator T = true ->
  NoDup (addrs (body ++ [T])) ->
  fitsCounters (body ++ [T]) ->
  countedInsts (body ++ [T]) <> [] ->
  (forall c, (Z.of_nat (categoryCount c (regionInsts false (body ++ [T]))) < 65536)%Z) ->
  exists total unsafeTotal ld st cl cs gp ot,
    instrumentBlock funcId (body ++ [T]) n
    = Some (body ++ [recordBlockCall n funcId total unsafeTotal ld st cl cs gp ot; T],
            true, n + 1) /\
    (ld + st + cl + cs + gp + ot = unsafeTotal)%Z.
Proof.
  intros funcId body T n HT Hnd Hfit Hne Hsmall.
  rewrite instrumentBlock_spec by assumption.
  destruct (countedInsts (body ++ [T])) as [|c0 cs0] eqn:Hc; [contradiction|].
  unfold recordBlockCallOf. cbv zeta. rewrite Hc.
  do 8 eexists. split; [reflexivity|].
  rewrite !wrap16_small by (split; [lia | apply Hsmall]).
  pose proof (category_partition (regionInsts false (body ++ [T]))). lia.
Qed.

Lemma C7_witness :
  exists total unsafeTotal ld st cl cs gp ot,
    instrumentBlock 7 Samples.blockOneRegion 10
    = Some ([Samples.inst 0 Load; beginAt 1; Samples.tagged (Samples.inst 2 Store); endAt 3]
              ++ [recordBlockCall 10 7 total unsafeTotal ld st cl cs gp ot; Samples.inst 4 Ret],
            true, 10 + 1) /\
    (ld + st + cl + cs + gp + ot = unsafeTotal)%Z.
Proof.
  apply (C7_category_fields_sum 7
           [Samples.inst 0 Load; beginAt 1; Samples.tagged (Samples.inst 2 Store); endAt 3]
           (Samples.inst 4 Ret) 10).
  - reflexivity.
  - repeat constructor; simpl; intuition discriminate.
  - reflexivity.
  - discriminate.
  - intros []; reflexivity.
Defined.

(** C7 as stated fails on a region of 65536 loads: the call reports
    [unsafe_total = 65536] while the load counter has wrapped to 0, so the six
    category fields sum to 0. *)
Lemma C7_counterexample :
  option_map (fun r => recordFields (fst (fst r)))
             (instrumentBlock 7 Samples.blockManyLoads 70000)
  = Some (Some [7; 65537; 65536; 0; 0; 0; 0; 0; 0]%Z) /\
  (0 + 0 + 0 + 0 + 0 + 0 <> 65536)%Z.
Proof. split; [vm_compute; reflexivity | discriminate]. Qed.

(** C8, as the code has it: on a primary build, for an eligible function
    from whose id attachment the pass reads an id other than [UINT32_MAX]
    (the value it also reads when there is no attachment, and on which it
    leaves the function alone), every block with at least one counted
    instruction receives exactly one [__unsafe_record_block] call, linked in
    immediately before its terminator; the call's [total] field is the number
    of instructions of the block that are neither sentinels nor debug
    intrinsics; a block with no instruction inside a marker region receives
    the call with [unsafe_total] and the six category fields zero. *)
Theorem C8_one_record_call_per_block : forall env M F n id,
  isPrimaryPackage env = true ->
  shouldInstrumentFunction F = true ->
  getFunctionId F = Some id -> id <> UINT32_MAX ->
  uniqueAddrs F -> wellFormedFunction F -> Forall fitsCounters (blocks F) ->
  exists pa M' bbs n',
    run env M F n = Some (pa, M', setBlocks bbs F, n') /\
    Forall2 (Recorded id) (blocks F) bbs /\
    (forall a BB, regionInsts false BB = [] ->
       intOperands (recordBlockCallOf a id BB)
       = [id; Z.of_nat (List.length (countedInsts BB)); 0; 0; 0; 0; 0; 0; 0]%Z).
Proof.
  intros env M F n id Henv Hel Hmd Hid Hu Hwf Hfit.
  unfold run. rewrite Henv, Hel. cbn [negb]. rewrite Hmd.
  replace (Z.eqb id UINT32_MAX) with false by (symmetry; now apply Z.eqb_neq).
  destruct (instrumentBlocks_recorded id (blocks F) false n) as (bbs & m & n' & Hib & Hall);
    try assumption.
  { now apply NoDup_concat_each. }
  cbv zeta. rewrite Hib.
  exists (if m then PA_none else PA_all), (getOrCreateRecordBlockFn M), bbs, n'.
  split; [reflexivity|]. split; [exact Hall|].
  intros a BB Hregion. unfold recordBlockCallOf. cbv zeta. rewrite Hregion. reflexivity.
Qed.

Lemma C8_witness :
  exists pa M' bbs n',
    run Samples.primary Samples.emptyModule Samples.fnCounted 10
    = Some (pa, M', setBlocks bbs Samples.fnCounted, n') /\
    Forall2 (Recorded 7) (blocks Samples.fnCounted) bbs /\
    (forall a BB, regionInsts false BB = [] ->
       intOperands (recordBlockCallOf a 7 BB)
       = [7; Z.of_nat (List.length (countedInsts BB)); 0; 0; 0; 0; 0; 0; 0]%Z).
Proof.
  apply (C8_one_record_call_per_block Samples.primary Samples.emptyModule Samples.fnCounted 10 7).
  - reflexivity.
  - reflexivity.
  - reflexivity.
  - discriminate.
  - unfold uniqueAddrs. simpl. repeat constructor; simpl; intuition discriminate.
  - repeat constructor; eexists; split; reflexivity.
  - repeat constructor.
Defined.

(** C8 as stated fails on an eligible function whose id attachment holds
    4294967295: every block has counted instructions, and the pass returns
    the function as it was, without a single [__unsafe_record_block] call
    and without declaring the helper. *)
Lemma C8_counterexample :
  shouldInstrumentFunction Samples.fnMaxId = true /\
  getFMetadata FUNCTION_ID_METADATA Samples.fnMaxId = Some [MDConstInt 32 4294967295] /\
  Forall (fun BB => countedInsts BB <> []) (blocks Samples.fnMaxId) /\
  run Samples.primary Samples.emptyModule Samples.fnMaxId 10
  = Some (PA_all, Samples.emptyModule, Samples.fnMaxId, 10) /\
  Forall (fun BB => recordFields BB = None) (blocks Samples.fnMaxId).
Proof.
  split; [reflexivity|]. split; [reflexivity|]. split.
  - repeat constructor; discriminate.
  - split; [reflexivity|]. repeat constructor.
Qed.

End UnsafeInstCounterProofs.

Module UnsafeFunctionTrackerProofs.
Import IR Props UnsafeFunctionTracker UnsafeFunctionTrackerInv ListFacts.

Lemma eligible_same : forall F F',
  fname F' = fname F -> isDeclaration F' = isDeclaration F -> eligible F' = eligible F.
Proof.
  intros F F' Hn Hd. unfold eligible, shouldInstrumentFunction, isIntrinsic.
  now rewrite Hn, Hd.
Qed.

Lemma isDeclaration_blocks : forall F F',
  blocks F' = blocks F -> isDeclaration F' = isDeclaration F.
Proof. intros F F' H. unfold isDeclaration. now rewrite H. Qed.

Lemma wrap32_next : forall k, wrap32 (wrap32 (Z.of_nat k) + 1) = wrap32 (Z.of_nat (S k)).
Proof.
  intros. unfold wrap32. rewrite Zplus_mod_idemp_l. f_equal. lia.
Qed.

Lemma lookupMD_storeMD_same : forall k n mds, lookupMD k (storeMD k n mds) = Some n.
Proof.
  intros k n mds. induction mds as [|[k0 m] mds IH]; simpl.
  - now rewrite String.eqb_refl.
  - destruct (String.eqb k0 k) eqn:E; simpl; rewrite E; auto.
Qed.

Lemma funcIdOf_set : forall n F, funcIdOf (setFMetadata FUNCTION_ID_METADATA n F) = Some n.
Proof. intros. unfold funcIdOf, getFMetadata. simpl. apply lookupMD_storeMD_same. Qed.

Lemma Tagged_set : forall F v,
  eligible F = true -> Tagged F (setFMetadata FUNCTION_ID_METADATA [MDConstInt 32 v] F).
Proof.
  intros F v HF. split; [reflexivity|]. split; [reflexivity|]. split.
  - intros H. rewrite HF in H. discriminate.
  - intros _. unfold idConstant. fold (funcIdOf (setFMetadata FUNCTION_ID_METADATA [MDConstInt 32 v] F)).
    rewrite funcIdOf_set. discriminate.
Qed.

Lemma Tagged_same : forall F, eligible F = false -> Tagged F F.
Proof.
  intros F HF. split; [reflexivity|]. split; [reflexivity|]. split; [reflexivity|].
  intros H. rewrite HF in H. discriminate.
Qed.

Lemma assignIds_spec : forall fs idx k,
  exists fs1 md ti,
    assignIds fs idx (wrap32 (Z.of_nat k)) = (fs1, md, ti) /\
    Forall2 Tagged fs fs1 /\
    map funcIdOf (filter eligible fs1)
      = map idNodeW (seq k (List.length (filter eligible fs))) /\
    Forall (fun i => idx <= i /\
                     exists F, nth_error fs (i - idx) = Some F /\ eligible F = true) ti /\
    map hasUnsafeInst md
      = map (fun F => if analyzeFunction F then 1%Z else 0%Z) (filter eligible fs).
Proof.
  induction fs as [|F fs IH]; intros idx k.
  - exists [], [], []. repeat split; constructor.
  - cbn [assignIds]. fold (eligible F).
    destruct (eligible F) eqn:HF; cbn [negb].
    + rewrite wrap32_next.
      destruct (IH (S idx) (S k)) as (fs1 & md & ti & -> & Hall & Hids & Hti & Hmd).
      eexists _, _, _. split; [reflexivity|].
      split; [constructor; [now apply Tagged_set | exact Hall]|].
      split; [|split].
      * cbn [filter].
        replace (eligible (setFMetadata FUNCTION_ID_METADATA [MDConstInt 32 (wrap32 (Z.of_nat k))] F))
          with true by (symmetry; exact HF).
        rewrite HF. cbn [map List.length seq]. rewrite funcIdOf_set. f_equal. exact Hids.
      * constructor.
        -- split; [lia|]. exists F. rewrite Nat.sub_diag. split; [reflexivity | exact HF].
        -- eapply Forall_impl; [|exact Hti]. intros i [Hle [G [Hn HG]]].
           split; [lia|]. exists G. split; [|exact HG].
           replace (i - idx) with (S (i - S idx)) by lia. exact Hn.
      * cbn [filter]. rewrite HF. cbn [map hasUnsafeInst]. f_equal. exact Hmd.
    + destruct (IH (S idx) k) as (fs1 & md & ti & -> & Hall & Hids & Hti & Hmd).
      eexists _, _, _. split; [reflexivity|].
      split; [constructor; [now apply Tagged_same | exact Hall]|].
      split; [|split].
      * cbn [filter]. rewrite HF. exact Hids.
      * eapply Forall_impl; [|exact Hti]. intros i [Hle [G [Hn HG]]].
        split; [lia|]. exists G. split; [|exact HG].
        replace (i - idx) with (S (i - S idx)) by lia. exact Hn.
      * cbn [filter]. rewrite HF. exact Hmd.
Qed.

Lemma Kept_eligible : forall F F', Kept F F' -> eligible F' = eligible F.
Proof. intros F F' (Hn & _ & Hd & _). now apply eligible_same. Qed.

Lemma Kept_refl : forall F, Kept F F.
Proof. intros. repeat split; reflexivity. Qed.

Lemma Kept_trans : forall F G H, Kept F G -> Kept G H -> Kept F H.
Proof.
  intros F G H HFG HGH. pose proof (Kept_eligible F G HFG) as He.
  destruct HFG as (n1 & m1 & d1 & b1), HGH as (n2 & m2 & d2 & b2).
  repeat split; try congruence.
  intros HF. rewrite b2 by congruence. now apply b1.
Qed.

Lemma Kept_setAttrs : forall name F, Kept F (setAttrs name F).
Proof.
  intros name F. unfold setAttrs. destruct (String.eqb (fname F) name).
  - repeat split; reflexivity.
  - apply Kept_refl.
Qed.

Lemma Kept_helpers : forall F, Kept F (helpers F).
Proof.
  intros. unfold helpers.
  eapply Kept_trans; [|apply Kept_setAttrs].
  eapply Kept_trans; [|apply Kept_setAttrs]. apply Kept_setAttrs.
Qed.

Lemma getOrInsertFunction_functions : forall name M,
  exists ds, functions (getOrInsertFunction name M) = functions M ++ ds /\
             Forall PlainDeclaration ds.
Proof.
  intros name M. unfold getOrInsertFunction.
  destruct (lookupFunction name (functions M)).
  - exists []. split; [now rewrite app_nil_r | constructor].
  - exists [declaration name]. split; [reflexivity|]. repeat constructor.
Qed.

Lemma nth_error_replaceAt : forall (A : Type) (l : list A) idx j (x y : A),
  nth_error l idx = Some y ->
  nth_error (replaceAt idx x l) j = if Nat.eqb j idx then Some x else nth_error l j.
Proof.
  induction l as [|z l IH]; intros idx j x y H.
  - destruct idx; discriminate.
  - destruct idx as [|idx], j as [|j]; simpl in *; try reflexivity.
    now apply IH with (y := y).
Qed.

Lemma Forall2_replaceAt : forall (l : list Function) idx F Fnew,
  nth_error l idx = Some F -> Kept F Fnew -> Forall2 Kept l (replaceAt idx Fnew l).
Proof.
  induction l as [|z l IH]; intros idx F Fnew H HK.
  - destruct idx; discriminate.
  - destruct idx as [|idx]; simpl in *.
    + inversion H; subst. constructor; [assumption|].
      clear. induction l; constructor; auto using Kept_refl.
    + constructor; [apply Kept_refl|]. now apply IH with (F := F).
Qed.

Lemma instrumentEntry_ok : forall idx fs n F,
  nth_error fs idx = Some F -> Ready F ->
  exists Fnew,
    instrumentEntry idx fs n = Some (replaceAt idx Fnew fs, n + 1) /\
    Kept F Fnew /\ Ready Fnew.
Proof.
  intros idx fs n F Hn (He & Hid & Front & rest & others & Hb).
  unfold instrumentEntry. rewrite Hn, Hb.
  destruct (idConstant F) as [IdConst|] eqn:Hc; [|contradiction].
  cbv zeta. rewrite insertBefore_here by reflexivity.
  set (Fnew := setBlocks
         (([CreateCall n (CalleeFunction RECORD_FUNCTION_FN) [IdConst]] ++ Front :: rest)
          :: others) F).
  exists Fnew. split; [reflexivity|].
  assert (HK : Kept F Fnew).
  { split; [reflexivity|]. split; [reflexivity|]. split.
    - unfold isDeclaration. now rewrite Hb.
    - intros H. rewrite He in H. discriminate. }
  split; [exact HK|]. unfold Ready. split; [|split].
  - rewrite (Kept_eligible _ _ HK). exact He.
  - unfold idConstant, getFMetadata in *. simpl. now rewrite Hc.
  - simpl. eauto.
Qed.

Lemma instrumentEntries_spec : forall ti fs n,
  Forall (fun i => exists F, nth_error fs i = Some F /\ Ready F) ti ->
  exists fs' n', instrumentEntries ti fs n = Some (fs', n') /\ Forall2 Kept fs fs'.
Proof.
  induction ti as [|idx ti IH]; intros fs n Hall.
  - exists fs, n. split; [reflexivity|].
    clear. induction fs; constructor; auto using Kept_refl.
  - inversion Hall as [|? ? [F [Hn HR]] Hrest]; subst.
    destruct (instrumentEntry_ok idx fs n F Hn HR) as (Fnew & Hie & HK & HRnew).
    cbn [instrumentEntries]. rewrite Hie.
    destruct (IH (replaceAt idx Fnew fs) (n + 1)) as (fs' & n' & Hies & HK').
    { eapply Forall_impl; [|exact Hrest]. intros j [G [Hj HG]].
      rewrite (nth_error_replaceAt _ fs idx j Fnew F Hn).
      destruct (Nat.eqb j idx); eauto. }
    exists fs', n'. split; [exact Hies|].
    eapply Forall2_trans; [| eapply Forall2_replaceAt; eassumption | exact HK'].
    apply Kept_trans.
Qed.

Lemma beforePhase5_functions : forall M1 n metadata,
  exists ds,
    functions (beforePhase5 M1 n metadata)
    = map helpers (functions M1 ++ ds) ++ [InitFunc n metadata] /\
    Forall PlainDeclaration ds.
Proof.
  intros M1 n metadata.
  destruct (getOrInsertFunction_functions INIT_METADATA_FN M1) as (d1 & E1 & H1).
  destruct (getOrInsertFunction_functions RECORD_FUNCTION_FN
              (getOrInsertFunction INIT_METADATA_FN M1)) as (d2 & E2 & H2).
  destruct (getOrInsertFunction_functions DUMP_STATS_FN
              (getOrInsertFunction RECORD_FUNCTION_FN
                 (getOrInsertFunction INIT_METADATA_FN M1))) as (d3 & E3 & H3).
  exists (d1 ++ d2 ++ d3). split.
  - unfold beforePhase5. cbn [functions appendToGlobalDtors appendToGlobalCtors addFunction
                              addGlobal setFunctions markRuntimeHelper].
    rewrite E3, E2, E1. rewrite !map_map. rewrite <- !app_assoc. reflexivity.
  - rewrite !Forall_app. auto.
Qed.

Lemma run_primary : forall env M n fs1 m0 metadata ti,
  isPrimaryPackage env = true ->
  assignIds (functions M) 0 0%Z = (fs1, m0 :: metadata, ti) ->
  run env M n =
  match instrumentEntries ti (functions (beforePhase5 (setFunctions fs1 M) n (m0 :: metadata)))
                          (n + 3) with
  | None => None
  | Some (fs', n') =>
      Some (PA_none, setFunctions fs' (beforePhase5 (setFunctions fs1 M) n (m0 :: metadata)), n')
  end.
Proof.
  intros env M n fs1 m0 metadata ti Henv Has. unfold run. rewrite Henv, Has. reflexivity.
Qed.

Lemma funcIds_Kept : forall l l',
  Forall2 Kept l l' ->
  map funcIdOf (filter eligible l') = map funcIdOf (filter eligible l).
Proof.
  intros l l' H. induction H as [|F F' l l' HK H IH]; [reflexivity|].
  cbn [filter]. rewrite (Kept_eligible _ _ HK).
  destruct (eligible F); [|exact IH].
  cbn [map]. rewrite IH. f_equal.
  destruct HK as (_ & Hm & _). unfold funcIdOf, getFMetadata. now rewrite Hm.
Qed.

Lemma Tagged_eligible : forall F F1, Tagged F F1 -> eligible F1 = eligible F.
Proof.
  intros F F1 (Hn & Hb & _). apply eligible_same; [exact Hn|]. now apply isDeclaration_blocks.
Qed.

Lemma eligible_entry : forall F,
  eligible F = true -> wellFormedFunction F ->
  exists Front rest others, blocks F = (Front :: rest) :: others.
Proof.
  intros F He Hwf. unfold eligible, shouldInstrumentFunction, isDeclaration in He.
  unfold wellFormedFunction in Hwf.
  destruct (blocks F) as [|BB others]; [discriminate|].
  inversion Hwf as [|? ? [[T [Hb _]] _] _]; subst.
  destruct BB as [|Front rest]; [discriminate|]. eauto.
Qed.

Lemma idNodeW_small : forall count,
  (Z.of_nat count <= 4294967296)%Z ->
  map idNodeW (seq 0 count) = map idNode (seq 0 count).
Proof.
  intros count Hc. apply map_ext_in. intros j Hj. apply in_seq in Hj.
  unfold idNodeW, idNode, wrap32. rewrite Z.mod_small by lia. reflexivity.
Qed.

Lemma SameFunction_refl : forall F, SameFunction F F.
Proof. intros. repeat split; reflexivity. Qed.

(** C6: on a primary build FunctionTracker attaches the ids 0, 1, ..., n-1
    to the n eligible functions, in the order of the module's function list,
    one attachment each; a function that is not eligible keeps the
    attachments it had, and the functions the pass adds carry none. *)
Theorem C6_dense_function_ids : forall env M n,
  isPrimaryPackage env = true ->
  Forall wellFormedFunction (functions M) ->
  (Z.of_nat (List.length (filter eligible (functions M))) <= 4294967296)%Z ->
  exists pa M' n' fs' extra,
    run env M n = Some (pa, M', n') /\
    functions M' = fs' ++ extra /\
    Forall2 SameFunction (functions M) fs' /\
    map funcIdOf (filter eligible fs')
      = map idNode (seq 0 (List.length (filter eligible (functions M)))) /\
    Forall (fun F => eligible F = false /\ funcIdOf F = None) extra.
Proof.
  intros env M n Henv Hwf Hbound.
  destruct (assignIds_spec (functions M) 0 0) as (fs1 & md & ti & Has & Htag & Hids & Hti & Hmd).
  change (wrap32 (Z.of_nat 0)) with 0%Z in Has.
  destruct md as [|m0 md].
  - assert (Hnone : filter eligible (functions M) = []).
    { destruct (filter eligible (functions M)); [reflexivity | discriminate]. }
    exists PA_all, M, n, (functions M), [].
    split; [unfold run; now rewrite Henv, Has|].
    split; [now rewrite app_nil_r|].
    split; [clear; induction (functions M); constructor; auto using SameFunction_refl|].
    split; [now rewrite Hnone | constructor].
  - rewrite (run_primary env M n fs1 m0 md ti Henv Has).
    destruct (beforePhase5_functions (setFunctions fs1 M) n (m0 :: md)) as (ds & Efs & Hds).
    cbn [functions setFunctions] in Efs.
    destruct (instrumentEntries_spec ti
                (functions (beforePhase5 (setFunctions fs1 M) n (m0 :: md))) (n + 3))
      as (fs' & n' & Hie & HK).
    { rewrite Efs. eapply Forall_impl; [|exact Hti]. intros i [_ [F [Hn HF]]].
      rewrite Nat.sub_0_r in Hn.
      destruct (Forall2_nth_error_l _ _ _ _ _ _ _ Htag Hn) as (F1 & Hn1 & HT).
      exists (helpers F1). split.
      - rewrite map_app, <- app_assoc.
        rewrite nth_error_app1 by (rewrite length_map; apply nth_error_Some; congruence).
        now rewrite nth_error_map, Hn1.
      - pose proof (Kept_helpers F1) as HKh.
        pose proof (Tagged_eligible _ _ HT) as He1.
        destruct HT as (Hname & Hblocks & _ & Hid).
        split; [rewrite (Kept_eligible _ _ HKh); congruence|]. split.
        + destruct HKh as (_ & Hm & _). unfold idConstant, getFMetadata in *.
          rewrite Hm. now apply Hid.
        + assert (Hentry : exists Front rest others, blocks F = (Front :: rest) :: others).
          { apply eligible_entry; [exact HF|].
            rewrite Forall_forall in Hwf. apply Hwf. eapply nth_error_In; eassumption. }
          destruct Hentry as (Front & rest & others & Hb).
          exists Front, rest, others.
          unfold helpers, setAttrs.
          repeat match goal with |- context [if ?c then _ else _] => destruct c end;
            cbn [blocks]; congruence. }
    rewrite Hie. rewrite Efs in HK.
    rewrite map_app, <- app_assoc in HK.
    apply Forall2_app_inv_l in HK. destruct HK as (fsA & fsB & HKA & HKB & ->).
    exists PA_none, (setFunctions (fsA ++ fsB) (beforePhase5 (setFunctions fs1 M) n (m0 :: md))),
           n', fsA, fsB.
    split; [reflexivity|]. split; [reflexivity|]. split; [|split].
    + eapply Forall2_trans; [| exact Htag |].
      2:{ eapply Forall2_trans; [| apply Forall2_map_r with (f := helpers); apply Kept_helpers
                                 | exact HKA].
          apply Kept_trans. }
      intros F F1 F' HT HKF. pose proof (Tagged_eligible _ _ HT) as He1.
      pose proof (Kept_eligible _ _ HKF) as He2.
      destruct HT as (Hn1 & Hb1 & Hsame & _). destruct HKF as (Hn2 & Hm2 & _ & Hb2).
      split; [congruence|]. split; [congruence|].
      intros Hne. rewrite (Hsame Hne) in *. split; [exact Hm2 | now apply Hb2].
    + rewrite (funcIds_Kept _ _ HKA), (funcIds_Kept fs1 (map helpers fs1)).
      * rewrite Hids. now apply idNodeW_small.
      * apply Forall2_map_r. apply Kept_helpers.
    + apply (Forall2_Forall_r _ _ Kept
               (fun F => eligible F = false /\ funcIdOf F = None) _ _ _
               (fun a b (HKab : Kept a b) Ha =>
                  conj (eq_trans (Kept_eligible a b HKab) (proj1 Ha))
                       (eq_trans (f_equal (lookupMD FUNCTION_ID_METADATA)
                                          (proj1 (proj2 HKab))) (proj2 Ha))) HKB).
      rewrite Forall_app. split.
      * rewrite Forall_map. eapply Forall_impl; [|exact Hds]. intros D [Hb Hm].
        pose proof (Kept_helpers D) as HKD. split.
        -- rewrite (Kept_eligible _ _ HKD). unfold eligible, shouldInstrumentFunction, isDeclaration.
           now rewrite Hb.
        -- destruct HKD as (_ & Hm' & _). unfold funcIdOf, getFMetadata. now rewrite Hm', Hm.
      * repeat constructor.
Qed.

Lemma C6_witness :
  exists pa M' n' fs' extra,
    run Samples.primary Samples.moduleThree 10 = Some (pa, M', n') /\
    functions M' = fs' ++ extra /\
    Forall2 SameFunction (functions Samples.moduleThree) fs' /\
    map funcIdOf (filter eligible fs')
      = map idNode (seq 0 (List.length (filter eligible (functions Samples.moduleThree)))) /\
    Forall (fun F => eligible F = false /\ funcIdOf F = None) extra.
Proof.
  apply (C6_dense_function_ids Samples.primary Samples.moduleThree 10).
  - reflexivity.
  - repeat constructor; eexists; split; reflexivity.
  - vm_compute. discriminate.
Defined.

Lemma analyzeInsts_spec : forall BB f,
  fst (analyzeInsts BB f) = taggedInRegion f BB /\
  (taggedInRegion f BB = false -> snd (analyzeInsts BB f) = regionOpenAtEnd f BB).
Proof.
  induction BB as [|i BB IH]; intros f; [split; reflexivity|].
  cbn [analyzeInsts taggedInRegion regionOpenAtEnd].
  unfold isMarkerInstruction, markerKind.
  destruct (inlineAsmOfCallBase i) as [asm|].
  - destruct (String.eqb asm UNSAFE_MARKER_BEGIN); [apply IH|].
    destruct (String.eqb asm UNSAFE_MARKER_END); cbn [orb]; [apply IH|].
    unfold hasUnsafeMetadata. fold (IR.hasUnsafeInst i).
    destruct (f && IR.hasUnsafeInst i); [split; [reflexivity | discriminate] | apply IH].
  - unfold hasUnsafeMetadata. fold (IR.hasUnsafeInst i).
    destruct (f && IR.hasUnsafeInst i); [split; [reflexivity | discriminate] | apply IH].
Qed.

(** Where every region is closed before its block ends, the flag agrees
    with the block-by-block reading. *)
Lemma analyzeFunction_closed_regions : forall F,
  Forall (fun BB => regionOpenAtEnd false BB = false) (blocks F) ->
  analyzeFunction F = hasTaggedInRegion F.
Proof.
  intros F H. unfold analyzeFunction, hasTaggedInRegion.
  induction H as [|BB BBs HBB H IH]; [reflexivity|].
  cbn [analyzeBlocks existsb].
  destruct (analyzeInsts_spec BB false) as [H1 H2].
  destruct (analyzeInsts BB false) as [r f']. cbn [fst snd] in *.
  rewrite <- H1. destruct r; [reflexivity|].
  rewrite <- H1 in H2. rewrite (H2 eq_refl), HBB. exact IH.
Qed.

(** C9 at the failing input: a begin sentinel left open at the end of one
    block makes a tagged instruction of the next block count, although it
    lies in no region of its own block; the table byte is 1. *)
Lemma C9_open_region_crosses_blocks :
  hasTaggedInRegion Samples.fnOpenRegion = false /\
  analyzeFunction Samples.fnOpenRegion = true /\
  option_map (fun r => tableFlags (snd (fst r)))
             (run Samples.primary (Samples.moduleOf [Samples.fnOpenRegion]) 10)
  = Some [1%Z].
Proof. repeat split. Qed.

End UnsafeFunctionTrackerProofs.

Module CpuCycleCountProofs.
Import IR Props CpuCycleCount CpuCycleCountInv ListFacts.

(** ** The first pass *)

Lemma collectStep_plain : forall st i, markerKind i = None -> collectStep st i = st.
Proof.
  intros [[cur P] R] i H. unfold collectStep, markerKind in *.
  destruct (inlineAsmOfCallBase i) as [asm|]; [|reflexivity].
  destruct (String.eqb asm UNSAFE_MARKER_BEGIN); [discriminate|].
  destruct (String.eqb asm UNSAFE_MARKER_END); [discriminate|]. reflexivity.
Qed.

Lemma collectStep_begin : forall P R i,
  markerKind i = Some MarkerBegin -> collectStep (None, P, R) i = (Some (addr i), P, R).
Proof.
  intros P R i H. unfold collectStep, markerKind in *.
  destruct (inlineAsmOfCallBase i) as [asm|]; [|discriminate].
  destruct (String.eqb asm UNSAFE_MARKER_BEGIN); [reflexivity|].
  destruct (String.eqb asm UNSAFE_MARKER_END); discriminate.
Qed.

Lemma collectStep_end : forall b P R i,
  markerKind i = Some MarkerEnd ->
  collectStep (Some b, P, R) i = (None, P ++ [(b, addr i)], R ++ [b; addr i]).
Proof.
  intros b P R i H. unfold collectStep, markerKind in *.
  destruct (inlineAsmOfCallBase i) as [asm|]; [|discriminate].
  destruct (String.eqb asm UNSAFE_MARKER_BEGIN); [discriminate|].
  destruct (String.eqb asm UNSAFE_MARKER_END); [reflexivity | discriminate].
Qed.

Lemma collect_plain_run : forall l st,
  Forall (fun i => markerKind i = None) l -> fold_left collectStep l st = st.
Proof.
  induction l as [|i l IH]; intros st H; [reflexivity|].
  inversion H; subst. cbn [fold_left]. rewrite collectStep_plain by assumption. now apply IH.
Qed.

(** The lists only grow at their end. *)
Lemma collect_shift : forall l cur P R,
  fold_left collectStep l (cur, P, R) =
  match fold_left collectStep l (cur, [], []) with
  | (cur', P', R') => (cur', P ++ P', R ++ R')
  end.
Proof.
  induction l as [|i l IH]; intros cur P R.
  - cbn. now rewrite !app_nil_r.
  - cbn [fold_left].
    assert (Hstep : forall P0 R0, exists cur1 dP dR,
               collectStep (cur, P0, R0) i = (cur1, P0 ++ dP, R0 ++ dR) /\
               collectStep (cur, [], []) i = (cur1, dP, dR)).
    { intros P0 R0. unfold collectStep.
      destruct (inlineAsmOfCallBase i) as [asm|].
      - destruct (String.eqb asm UNSAFE_MARKER_BEGIN).
        + destruct cur; eexists _, [], []; rewrite !app_nil_r; split; reflexivity.
        + destruct (String.eqb asm UNSAFE_MARKER_END), cur;
            try (eexists _, [], []; rewrite !app_nil_r; split; reflexivity).
          eexists _, _, _. split; reflexivity.
      - eexists _, [], []. rewrite !app_nil_r. split; reflexivity. }
    destruct (Hstep P R) as (cur1 & dP & dR & E1 & E2). rewrite E1, E2.
    rewrite (IH cur1 (P ++ dP) (R ++ dR)), (IH cur1 dP dR).
    destruct (fold_left collectStep l (cur1, [], [])) as [[cur' P'] R'].
    now rewrite !app_assoc.
Qed.

Lemma collectBlock_shift : forall P R BB,
  collectBlock (P, R) BB = (P ++ blockPairs BB, R ++ blockMarkers BB).
Proof.
  intros P R BB. unfold blockPairs, blockMarkers, collectBlock. cbn [fst snd].
  rewrite (collect_shift BB None P R).
  destruct (fold_left collectStep BB (None, [], [])) as [[cur' P'] R']. reflexivity.
Qed.

Lemma collectMarkers_concat : forall bbs,
  collectMarkers bbs
  = (List.concat (map blockPairs bbs), List.concat (map blockMarkers bbs)).
Proof.
  intros bbs. unfold collectMarkers.
  assert (H : forall P R,
             fold_left collectBlock bbs (P, R)
             = (P ++ List.concat (map blockPairs bbs), R ++ List.concat (map blockMarkers bbs))).
  { induction bbs as [|BB bbs IH]; intros P R.
    - cbn. now rewrite !app_nil_r.
    - cbn [fold_left map List.concat]. rewrite collectBlock_shift, IH.
      now rewrite !app_assoc. }
  apply H.
Qed.

Lemma blockPairs_plain : forall i l,
  markerKind i = None ->
  blockPairs (i :: l) = blockPairs l /\ blockMarkers (i :: l) = blockMarkers l.
Proof.
  intros i l H. unfold blockPairs, blockMarkers, collectBlock. cbn [fold_left fst snd].
  rewrite collectStep_plain by assumption. split; reflexivity.
Qed.

Lemma blockPairs_pair : forall b mid e l,
  markerKind b = Some MarkerBegin ->
  Forall (fun i => markerKind i = None) mid ->
  markerKind e = Some MarkerEnd ->
  blockPairs (b :: mid ++ e :: l) = (addr b, addr e) :: blockPairs l /\
  blockMarkers (b :: mid ++ e :: l) = addr b :: addr e :: blockMarkers l.
Proof.
  intros b mid e l Hb Hmid He.
  unfold blockPairs, blockMarkers, collectBlock. cbn [fold_left fst snd].
  rewrite collectStep_begin by assumption.
  rewrite !fold_left_app, (collect_plain_run mid _ Hmid).
  cbn [fold_left]. rewrite collectStep_end by assumption.
  cbn [app]. rewrite collect_shift.
  destruct (fold_left collectStep l (None, [], [])) as [[cur' P'] R']. split; reflexivity.
Qed.

(** Whatever the first pass records is the address of a sentinel of the
    block. *)
Lemma collect_invariant : forall (Q : nat -> Prop) l cur P R,
  (forall i, In i l -> isMarker i = true -> Q (addr i)) ->
  (forall b, cur = Some b -> Q b) ->
  Forall Q R -> Forall (fun p => Q (fst p) /\ Q (snd p)) P ->
  match fold_left collectStep l (cur, P, R) with
  | (_, P', R') => Forall Q R' /\ Forall (fun p => Q (fst p) /\ Q (snd p)) P'
  end.
Proof.
  intros Q. induction l as [|i l IH]; intros cur P R Hl Hcur HR HP.
  - cbn. auto.
  - cbn [fold_left].
    assert (Hrest : forall j, In j l -> isMarker j = true -> Q (addr j))
      by (intros; apply Hl; [now right | assumption]).
    unfold collectStep.
    destruct (inlineAsmOfCallBase i) as [asm|] eqn:Ha; [|now apply IH].
    assert (Hmk : forall k, markerKind i = Some k -> Q (addr i)).
    { intros k Hk. apply Hl; [now left|]. unfold isMarker. now rewrite Hk. }
    unfold markerKind in Hmk. rewrite Ha in Hmk.
    destruct (String.eqb asm UNSAFE_MARKER_BEGIN).
    + destruct cur; apply IH; auto. intros b Hb. inversion Hb; subst. eapply Hmk; eauto.
    + destruct (String.eqb asm UNSAFE_MARKER_END); [|now apply IH].
      destruct cur as [b0|]; [|now apply IH].
      apply IH; auto.
      * discriminate.
      * apply Forall_app. split; [assumption|]. repeat constructor; eauto.
      * apply Forall_app. split; [assumption|]. repeat constructor; simpl; eauto.
Qed.

Lemma blockMarkers_sentinels : forall BB,
  Forall (SentinelOf BB) (blockMarkers BB) /\
  Forall (fun p => SentinelOf BB (fst p) /\ SentinelOf BB (snd p)) (blockPairs BB).
Proof.
  intros BB. unfold blockMarkers, blockPairs, collectBlock. cbn [fst snd].
  pose proof (collect_invariant (SentinelOf BB) BB None [] []) as H.
  destruct (fold_left collectStep BB (None, [], [])) as [[cur' P'] R']. cbn [fst snd].
  apply H; try constructor.
  - intros i Hi Hm. exists i. auto.
  - discriminate.
Qed.

Lemma SentinelOf_addr : forall BB a, SentinelOf BB a -> In a (addrs BB).
Proof. intros BB a (Mk & Hin & <- & _). now apply In_addrs. Qed.

(** ** The second and third pass on one block *)

Lemma pairs_snd : forall P BB n, snd (fold_left pairStepB P (BB, n)) = n + 4 * List.length P.
Proof.
  induction P as [|p P IH]; intros BB n; [cbn; lia|].
  cbn [fold_left]. unfold pairStepB at 2. cbn [fst snd]. rewrite IH. cbn [List.length]. lia.
Qed.

Lemma pairs_prefix : forall P prefix l n,
  Forall (foreignPair prefix) P ->
  fold_left pairStepB P (prefix ++ l, n)
  = (prefix ++ fst (fold_left pairStepB P (l, n)), snd (fold_left pairStepB P (l, n))).
Proof.
  induction P as [|[b e] P IH]; intros prefix l n H; [reflexivity|].
  inversion H as [|? ? [Hb He] HP]; subst. cbn [fst snd] in *.
  cbn [fold_left]. unfold pairStepB at 2 4. cbn [fst snd].
  rewrite (insertBefore_skip b) by assumption.
  rewrite (insertBefore_skip e) by assumption.
  now apply IH.
Qed.

Lemma pairs_foreign : forall P BB n,
  Forall (foreignPair BB) P -> fold_left pairStepB P (BB, n) = (BB, n + 4 * List.length P).
Proof.
  intros P BB n H. rewrite <- (app_nil_r BB) at 1.
  rewrite pairs_prefix by assumption. rewrite pairs_snd.
  f_equal. clear H. revert n. induction P as [|p P IH]; intros n; cbn [fold_left].
  - apply app_nil_r.
  - unfold pairStepB at 2. cbn [fst snd insertBefore]. apply IH.
Qed.

Lemma erase_prefix : forall R prefix l,
  Forall (fun a => ~ In a (addrs prefix)) R ->
  eraseAllB R (prefix ++ l) = prefix ++ eraseAllB R l.
Proof.
  induction R as [|a R IH]; intros prefix l H; [reflexivity|].
  inversion H; subst. unfold eraseAllB in *. cbn [fold_left].
  rewrite eraseFromParent_skip by assumption. now apply IH.
Qed.

Lemma erase_foreign : forall R BB,
  Forall (fun a => ~ In a (addrs BB)) R -> eraseAllB R BB = BB.
Proof.
  intros R BB H. rewrite <- (app_nil_r BB) at 1. rewrite erase_prefix by assumption.
  replace (eraseAllB R []) with (@nil Instruction); [apply app_nil_r|].
  clear. induction R; [reflexivity | exact IHR].
Qed.

Lemma keys_in_block : forall l,
  Forall (fun a => In a (addrs l)) (blockMarkers l) /\
  Forall (fun p => In (fst p) (addrs l) /\ In (snd p) (addrs l)) (blockPairs l).
Proof.
  intros l. destruct (blockMarkers_sentinels l) as [H1 H2]. split.
  - eapply Forall_impl; [|exact H1]. intros a. apply SentinelOf_addr.
  - eapply Forall_impl; [|exact H2]. intros p [Ha Hb]. split; now apply SentinelOf_addr.
Qed.

Lemma keys_foreign : forall l prefix,
  (forall a, In a (addrs l) -> ~ In a (addrs prefix)) ->
  Forall (foreignPair prefix) (blockPairs l) /\
  Forall (fun a => ~ In a (addrs prefix)) (blockMarkers l).
Proof.
  intros l prefix H. destruct (keys_in_block l) as [H1 H2]. split.
  - eapply Forall_impl; [|exact H2]. intros p [Ha Hb]. split; now apply H.
  - eapply Forall_impl; [|exact H1]. intros a Ha. now apply H.
Qed.

Lemma belowFresh_addr : forall n l a, belowFresh n l -> In a (addrs l) -> a < n.
Proof.
  intros n l a H Ha. unfold addrs in Ha. apply in_map_iff in Ha.
  destruct Ha as [x [<- Hx]]. eapply belowFresh_in; eassumption.
Qed.

(** The three passes on a block whose sentinels alternate. *)
Lemma replaced_block : forall n B B' n',
  ReplacedFrom n B B' n' ->
  forall n0, NoDup (addrs B) -> belowFresh n0 B -> n0 <= n ->
  n' = n + 4 * List.length (blockPairs B) /\
  eraseAllB (blockMarkers B) (fst (fold_left pairStepB (blockPairs B) (B, n))) = B'.
Proof.
  induction 1 as [n | n n' i l l' Hi Hrep IH | n n' b mid e l l' Hb Hmid He Hrep IH];
    intros n0 Hnd Hfr Hle.
  - split; [cbn; lia | reflexivity].
  - destruct (blockPairs_plain i l Hi) as [-> ->].
    assert (Hnd' : NoDup (addrs l)) by (inversion Hnd; assumption).
    assert (Hfr' : belowFresh n0 l) by (inversion Hfr; assumption).
    destruct (IH n0 Hnd' Hfr' Hle) as [Hn' Hres]. split; [exact Hn'|].
    destruct (keys_foreign l [i]) as [HP HR].
    { intros a Ha [E|[]]. inversion Hnd; subst. congruence. }
    change (i :: l) with ([i] ++ l).
    rewrite pairs_prefix by assumption. cbn [fst].
    rewrite erase_prefix by assumption. rewrite <- Hres. reflexivity.
  - destruct (blockPairs_pair b mid e l Hb Hmid He) as [-> ->].
    assert (Hlt : forall a, In a (addrs (b :: mid ++ e :: l)) -> a < n0)
      by (intros a; apply belowFresh_addr; assumption).
    assert (Hnd_l : NoDup (addrs l)).
    { replace (b :: mid ++ e :: l) with ((b :: mid ++ [e]) ++ l) in Hnd
        by (simpl; rewrite <- app_assoc; reflexivity).
      rewrite addrs_app in Hnd. eapply NoDup_app_r; eassumption. }
    assert (Hfr_l : belowFresh n0 l).
    { unfold belowFresh in *. inversion Hfr as [|? ? _ Hfr1]; subst.
      rewrite Forall_app in Hfr1. destruct Hfr1 as [_ Hfr1]. now inversion Hfr1. }
    destruct (IH n0 Hnd_l Hfr_l ltac:(lia)) as [Hn' Hres].
    split; [cbn [List.length]; lia|].
    (* what the addresses of the block are *)
    assert (Hb_e : addr b <> addr e /\ ~ In (addr b) (addrs mid) /\ ~ In (addr e) (addrs mid)).
    { simpl in Hnd. inversion Hnd as [|? ? Hnb Hnd1]; subst.
      rewrite addrs_app in Hnb, Hnd1. simpl in Hnb, Hnd1. rewrite in_app_iff in Hnb. simpl in Hnb.
      pose proof (NoDup_remove_2 _ _ _ Hnd1) as Hne. rewrite in_app_iff in Hne.
      intuition congruence. }
    destruct Hb_e as (Hbe & Hbmid & Hemid).
    assert (Hl_out : forall a, In a (addrs l) ->
              a <> addr b /\ a <> addr e /\ ~ In a (addrs mid) /\ a < n0).
    { intros a Ha. simpl in Hnd. inversion Hnd as [|? ? Hnb Hnd1]; subst.
      rewrite addrs_app in Hnb, Hnd1. simpl in Hnb, Hnd1. rewrite in_app_iff in Hnb. simpl in Hnb.
      pose proof (NoDup_remove_2 _ _ _ Hnd1) as Hne. rewrite in_app_iff in Hne.
      repeat split.
      - intros ->. tauto.
      - intros ->. tauto.
      - intros Hin. eapply NoDup_app_disjoint; [exact Hnd1 | exact Hin | now right].
      - apply Hlt. simpl. right. rewrite addrs_app, in_app_iff. right. now right. }
    assert (Hb_lt : addr b < n0) by (apply Hlt; now left).
    assert (He_lt : addr e < n0).
    { apply Hlt. simpl. right. rewrite addrs_app, in_app_iff. right. now left. }
    assert (Hmid_lt : forall a, In a (addrs mid) -> a < n0).
    { intros a Ha. apply Hlt. simpl. right. rewrite addrs_app, in_app_iff. now left. }
    (* second pass: the pair of this block, then the pairs of the rest *)
    cbn [fold_left]. unfold pairStepB at 2. cbn [fst snd].
    rewrite insertBefore_here by reflexivity. cbn [app].
    replace (fenceAt n :: startCallAt (n + 1) :: b :: mid ++ e :: l)
      with ((fenceAt n :: startCallAt (n + 1) :: b :: mid) ++ e :: l) by reflexivity.
    rewrite insertBefore_at; [| | reflexivity].
    2:{ simpl. intuition (lia || congruence). }
    replace ((fenceAt n :: startCallAt (n + 1) :: b :: mid)
               ++ [fenceAt (n + 2); endCallAt (n + 3) (n + 1)] ++ e :: l)
      with ((fenceAt n :: startCallAt (n + 1) :: b :: mid
               ++ [fenceAt (n + 2); endCallAt (n + 3) (n + 1); e]) ++ l)
      by (simpl; rewrite <- app_assoc; reflexivity).
    destruct (keys_foreign l (fenceAt n :: startCallAt (n + 1) :: b :: mid
                                ++ [fenceAt (n + 2); endCallAt (n + 3) (n + 1); e]))
      as [HP _].
    { intros a Ha Hin. destruct (Hl_out a Ha) as (H1 & H2 & H3 & H4).
      simpl in Hin. rewrite addrs_app, in_app_iff in Hin. simpl in Hin.
      intuition lia. }
    rewrite pairs_prefix by assumption. cbn [fst].
    (* third pass: the two sentinels of this block, then those of the rest *)
    unfold eraseAllB. cbn [fold_left]. fold (eraseAllB (blockMarkers l)).
    set (X := fst (fold_left pairStepB (blockPairs l) (l, n + 4))) in *.
    replace ((fenceAt n :: startCallAt (n + 1) :: b :: mid
                ++ [fenceAt (n + 2); endCallAt (n + 3) (n + 1); e]) ++ X)
      with ([fenceAt n; startCallAt (n + 1)] ++ b :: mid
              ++ [fenceAt (n + 2); endCallAt (n + 3) (n + 1); e] ++ X)
      by (simpl; rewrite <- app_assoc; reflexivity).
    rewrite eraseFromParent_at; [| | reflexivity].
    2:{ simpl. intuition (lia || congruence). }
    replace ([fenceAt n; startCallAt (n + 1)] ++ mid
               ++ [fenceAt (n + 2); endCallAt (n + 3) (n + 1); e] ++ X)
      with ((fenceAt n :: startCallAt (n + 1) :: mid
               ++ [fenceAt (n + 2); endCallAt (n + 3) (n + 1)]) ++ e :: X)
      by (simpl; rewrite <- app_assoc; reflexivity).
    rewrite eraseFromParent_at; [| | reflexivity].
    2:{ simpl. rewrite addrs_app, in_app_iff. simpl. intuition (lia || congruence). }
    destruct (keys_foreign l (fenceAt n :: startCallAt (n + 1) :: mid
                                ++ [fenceAt (n + 2); endCallAt (n + 3) (n + 1)]))
      as [_ HR].
    { intros a Ha Hin. destruct (Hl_out a Ha) as (H1 & H2 & H3 & H4).
      simpl in Hin. rewrite addrs_app, in_app_iff in Hin. simpl in Hin.
      intuition lia. }
    rewrite erase_prefix by assumption. rewrite <- Hres.
    simpl. rewrite <- app_assoc. reflexivity.
Qed.

(** ** From the function to its blocks *)

Lemma instrumentPair_blockwise : forall bbs n pair,
  instrumentPair (bbs, n) pair
  = (map (fun B => fst (pairStepB (B, n) pair)) bbs, n + 4).
Proof.
  intros bbs n [b e]. unfold instrumentPair, insertBeforeF, pairStepB. cbn [fst snd].
  now rewrite map_map.
Qed.

Lemma secondPass_blockwise : forall P bbs n,
  fold_left instrumentPair P (bbs, n)
  = (map (fun B => fst (fold_left pairStepB P (B, n))) bbs, n + 4 * List.length P).
Proof.
  induction P as [|pair P IH]; intros bbs n.
  - cbn. rewrite map_id. f_equal. lia.
  - cbn [fold_left]. rewrite instrumentPair_blockwise, IH, map_map.
    f_equal. cbn [List.length]. lia.
Qed.

Lemma user_empty_Unused : forall a bbs, user_empty a bbs = true <-> Unused a bbs.
Proof.
  intros a bbs. unfold user_empty, Unused. rewrite negb_true_iff. split.
  - intros H B i HB Hi. destruct (uses a i) eqn:E; [|reflexivity].
    assert (existsb (existsb (uses a)) bbs = true); [|congruence].
    apply existsb_exists. exists B. split; [assumption|].
    apply existsb_exists. now exists i.
  - intros H. destruct (existsb (existsb (uses a)) bbs) eqn:E; [|reflexivity].
    apply existsb_exists in E. destruct E as (B & HB & E).
    apply existsb_exists in E. destruct E as (i & Hi & E).
    rewrite (H B i HB Hi) in E. discriminate.
Qed.

Lemma In_eraseFromParent : forall a B (i : Instruction), In i (eraseFromParent a B) -> In i B.
Proof.
  intros a B i. induction B as [|x B IH]; simpl; [auto|].
  destruct (Nat.eqb (addr x) a); simpl; intuition.
Qed.

Lemma In_insertBefore : forall a news B (i : Instruction),
  In i (insertBefore a news B) -> In i B \/ In i news.
Proof.
  intros a news B i. induction B as [|x B IH]; simpl; [auto|].
  destruct (Nat.eqb (addr x) a); simpl.
  - rewrite in_app_iff. simpl. intuition.
  - intuition.
Qed.

Lemma Inserted_mono : forall n m i, n <= m -> Inserted m i -> Inserted n i.
Proof.
  intros n m i Hle (k & Hk & H). exists k. split; [lia|].
  destruct H as [H|[H|(s & Hs & H)]]; auto. right. right. exists s. split; [lia | assumption].
Qed.

Lemma secondPass_provenance : forall P B n i,
  In i (fst (fold_left pairStepB P (B, n))) -> In i B \/ Inserted n i.
Proof.
  induction P as [|[b e] P IH]; intros B n i H; [now left|].
  cbn [fold_left] in H. unfold pairStepB at 2 in H. cbn [fst snd] in H.
  apply IH in H. destruct H as [H|H].
  - apply In_insertBefore in H. destruct H as [H|H].
    + apply In_insertBefore in H. destruct H as [H|H]; [now left|].
      right. simpl in H. destruct H as [<-|[<-|[]]].
      * exists n. split; [lia | now left].
      * exists (n + 1). split; [lia | right; now left].
    + right. simpl in H. destruct H as [<-|[<-|[]]].
      * exists (n + 2). split; [lia | now left].
      * exists (n + 3). split; [lia|]. right. right. exists (n + 1). split; [lia | reflexivity].
  - right. eapply Inserted_mono; [|exact H]. lia.
Qed.

Lemma Inserted_addr : forall n i, Inserted n i -> n <= addr i.
Proof. intros n i (k & Hk & [->|[->|(s & _ & ->)]]); simpl; lia. Qed.

Lemma Inserted_not_marker : forall n i, Inserted n i -> markerKind i = None.
Proof. intros n i (k & Hk & [->|[->|(s & _ & ->)]]); reflexivity. Qed.

Lemma secondPass_addrs : forall P B n a,
  In a (addrs (fst (fold_left pairStepB P (B, n)))) -> In a (addrs B) \/ n <= a.
Proof.
  intros P B n a H. unfold addrs in H. apply in_map_iff in H. destruct H as (i & <- & Hi).
  apply secondPass_provenance in Hi. destruct Hi as [Hi|Hi].
  - left. now apply In_addrs.
  - right. now apply Inserted_addr.
Qed.

Lemma In_eraseAllB : forall R B (i : Instruction), In i (eraseAllB R B) -> In i B.
Proof.
  induction R as [|a R IH]; intros B i H; [assumption|].
  unfold eraseAllB in *. cbn [fold_left] in H. apply IH in H.
  eapply In_eraseFromParent; eassumption.
Qed.

Lemma eraseAllB_app : forall R1 R2 B, eraseAllB (R1 ++ R2) B = eraseAllB R2 (eraseAllB R1 B).
Proof. intros. unfold eraseAllB. apply fold_left_app. Qed.

(** ** Alternating sentinels *)

Lemma markerKinds_cons_plain : forall i l,
  markerKind i = None -> markerKinds (i :: l) = markerKinds l.
Proof. intros i l H. unfold markerKinds. cbn [flat_map]. now rewrite H. Qed.

Lemma markerKinds_cons_marker : forall i k l,
  markerKind i = Some k -> markerKinds (i :: l) = k :: markerKinds l.
Proof. intros i k l H. unfold markerKinds. cbn [flat_map]. now rewrite H. Qed.

Lemma first_marker : forall l k ks,
  markerKinds l = k :: ks ->
  exists mid x rest,
    l = mid ++ x :: rest /\ Forall (fun i => markerKind i = None) mid /\
    markerKind x = Some k /\ markerKinds rest = ks.
Proof.
  induction l as [|i l IH]; intros k ks H; [discriminate|].
  destruct (markerKind i) as [k0|] eqn:Hi.
  - rewrite (markerKinds_cons_marker i k0 l Hi) in H. inversion H; subst.
    exists [], i, l. repeat split; [constructor | assumption].
  - rewrite (markerKinds_cons_plain i l Hi) in H.
    destruct (IH k ks H) as (mid & x & rest & -> & Hmid & Hx & Hrest).
    exists (i :: mid), x, rest. repeat split; try assumption. now constructor.
Qed.

Lemma balanced_replaced_len : forall len B,
  List.length B <= len -> balanced B = true ->
  forall n, exists B' n', ReplacedFrom n B B' n'.
Proof.
  induction len as [|len IH]; intros B Hlen Hbal n.
  - destruct B; [|simpl in Hlen; lia]. exists [], n. constructor.
  - destruct B as [|i l]; [exists [], n; constructor|].
    simpl in Hlen. unfold balanced in *.
    destruct (markerKind i) as [[|]|] eqn:Hi.
    + rewrite (markerKinds_cons_marker i _ l Hi) in Hbal.
      destruct (markerKinds l) as [|[|] ks] eqn:Hks; try discriminate.
      destruct (first_marker l _ _ Hks) as (mid & e & rest & -> & Hmid & He & Hrest).
      cbn [alternating] in Hbal. rewrite <- Hrest in Hbal.
      destruct (IH rest) with (n := n + 4) as (rest' & n' & Hrep); [|assumption|].
      { rewrite length_app in Hlen. simpl in Hlen. lia. }
      eexists _, n'. apply Replaced_pair; eassumption.
    + rewrite (markerKinds_cons_marker i _ l Hi) in Hbal. discriminate.
    + rewrite (markerKinds_cons_plain i l Hi) in Hbal.
      destruct (IH l) with (n := n) as (l' & n' & Hrep); [lia | assumption |].
      exists (i :: l'), n'. now apply Replaced_plain.
Qed.

Lemma balanced_replaced : forall B n,
  balanced B = true -> exists B' n', ReplacedFrom n B B' n'.
Proof. intros B n H. now apply (balanced_replaced_len (List.length B) B). Qed.

Lemma Replaced_no_marker : forall n B B' n',
  ReplacedFrom n B B' n' -> Forall (fun i => isMarker i = false) B'.
Proof.
  induction 1 as [n | n n' i l l' Hi Hrep IH | n n' b mid e l l' Hb Hmid He Hrep IH].
  - constructor.
  - constructor; [|assumption]. unfold isMarker. now rewrite Hi.
  - constructor; [reflexivity|]. constructor; [reflexivity|].
    apply Forall_app. split.
    + eapply Forall_impl; [|exact Hmid]. intros a Ha. unfold isMarker. now rewrite Ha.
    + constructor; [reflexivity|]. constructor; [reflexivity | assumption].
Qed.

(** ** One block of a function *)

Lemma keys_in_blocks : forall l,
  Forall (fun p => In (fst p) (addrs (List.concat l)) /\ In (snd p) (addrs (List.concat l)))
         (List.concat (map blockPairs l)) /\
  Forall (fun a => In a (addrs (List.concat l))) (List.concat (map blockMarkers l)).
Proof.
  induction l as [|B l [IH1 IH2]]; [split; constructor|].
  destruct (keys_in_block B) as [H1 H2].
  cbn [map List.concat]. rewrite addrs_app. split; apply Forall_app; split.
  - eapply Forall_impl; [|exact H2]. intros p [Ha Hb].
    rewrite !in_app_iff. auto.
  - eapply Forall_impl; [|exact IH1]. intros p [Ha Hb].
    rewrite !in_app_iff. auto.
  - eapply Forall_impl; [|exact H1]. intros a Ha. rewrite in_app_iff. auto.
  - eapply Forall_impl; [|exact IH2]. intros a Ha. rewrite in_app_iff. auto.
Qed.

Lemma belowFresh_concat : forall n l a,
  Forall (belowFresh n) l -> In a (addrs (List.concat l)) -> a < n.
Proof.
  intros n l a H Ha. unfold addrs in Ha. apply in_map_iff in Ha.
  destruct Ha as (i & <- & Hi). apply in_concat in Hi. destruct Hi as (B & HB & Hi).
  rewrite Forall_forall in H. eapply belowFresh_in; [apply H|]; eassumption.
Qed.

Lemma eraseFromParent_map : forall (f : Instruction -> Instruction) a B,
  (forall i, addr (f i) = addr i) ->
  eraseFromParent a (map f B) = map f (eraseFromParent a B).
Proof.
  intros f a B Hf. induction B as [|x B IH]; [reflexivity|].
  cbn [map eraseFromParent]. rewrite Hf. destruct (Nat.eqb (addr x) a); [reflexivity|].
  cbn [map]. now rewrite IH.
Qed.

Lemma eraseAllB_map : forall (f : Instruction -> Instruction) R B,
  (forall i, addr (f i) = addr i) ->
  eraseAllB R (map f B) = map f (eraseAllB R B).
Proof.
  intros f R. induction R as [|a R IH]; intros B Hf; [reflexivity|].
  unfold eraseAllB in *. cbn [fold_left]. rewrite eraseFromParent_map by assumption.
  now apply IH.
Qed.

Lemma replaceValue_unused : forall a new v, isValueOf a v = false -> replaceValue a new v = v.
Proof. intros a new v H. unfold replaceValue. now rewrite H. Qed.

Lemma replaceUses_unused : forall a new i, uses a i = false -> replaceUses a new i = i.
Proof.
  intros a new [ad op co ops o md dl] H. unfold uses in H. cbn [operands calledOperand] in H.
  apply orb_false_iff in H. destruct H as [Hops Hco].
  unfold replaceUses. cbn [addr opcode calledOperand operands ordering metadata debugLoc].
  f_equal.
  - destruct co as [[nm|asm c s|v]|]; try reflexivity.
    now rewrite replaceValue_unused.
  - rewrite <- (map_id ops) at 2. apply map_ext_in. intros v Hv.
    apply replaceValue_unused. destruct (isValueOf a v) eqn:E; [|reflexivity].
    assert (existsb (isValueOf a) ops = true); [|congruence].
    apply existsb_exists. now exists v.
Qed.

Lemma hasParent_In : forall a bbs,
  hasParent a bbs = true <-> In a (addrs (List.concat bbs)).
Proof.
  intros a bbs. unfold hasParent. split.
  - intros H. apply existsb_exists in H. destruct H as (B & HB & H).
    apply existsb_exists in H. destruct H as (i & Hi & E). apply Nat.eqb_eq in E. subst a.
    apply In_addrs. apply in_concat. now exists B.
  - intros H. unfold addrs in H. apply in_map_iff in H. destruct H as (i & <- & Hi).
    apply in_concat in Hi. destruct Hi as (B & HB & Hi).
    apply existsb_exists. exists B. split; [assumption|].
    apply existsb_exists. exists i. split; [assumption | apply Nat.eqb_refl].
Qed.

Lemma removeMarker_step : forall a bbs,
  hasParent a bbs = true ->
  removeMarker bbs a
  = map (fun B => map (replaceUses a VUndef) (eraseFromParent a B)) bbs.
Proof.
  intros a bbs H. unfold removeMarker. rewrite H.
  destruct (user_empty a bbs) eqn:E; cbn [negb].
  - apply map_ext_in. intros B HB. rewrite <- (map_id (eraseFromParent a B)) at 1.
    apply map_ext_in. intros i Hi. symmetry. apply replaceUses_unused.
    apply user_empty_Unused in E. apply (E B i HB). eapply In_eraseFromParent; eassumption.
  - unfold replaceAllUsesWith. rewrite map_map. apply map_ext. intros B.
    now apply eraseFromParent_map.
Qed.

Lemma dropsValue_cons : forall a R v,
  dropsValue (a :: R) v = dropsValue R (replaceValue a VUndef v).
Proof.
  intros a R v. unfold dropsValue, replaceValue. cbn [existsb].
  destruct (isValueOf a v); cbn [orb]; [|reflexivity].
  replace (existsb (fun a0 => isValueOf a0 VUndef) R) with false; [reflexivity|].
  symmetry. induction R; [reflexivity | exact IHR].
Qed.

Lemma undefUses_cons : forall a R i,
  undefUses (a :: R) i = undefUses R (replaceUses a VUndef i).
Proof.
  intros a R i. unfold undefUses, replaceUses.
  cbn [addr opcode calledOperand operands ordering metadata debugLoc]. f_equal.
  - destruct (calledOperand i) as [[nm|asm c s|v]|]; try reflexivity.
    now rewrite dropsValue_cons.
  - rewrite map_map. apply map_ext. intros v. apply dropsValue_cons.
Qed.

Lemma undefUses_nil : forall i, undefUses [] i = i.
Proof.
  intros [ad op co ops o md dl]. unfold undefUses.
  cbn [addr opcode calledOperand operands ordering metadata debugLoc]. f_equal.
  - destruct co as [[nm|asm c s|v]|]; reflexivity.
  - rewrite <- (map_id ops) at 2. apply map_ext. reflexivity.
Qed.

Lemma undefUses_markerKind : forall R i, markerKind (undefUses R i) = markerKind i.
Proof.
  intros R i. unfold markerKind, inlineAsmOfCallBase, undefUses. cbn [opcode calledOperand].
  destruct (isCallBaseOp (opcode i)); [|reflexivity].
  destruct (calledOperand i) as [[nm|asm c s|v]|]; reflexivity.
Qed.

Lemma In_addrs_eraseFromParent : forall a b B,
  In b (addrs B) -> b <> a -> In b (addrs (eraseFromParent a B)).
Proof.
  intros a b B. induction B as [|x B IH]; intros H Hne; [contradiction|].
  cbn [eraseFromParent]. destruct (Nat.eqb_spec (addr x) a) as [E|E].
  - destruct H as [H|H]; [cbn in H; congruence | exact H].
  - destruct H as [H|H]; [now left | right; now apply IH].
Qed.

(** The third pass, whatever uses the sentinels have: each marker is
    unlinked, and its users read undef. *)
Lemma thirdPass_general : forall R bbs,
  NoDup R -> (forall a, In a R -> In a (addrs (List.concat bbs))) ->
  fold_left removeMarker R bbs
  = map (fun B => map (undefUses R) (eraseAllB R B)) bbs.
Proof.
  induction R as [|a R IH]; intros bbs Hnd Hin.
  - cbn [fold_left]. rewrite <- (map_id bbs) at 1. apply map_ext. intros B.
    cbn. rewrite <- (map_id B) at 1. apply map_ext. intros i. symmetry. apply undefUses_nil.
  - inversion Hnd as [|? ? Hna HndR]; subst.
    cbn [fold_left]. rewrite removeMarker_step by (apply hasParent_In, Hin; now left).
    rewrite IH; [|assumption|].
    + rewrite map_map. apply map_ext. intros B.
      rewrite eraseAllB_map by reflexivity. rewrite map_map.
      unfold eraseAllB. cbn [fold_left]. apply map_ext. intros i.
      symmetry. apply undefUses_cons.
    + intros b Hb. specialize (Hin b (or_intror Hb)).
      assert (Hne : b <> a) by (intros ->; contradiction).
      unfold addrs in *. apply in_map_iff in Hin. destruct Hin as (i & <- & Hi).
      apply in_concat in Hi. destruct Hi as (B & HB & Hi).
      assert (H1 : In (addr i) (addrs (eraseFromParent a B))).
      { apply In_addrs_eraseFromParent; [now apply In_addrs | assumption]. }
      unfold addrs in H1. apply in_map_iff in H1. destruct H1 as (j & Ej & Hj).
      apply in_map_iff. exists (replaceUses a VUndef j). split; [exact Ej|].
      apply in_concat. exists (map (replaceUses a VUndef) (eraseFromParent a B)).
      split; [|now apply in_map].
      apply in_map_iff. now exists B.
Qed.

Lemma plain_no_marker : forall l,
  Forall (fun i => markerKind i = None) l -> filter isMarker l = [].
Proof.
  intros l H. induction H as [|x l Hx _ IH]; [reflexivity|].
  cbn [filter]. unfold isMarker at 1. now rewrite Hx.
Qed.

(** Under alternation the markers the first pass records are the sentinels
    of the block, in order. *)
Lemma replaced_markers : forall n B B' n',
  ReplacedFrom n B B' n' -> blockMarkers B = addrs (filter isMarker B).
Proof.
  induction 1 as [n | n n' i l l' Hi Hrep IH | n n' b mid e l l' Hb Hmid He Hrep IH].
  - reflexivity.
  - destruct (blockPairs_plain i l Hi) as [_ ->]. cbn [filter]. unfold isMarker at 1.
    rewrite Hi. exact IH.
  - destruct (blockPairs_pair b mid e l Hb Hmid He) as [_ ->].
    cbn [filter]. unfold isMarker at 1. rewrite Hb. cbn [isSome addrs map].
    rewrite filter_app. cbn [filter]. unfold isMarker at 2. rewrite He. cbn [isSome].
    rewrite (plain_no_marker mid Hmid). cbn [app map]. now rewrite IH.
Qed.

Lemma markers_are_sentinels : forall bbs,
  Forall (fun B => balanced B = true) bbs ->
  List.concat (map blockMarkers bbs) = addrs (filter isMarker (List.concat bbs)).
Proof.
  induction 1 as [|B bbs HB _ IH]; [reflexivity|].
  cbn [map List.concat]. rewrite filter_app, addrs_app, IH. f_equal.
  destruct (balanced_replaced B 0 HB) as (B' & n' & Hrep).
  eapply replaced_markers; eassumption.
Qed.

Lemma NoDup_addrs_filter : forall (p : Instruction -> bool) l,
  NoDup (addrs l) -> NoDup (addrs (filter p l)).
Proof.
  intros p l. induction l as [|x l IH]; intros H; [constructor|].
  inversion H as [|? ? Hx Hl]; subst. cbn [filter]. destruct (p x); [|now apply IH].
  cbn [addrs map]. constructor; [|now apply IH].
  intros Hin. apply Hx. unfold addrs in *. apply in_map_iff in Hin.
  destruct Hin as (y & E & Hy). apply filter_In in Hy. apply in_map_iff. exists y. tauto.
Qed.

Lemma In_addrs_filter : forall (p : Instruction -> bool) l a,
  In a (addrs (filter p l)) -> In a (addrs l).
Proof.
  intros p l a H. unfold addrs in *. apply in_map_iff in H. destruct H as (y & E & Hy).
  apply filter_In in Hy. apply in_map_iff. exists y. tauto.
Qed.

Lemma insertBefore_keeps : forall a news B (i : Instruction),
  In i B -> In i (insertBefore a news B).
Proof.
  intros a news B i. induction B as [|x B IH]; intros H; [contradiction|].
  cbn [insertBefore]. destruct (Nat.eqb (addr x) a).
  - apply in_or_app. right. exact H.
  - destruct H as [H|H]; [now left | right; now apply IH].
Qed.

Lemma secondPass_retains : forall P B n (i : Instruction),
  In i B -> In i (fst (fold_left pairStepB P (B, n))).
Proof.
  induction P as [|p P IH]; intros B n i H; [exact H|].
  cbn [fold_left]. unfold pairStepB at 2. cbn [fst snd]. apply IH.
  now do 2 apply insertBefore_keeps.
Qed.

(** The created instructions name no sentinel, so the substitution passes
    through the relation. *)
Lemma ReplacedFrom_undefUses : forall R n B B' n',
  ReplacedFrom n B B' n' -> (forall a, In a R -> a < n) ->
  ReplacedFrom n (map (undefUses R) B) (map (undefUses R) B') n'.
Proof.
  intros R n B B' n' H.
  induction H as [n | n n' i l l' Hi Hrep IH | n n' b mid e l l' Hb Hmid He Hrep IH];
    intros HR.
  - constructor.
  - cbn [map]. apply Replaced_plain; [now rewrite undefUses_markerKind | now apply IH].
  - cbn [map]. rewrite !map_app. cbn [map].
    assert (Hend : undefUses R (endCallAt (n + 3) (n + 1)) = endCallAt (n + 3) (n + 1)).
    { unfold undefUses, endCallAt, CreateCall.
      cbn [addr opcode calledOperand operands ordering metadata debugLoc map].
      f_equal. f_equal. unfold dropsValue.
      replace (existsb (fun a => isValueOf a (VInst (n + 1))) R) with false; [reflexivity|].
      symmetry. apply not_true_is_false. intros E. apply existsb_exists in E.
      destruct E as (a & Ha & E). cbn in E. apply Nat.eqb_eq in E.
      specialize (HR a Ha). lia. }
    rewrite Hend.
    change (undefUses R (fenceAt n)) with (fenceAt n).
    change (undefUses R (startCallAt (n + 1))) with (startCallAt (n + 1)).
    change (undefUses R (fenceAt (n + 2))) with (fenceAt (n + 2)).
    apply Replaced_pair.
    + now rewrite undefUses_markerKind.
    + rewrite Forall_map. eapply Forall_impl; [|exact Hmid].
      intros x Hx. now rewrite undefUses_markerKind.
    + now rewrite undefUses_markerKind.
    + apply IH. intros a Ha. specialize (HR a Ha). lia.
Qed.

Lemma block_of_function : forall l1 B l2 n,
  NoDup (addrs (List.concat (l1 ++ B :: l2))) ->
  Forall (belowFresh n) (l1 ++ B :: l2) ->
  balanced B = true ->
  exists k k',
    n <= k /\
    ReplacedFrom k B
      (eraseAllB (List.concat (map blockMarkers (l1 ++ B :: l2)))
         (fst (fold_left pairStepB (List.concat (map blockPairs (l1 ++ B :: l2))) (B, n))))
      k'.
Proof.
  intros l1 B l2 n Hnd Hfr Hbal.
  rewrite !map_app, !concat_app. cbn [map List.concat].
  rewrite concat_app in Hnd. cbn [List.concat] in Hnd. rewrite !addrs_app in Hnd.
  apply Forall_app in Hfr. destruct Hfr as [Hfr1 Hfr2].
  inversion Hfr2 as [|? ? HfrB Hfr2']; subst.
  destruct (keys_in_blocks l1) as [HP1 HR1]. destruct (keys_in_blocks l2) as [HP2 HR2].
  assert (Hout1 : forall a, In a (addrs (List.concat l1)) -> ~ In a (addrs B) /\ a < n).
  { intros a Ha. split; [|exact (belowFresh_concat n l1 a Hfr1 Ha)].
    intros HaB. eapply NoDup_app_disjoint; [exact Hnd | exact Ha |].
    apply in_or_app. now left. }
  assert (Hout2 : forall a, In a (addrs (List.concat l2)) -> ~ In a (addrs B) /\ a < n).
  { intros a Ha. split; [|exact (belowFresh_concat n l2 a Hfr2' Ha)].
    intros HaB. apply NoDup_app_r in Hnd.
    eapply NoDup_app_disjoint; [exact Hnd | exact HaB | exact Ha]. }
  set (P1 := List.concat (map blockPairs l1)) in *.
  set (P2 := List.concat (map blockPairs l2)) in *.
  set (R1 := List.concat (map blockMarkers l1)) in *.
  set (R2 := List.concat (map blockMarkers l2)) in *.
  set (n1 := n + 4 * List.length P1).
  destruct (balanced_replaced B n1 Hbal) as (B' & n' & Hrep).
  destruct (replaced_block n1 B B' n' Hrep n) as [Hn' Hres].
  { apply NoDup_app_r in Hnd. eapply NoDup_app_l; eassumption. }
  { assumption. }
  { unfold n1. lia. }
  exists n1, n'. split; [unfold n1; lia|].
  (* second pass *)
  rewrite !fold_left_app.
  rewrite (pairs_foreign P1 B n).
  2:{ eapply Forall_impl; [|exact HP1]. intros p [Ha Hb]. split; now apply Hout1. }
  fold n1.
  set (st := fold_left pairStepB (blockPairs B) (B, n1)) in *.
  assert (Hst : st = (fst st, snd st)) by (destruct st; reflexivity).
  assert (HB2 : forall a, (In a (addrs (List.concat l1)) \/ In a (addrs (List.concat l2))) ->
                          ~ In a (addrs (fst st))).
  { intros a Ha Hin. unfold st in Hin. apply secondPass_addrs in Hin.
    destruct Ha as [Ha|Ha]; [destruct (Hout1 a Ha) | destruct (Hout2 a Ha)];
      destruct Hin; unfold n1 in *; try tauto; lia. }
  rewrite Hst, (pairs_foreign P2).
  2:{ eapply Forall_impl; [|exact HP2]. intros p [Ha Hb]. split; apply HB2; auto. }
  cbn [fst].
  (* third pass *)
  rewrite !eraseAllB_app.
  rewrite (erase_foreign R1).
  2:{ eapply Forall_impl; [|exact HR1]. intros a Ha. apply HB2; auto. }
  fold st in Hres. rewrite Hres.
  rewrite (erase_foreign R2); [exact Hrep|].
  eapply Forall_impl; [|exact HR2]. intros a Ha Hin.
  apply (HB2 a (or_intror Ha)). rewrite <- Hres in Hin.
  unfold addrs in *. apply in_map_iff in Hin. destruct Hin as (i & <- & Hi).
  apply in_map. eapply In_eraseAllB; eassumption.
Qed.

(** ** The function *)

Lemma collect_markers_of_pairs : forall l cur P R,
  R = flat_map pairAddrs P ->
  match fold_left collectStep l (cur, P, R) with
  | (_, P', R') => R' = flat_map pairAddrs P'
  end.
Proof.
  induction l as [|i l IH]; intros cur P R H; [exact H|].
  cbn [fold_left]. unfold collectStep.
  destruct (inlineAsmOfCallBase i) as [asm|]; [|now apply IH].
  destruct (String.eqb asm UNSAFE_MARKER_BEGIN).
  - destruct cur; now apply IH.
  - destruct (String.eqb asm UNSAFE_MARKER_END); [|now apply IH].
    destruct cur as [b0|]; [|now apply IH].
    apply IH. rewrite flat_map_app, H. reflexivity.
Qed.

Lemma blockMarkers_of_pairs : forall B, blockMarkers B = flat_map pairAddrs (blockPairs B).
Proof.
  intros B. unfold blockMarkers, blockPairs, collectBlock. cbn [fst snd].
  pose proof (collect_markers_of_pairs B None [] [] eq_refl) as H.
  destruct (fold_left collectStep B (None, [], [])) as [[c P] R]. exact H.
Qed.

Lemma markers_of_pairs : forall bbs,
  List.concat (map blockMarkers bbs) = flat_map pairAddrs (List.concat (map blockPairs bbs)).
Proof.
  induction bbs as [|B bbs IH]; [reflexivity|].
  cbn [map List.concat]. now rewrite flat_map_app, IH, blockMarkers_of_pairs.
Qed.

Lemma Forall2_map_in : forall (A B : Type) (R : A -> B -> Prop) (f : A -> B) l,
  (forall a, In a l -> R a (f a)) -> Forall2 R l (map f l).
Proof.
  intros A B R f l H. induction l as [|a l IH]; simpl; constructor.
  - apply H. now left.
  - apply IH. intros. apply H. now right.
Qed.

Lemma setBlocks_same : forall F, setBlocks (blocks F) F = F.
Proof. intros []. reflexivity. Qed.

Lemma instrument_function : forall F n,
  cycleReady n F ->
  exists changed F' n',
    instrumentUnsafeBlocks F n = (changed, F', n') /\ n <= n' /\ CycleInstrumented F F'.
Proof.
  intros F n (Hu & Hfr & Hbal).
  unfold instrumentUnsafeBlocks. rewrite collectMarkers_concat.
  set (P := List.concat (map blockPairs (blocks F))).
  set (R := List.concat (map blockMarkers (blocks F))).
  assert (ER : R = sentinelAddrs F) by (now apply markers_are_sentinels).
  assert (HRlt : forall a, In a R -> a < n).
  { intros a Ha. rewrite ER in Ha. eapply belowFresh_concat; [exact Hfr|].
    eapply In_addrs_filter; exact Ha. }
  set (h := fun B => map (undefUses R) (eraseAllB R (fst (fold_left pairStepB P (B, n))))).
  assert (Hh : Forall2 (fun B B' => exists k k', ReplacedFrom k (map (undefUses R) B) B' k')
                       (blocks F) (map h (blocks F))).
  { apply Forall2_map_in. intros B HB.
    destruct (in_split _ _ HB) as (l1 & l2 & E).
    destruct (block_of_function l1 B l2 n) as (k & k' & Hk & Hrep).
    - rewrite <- E. exact Hu.
    - rewrite <- E. exact Hfr.
    - rewrite Forall_forall in Hbal. now apply Hbal.
    - exists k, k'. unfold h, P, R. rewrite E. apply ReplacedFrom_undefUses; [exact Hrep|].
      rewrite <- E. intros a Ha. specialize (HRlt a Ha). lia. }
  destruct P as [|p P'] eqn:HP.
  - exists false, F, n. split; [reflexivity|]. split; [lia|]. split; [reflexivity|].
    assert (HR : R = []) by (unfold R; rewrite markers_of_pairs; fold P; now rewrite HP).
    rewrite <- ER.
    replace (blocks F) with (map h (blocks F)) at 2; [exact Hh|].
    rewrite <- (map_id (blocks F)) at 2. apply map_ext. intros B. unfold h. rewrite HR.
    cbn. rewrite <- (map_id B) at 2. apply map_ext. intros i. apply undefUses_nil.
  - rewrite secondPass_blockwise.
    rewrite thirdPass_general.
    + rewrite map_map.
      exists true, (setBlocks (map h (blocks F)) F), (n + 4 * List.length (p :: P')).
      split; [reflexivity|]. split; [lia|]. split; [reflexivity|]. rewrite <- ER. exact Hh.
    + fold R. rewrite ER. unfold sentinelAddrs. apply NoDup_addrs_filter. exact Hu.
    + fold R. intros a Ha. rewrite ER in Ha. apply In_addrs_filter in Ha.
      unfold addrs in *. apply in_map_iff in Ha. destruct Ha as (i & <- & Hi).
      apply in_concat in Hi. destruct Hi as (B & HB & Hi).
      apply in_map. apply in_concat.
      exists (fst (fold_left pairStepB (p :: P') (B, n))). split.
      * apply in_map_iff. now exists B.
      * now apply secondPass_retains.
Qed.

(** ** The module *)

Lemma cycleReady_mono : forall n m F, n <= m -> cycleReady n F -> cycleReady m F.
Proof.
  intros n m F Hle (Hu & Hfr & Hbal). repeat split; try assumption.
  unfold freshFor in *. eapply Forall_impl; [|exact Hfr].
  intros B HB. eapply belowFresh_mono; eassumption.
Qed.

Lemma CycleInstrumented_declaration : forall F, isDeclaration F = true -> CycleInstrumented F F.
Proof.
  intros F H. split; [reflexivity|]. unfold isDeclaration in H.
  destruct (blocks F); [constructor | discriminate].
Qed.

Lemma instrumentFunctions_spec : forall fs Modified n,
  Forall (cycleReady n) fs ->
  exists fs' m n',
    instrumentFunctions fs Modified n = (fs', m, n') /\ Forall2 CycleInstrumented fs fs'.
Proof.
  induction fs as [|F fs IH]; intros Modified n H.
  - exists [], Modified, n. split; [reflexivity | constructor].
  - inversion H as [|? ? HF Hfs]; subst. cbn [instrumentFunctions].
    destruct (isDeclaration F) eqn:Hd.
    + destruct (IH Modified n Hfs) as (fs' & m & n' & -> & Hall).
      exists (F :: fs'), m, n'. split; [reflexivity|].
      constructor; [now apply CycleInstrumented_declaration | exact Hall].
    + destruct (instrument_function F n HF) as (changed & F' & n1 & -> & Hle & HCI).
      destruct (IH (if changed then true else Modified) n1) as (fs' & m & n' & -> & Hall).
      { eapply Forall_impl; [|exact Hfs]. intros G. now apply cycleReady_mono. }
      exists (F' :: fs'), m, n'. split; [reflexivity | now constructor].
Qed.





Lemma getOrInsertFunction_lists : forall name M,
  global_ctors (getOrInsertFunction name M) = global_ctors M /\
  global_dtors (getOrInsertFunction name M) = global_dtors M.
Proof.
  intros name M. unfold getOrInsertFunction.
  destruct (lookupFunction name (functions M)); split; reflexivity.
Qed.

Lemma getOrInsertFunction_spec : forall name M,
  exists ds,
    functions (getOrInsertFunction name M) = functions M ++ ds /\
    Forall (fun D => blocks D = []) ds /\
    global_ctors (getOrInsertFunction name M) = global_ctors M /\
    global_dtors (getOrInsertFunction name M) = global_dtors M.
Proof.
  intros name M. unfold getOrInsertFunction.
  destruct (lookupFunction name (functions M)).
  - exists []. rewrite app_nil_r. repeat split. constructor.
  - exists [declaration name]. repeat split. repeat constructor.
Qed.

Lemma setupRuntimeFunctions_spec : forall M,
  exists ds,
    functions (setupRuntimeFunctions M) = functions M ++ ds /\
    Forall (fun D => blocks D = []) ds /\
    global_ctors (setupRuntimeFunctions M) = global_ctors M /\
    global_dtors (setupRuntimeFunctions M) = global_dtors M.
Proof.
  intros M. unfold setupRuntimeFunctions.
  destruct (getOrInsertFunction_spec PROGRAM_START_FN M) as (d1 & E1 & D1 & C1 & T1).
  set (M1 := getOrInsertFunction PROGRAM_START_FN M) in *.
  destruct (getOrInsertFunction_spec START_MEASUREMENT_FN M1) as (d2 & E2 & D2 & C2 & T2).
  set (M2 := getOrInsertFunction START_MEASUREMENT_FN M1) in *.
  destruct (getOrInsertFunction_spec END_MEASUREMENT_FN M2) as (d3 & E3 & D3 & C3 & T3).
  set (M3 := getOrInsertFunction END_MEASUREMENT_FN M2) in *.
  destruct (getOrInsertFunction_spec PRINT_STATS_FN M3) as (d4 & E4 & D4 & C4 & T4).
  exists (d1 ++ d2 ++ d3 ++ d4). split.
  - rewrite E4, E3, E2, E1. now rewrite <- !app_assoc.
  - split; [rewrite !Forall_app; auto|]. split; congruence.
Qed.

Lemma cycleReady_declaration : forall n D, blocks D = [] -> cycleReady n D.
Proof.
  intros n D H. unfold cycleReady, uniqueAddrs, freshFor. rewrite H.
  repeat split; constructor.
Qed.

Lemma cycleReady_Ctor : forall n, cycleReady (n + 2) (Ctor n).
Proof.
  intros n. unfold cycleReady, uniqueAddrs, freshFor. cbn [blocks Ctor].
  repeat split.
  - simpl. repeat constructor; simpl; intuition lia.
  - repeat constructor; simpl; lia.
  - repeat constructor.
Qed.

Lemma no_sentinel_count : forall fs,
  (forall F B, In F fs -> In B (blocks F) -> Forall (fun i => isMarker i = false) B) ->
  List.length (filter isMarker (List.concat (flat_map blocks fs))) = 0.
Proof.
  intros fs H.
  assert (Hall : Forall (fun i => isMarker i = false) (List.concat (flat_map blocks fs))).
  { apply Forall_forall. intros i Hi. apply in_concat in Hi. destruct Hi as (B & HB & Hi).
    apply in_flat_map in HB. destruct HB as (F & HF & HB).
    specialize (H F B HF HB). rewrite Forall_forall in H. now apply H. }
  induction Hall as [|i l Hi Hl IH]; [reflexivity|]. cbn [filter]. now rewrite Hi.
Qed.

Lemma CycleInstrumented_no_sentinel : forall F F' B',
  CycleInstrumented F F' -> In B' (blocks F') -> Forall (fun i => isMarker i = false) B'.
Proof.
  intros F F' B' [_ H] HB'. induction H as [|B B1 l l' (k & k' & HR) H IH]; [contradiction|].
  destruct HB' as [<-|HB']; [|now apply IH]. eapply Replaced_no_marker; eassumption.
Qed.

(** C5, as the code has it: on a primary build, when the sentinels of every
    block alternate begin, end, ... and end closed, as MarkerPlanter leaves
    them, no sentinel is left anywhere in the module after CycleCounter, and
    where each begin/end pair stood there stand a sequentially consistent
    fence with the start call and a fence with the end call fed the start
    call's value; an instruction that used the value of a sentinel uses
    undef.  (A sentinel without its partner in its own block is left in
    place.) *)
Theorem C5_sentinels_give_way : forall env M n,
  isPrimaryPackage env = true ->
  Forall (cycleReady n) (functions M) ->
  exists pa M' n' fs' extra,
    run env M n = (pa, M', n') /\
    functions M' = fs' ++ extra /\
    Forall2 CycleInstrumented (functions M) fs' /\
    sentinelCount M' = 0.
Proof.
  intros env M n Henv Hready. unfold run. rewrite Henv. cbn [negb]. cbv zeta.
  destruct (setupRuntimeFunctions_spec M) as (ds & Efs & Hds & _ & _).
  unfold setupModuleHooks.
  set (M2 := appendToGlobalDtors PRINT_STATS_FN 0
               (appendToGlobalCtors "cpu_cycle_ctor" 0
                  (addFunction (Ctor n) (setupRuntimeFunctions M)))).
  assert (E2 : functions M2 = functions M ++ (ds ++ [Ctor n])).
  { unfold M2. cbn [functions appendToGlobalDtors appendToGlobalCtors addFunction setFunctions].
    rewrite Efs. now rewrite <- app_assoc. }
  destruct (instrumentFunctions_spec (functions M2) false (n + 2))
    as (fsAll & m & n' & Hif & Hall).
  { rewrite E2. rewrite !Forall_app. split; [|split].
    - eapply Forall_impl; [|exact Hready]. intros F. apply cycleReady_mono. lia.
    - eapply Forall_impl; [|exact Hds]. intros D. apply cycleReady_declaration.
    - constructor; [apply cycleReady_Ctor | constructor]. }
  rewrite Hif.
  pose proof Hall as Hall'. rewrite E2 in Hall'.
  apply Forall2_app_inv_l in Hall'. destruct Hall' as (fs' & extra & HA & HB & ->).
  exists (if m then PA_none else PA_all), (setFunctions (fs' ++ extra) M2), n', fs', extra.
  split; [reflexivity|]. split; [reflexivity|]. split; [exact HA|].
  unfold sentinelCount. cbn [functions setFunctions]. apply no_sentinel_count.
  intros F' B' HF' HB'.
  destruct (In_nth_error _ _ HF') as (j & Hj).
  assert (exists F, CycleInstrumented F F') as (F & HCI).
  { clear - Hall Hj. revert j Hj. induction Hall as [|x y l l' Hxy Hl IH]; intros j Hj.
    - destruct j; discriminate.
    - destruct j as [|j]; simpl in Hj.
      + inversion Hj; subst. now exists x.
      + now apply (IH j). }
  eapply CycleInstrumented_no_sentinel; eassumption.
Qed.

Lemma C5_witness :
  exists pa M' n' fs' extra,
    run Samples.primary (Samples.moduleOf [Samples.fnRegions; Samples.fnUsedSentinel]) 20
      = (pa, M', n') /\
    functions M' = fs' ++ extra /\
    Forall2 CycleInstrumented
      (functions (Samples.moduleOf [Samples.fnRegions; Samples.fnUsedSentinel])) fs' /\
    sentinelCount M' = 0.
Proof.
  apply (C5_sentinels_give_way Samples.primary
           (Samples.moduleOf [Samples.fnRegions; Samples.fnUsedSentinel]) 20).
  - reflexivity.
  - constructor; [|constructor; [|constructor]];
      unfold cycleReady, uniqueAddrs, freshFor; repeat split.
    + simpl. repeat constructor; simpl; intuition discriminate.
    + repeat constructor.
    + repeat constructor.
    + simpl. repeat constructor; simpl; intuition discriminate.
    + repeat constructor.
    + repeat constructor.
Defined.

(** C5 as stated fails where a region's block was split after planting: the
    begin and the end sit in different blocks, find no partner, and both are
    still there after the pass. *)
Lemma C5_counterexample :
  sentinelCount (snd (fst (run Samples.primary (Samples.moduleOf [Samples.fnSplitRegion]) 20)))
  = 2.
Proof. reflexivity. Qed.



End CpuCycleCountProofs.

Module SelectorProofs.
Import IR Samples.

Lemma not_primary_unset : isPrimaryPackage None = false.
Proof. reflexivity. Qed.

Lemma not_primary_zero : isPrimaryPackage (Some "0") = false.
Proof. reflexivity. Qed.

(** The six passes that test the variable hand their input back. *)
Lemma gated_passes_identity : forall env M F n,
  isPrimaryPackage env = false ->
  InstMarker.run env F n = Some (PA_all, F, n) /\
  UnsafeFunctionTracker.run env M n = Some (PA_all, M, n) /\
  UnsafeInstCounter.run env M F n = Some (PA_all, M, F, n) /\
  CpuCycleCount.run env M n = (PA_all, M, n) /\
  ExternalCallTracker.run env M n = (PA_all, M, n) /\
  HeapTracker.run env M F n = (PA_all, M, F, n).
Proof.
  intros env M F n H.
  unfold InstMarker.run, UnsafeFunctionTracker.run, UnsafeInstCounter.run,
    CpuCycleCount.run, ExternalCallTracker.run, HeapTracker.run.
  rewrite H. cbn. repeat split; reflexivity.
Qed.

(** C1.  With CARGO_PRIMARY_PACKAGE unset, the DebugInfoAnchor pass and the
    DynamicLineCount pass do not leave the empty module as it was: the first
    adds the anchor global and its entry in the compiler-used set, the
    second declares its three runtime functions.  Both report that all
    analyses are preserved.  Neither pass reads the variable. *)
Theorem C1_ungated_passes_change_module :
  isPrimaryPackage None = false /\
  DebugInfoPreserver.run emptyModule 0 =
    (PA_all,
     mkModule []
       [mkGlobalVariable 0 "__unsafe_coverage_anchor" false InternalLinkage (InitInt 8 0)
          None []]
       [] [] [0],
     1) /\
  DynamicLineCount.run emptyModule 0 =
    Some (PA_all,
          moduleOf [declaration "register_unsafe_line";
                    declaration "track_unsafe_line_execution";
                    declaration "print_unsafe_coverage_stats"],
          0).
Proof. split; [|split]; reflexivity. Qed.

End SelectorProofs.

Module ExternalCallTrackerProofs.
Import IR Samples ExternalCallTracker.

(** A call to a function with one of the three tested prefixes is not
    collected. *)
Lemma runtime_call_not_collected : forall M Inst CalledFn,
  getCalledFunction M Inst = Some CalledFn ->
  isRuntimeFunction (fname CalledFn) = true ->
  isExternalCall M Inst = false.
Proof.
  intros M Inst CalledFn Hc Hr. unfold isExternalCall. rewrite Hc, Hr.
  destruct (negb (isDeclaration CalledFn) || isIntrinsic CalledFn); reflexivity.
Qed.

(** The helpers of the other passes pass the name test. *)
Lemma other_helpers_not_runtime :
  Forall (fun name => isRuntimeFunction name = false)
    ["__unsafe_record_block"; "__unsafe_record_function"; "__unsafe_init_metadata";
     "__unsafe_dump_stats"; "dyn_mem_access"; "dyn_unsafe_mem_access";
     "register_unsafe_line"; "track_unsafe_line_execution";
     "print_unsafe_coverage_stats"].
Proof. repeat constructor. Qed.

(** C2.  ExternalCallTracker on a primary build wraps a call to the declared
    helper [__unsafe_record_block]: a fence and [external_call_start] in
    front of it, a fence and [external_call_end] behind it, and the pass
    reports a change. *)
Theorem C2_record_block_call_is_wrapped :
  isRuntimeFunction UnsafeInstCounter.RECORD_BLOCK_FN = false /\
  run primary moduleRecordsBlock 2 =
    (PA_none,
     moduleOf
       [declaration "__unsafe_record_block";
        fn "w"
          [[CreateFence 2 SequentiallyConsistent;
            CreateCall 3 (CalleeFunction "external_call_start") [];
            UnsafeInstCounter.recordBlockCall 1 0 1 0 0 0 0 0 0 0;
            CreateFence 4 SequentiallyConsistent;
            CreateCall 5 (CalleeFunction "external_call_end") [VInst 3];
            inst 0 Ret]];
        declaration "external_call_start";
        declaration "external_call_end"],
     6).
Proof. split; reflexivity. Qed.

End ExternalCallTrackerProofs.

Module PassFacts.
Import IR Props PassProps ListFacts.

Lemma setBlocks_blocks : forall F, setBlocks (blocks F) F = F.
Proof. now intros []. Qed.

Lemma setFunctions_functions : forall M, setFunctions (functions M) M = M.
Proof. now intros []. Qed.

Lemma lookupFunction_app : forall name fs gs,
  lookupFunction name (fs ++ gs)
  = match lookupFunction name fs with
    | Some F => Some F
    | None => lookupFunction name gs
    end.
Proof.
  intros name fs gs. induction fs as [|F fs IH]; [reflexivity|].
  cbn. destruct (String.eqb (fname F) name); [reflexivity | exact IH].
Qed.

Lemma lookupFunction_name : forall nm fs F, lookupFunction nm fs = Some F -> fname F = nm.
Proof.
  intros nm fs F. induction fs as [|G fs IH]; cbn; [discriminate|].
  destruct (String.eqb_spec (fname G) nm); [|exact IH]. intros H. now inversion H; subst.
Qed.

(** What [getOrInsertFunction] leaves alone. *)
Lemma declared_functions : forall name M,
  exists ds, functions (getOrInsertFunction name M) = functions M ++ ds /\
             Forall (fun D => isDeclaration D = true) ds /\
             globals (getOrInsertFunction name M) = globals M /\
             global_ctors (getOrInsertFunction name M) = global_ctors M /\
             global_dtors (getOrInsertFunction name M) = global_dtors M.
Proof.
  intros name M. unfold getOrInsertFunction.
  destruct (lookupFunction name (functions M)).
  - exists []. rewrite app_nil_r. repeat split. constructor.
  - exists [declaration name]. repeat split. now repeat constructor.
Qed.

Lemma filter_none : forall (A : Type) (p : A -> bool) l,
  Forall (fun i => p i = false) l -> filter p l = [].
Proof.
  intros A p l H. induction H as [|y l Hy _ IH]; [reflexivity|]. cbn. now rewrite Hy.
Qed.

Lemma insertBefore_length : forall a news BB,
  In a (addrs BB) ->
  List.length (insertBefore a news BB) = List.length BB + List.length news.
Proof.
  intros a news BB. induction BB as [|x BB IH]; intros H; [contradiction|].
  cbn [insertBefore]. destruct (Nat.eqb_spec (addr x) a) as [E|E].
  - rewrite length_app. cbn. lia.
  - cbn in H. destruct H as [H|H]; [contradiction|]. cbn. rewrite (IH H). lia.
Qed.

(** A block without sentinels has no region. *)
Lemma markerless_untracked : forall BB,
  markerKinds BB = [] ->
  trackedBlock false BB = [] /\
  regionOpenAtEnd false BB = false /\ taggedInRegion false BB = false.
Proof.
  induction BB as [|Inst BB IH]; intros H; [repeat split; reflexivity|].
  unfold markerKinds in H. cbn [flat_map] in H. apply app_eq_nil in H. destruct H as [H1 H2].
  cbn [trackedBlock regionOpenAtEnd taggedInRegion].
  unfold DynamicLineCount.isMarkerInstruction. unfold markerKind in *.
  destruct (inlineAsmOfCallBase Inst) as [asm|]; [|cbn [andb orb]; now apply IH].
  destruct (String.eqb asm UNSAFE_MARKER_BEGIN); [discriminate|].
  destruct (String.eqb asm UNSAFE_MARKER_END); [discriminate|]. cbn [andb orb]. now apply IH.
Qed.

End PassFacts.

Module InstMarkerFacts.
Import IR Props PassProps ListFacts PassFacts InstMarker InstMarkerProofs.

(** X1: for an instruction that carries [unsafe_inst] and a debug location
    with a line other than 0 and a file name that is not empty,
    [captureUnsafeLineInfo] attaches [unsafe_line_info] with that line and
    file; the coverage pass reads the same pair back from the attachment, the
    line reduced to [unsigned]; the [unsafe_inst] tag stays. *)
Theorem line_info_round_trip : forall Inst Loc,
  hasUnsafeInst Inst = true ->
  debugLoc Inst = Some Loc ->
  di_line Loc <> 0%Z -> getFilename Loc <> "" ->
  getMetadata "unsafe_line_info" (captureInst Inst)
    = Some [MDConstInt 32 (di_line Loc); MDStr (getFilename Loc)] /\
  DynamicLineCount.lineInfo (captureInst Inst)
    = Some (DynamicLineCount.toUnsigned (di_line Loc), getFilename Loc) /\
  hasUnsafeInst (captureInst Inst) = true.
Proof.
  intros Inst Loc Hu HL Hline Hfile.
  assert (E : captureInst Inst
              = createUnsafeLineMetadata Inst (di_line Loc) (getFilename Loc)).
  { unfold captureInst. rewrite Hu, HL.
    destruct (Z.eqb_spec (di_line Loc) 0) as [|_]; [contradiction|].
    destruct (String.eqb_spec (getFilename Loc) "") as [|_]; [contradiction|]. reflexivity. }
  assert (G : getMetadata "unsafe_line_info" (captureInst Inst)
              = Some [MDConstInt 32 (di_line Loc); MDStr (getFilename Loc)]).
  { rewrite E. unfold createUnsafeLineMetadata, getMetadata, setMetadata. cbn [metadata].
    apply UnsafeFunctionTrackerProofs.lookupMD_storeMD_same. }
  split; [exact G|]. split.
  - unfold DynamicLineCount.lineInfo. now rewrite G.
  - now rewrite captureInst_hasUnsafeInst.
Qed.

Lemma line_info_round_trip_witness :
  getMetadata "unsafe_line_info" (captureInst PassSamples.taggedLocated)
    = Some [MDConstInt 32 42; MDStr "src/lib.rs"] /\
  DynamicLineCount.lineInfo (captureInst PassSamples.taggedLocated)
    = Some (DynamicLineCount.toUnsigned 42, "src/lib.rs") /\
  hasUnsafeInst (captureInst PassSamples.taggedLocated) = true.
Proof.
  apply (line_info_round_trip PassSamples.taggedLocated
           (mkDILocation 42 5 true (Some "src/lib.rs")));
    [reflexivity | reflexivity | discriminate | discriminate].
Defined.

Lemma captureInst_untagged : forall Inst, hasUnsafeInst Inst = false -> captureInst Inst = Inst.
Proof. intros Inst H. unfold captureInst. now rewrite H. Qed.

Lemma capture_unsafeFree : forall F,
  Forall unsafeFree (blocks F) -> captureUnsafeLineInfo F = F.
Proof.
  intros F H. unfold captureUnsafeLineInfo.
  replace (map (map captureInst) (blocks F)) with (blocks F); [now destruct F|].
  induction H as [|BB bbs HBB _ IH]; [reflexivity|]. cbn [map]. rewrite <- IH. f_equal.
  induction HBB as [|x BB Hx _ IHB]; [reflexivity|].
  cbn [map]. now rewrite (captureInst_untagged x Hx), <- IHB.
Qed.

Lemma markBlocks_unsafeFree : forall BBs Modified n,
  Forall unsafeFree BBs -> markBlocks BBs Modified n = Some (BBs, Modified, n).
Proof.
  induction BBs as [|BB BBs IH]; intros Modified n H; [reflexivity|].
  inversion H as [|? ? H1 H2]; subst. cbn [markBlocks].
  rewrite (markBlock_unsafeFree BB n H1), orb_false_r, (IH Modified n H2). reflexivity.
Qed.

(** X2: a function none of whose instructions carries [unsafe_inst] comes
    back from MarkerPlanter unchanged, with the verdict that all analyses
    are preserved and no address used, whatever the environment. *)
Theorem untagged_function_untouched : forall env F n,
  Forall unsafeFree (blocks F) -> run env F n = Some (PA_all, F, n).
Proof.
  intros env F n H. unfold run. destruct (negb (isPrimaryPackage env)); [reflexivity|].
  rewrite (capture_unsafeFree F H). unfold insertUnsafeMarkers.
  rewrite (markBlocks_unsafeFree (blocks F) false n H). now destruct F.
Qed.

Lemma untagged_function_witness :
  run Samples.primary (Samples.fn "a" [Samples.blockNoRegion]) 10
  = Some (PA_all, Samples.fn "a" [Samples.blockNoRegion], 10).
Proof.
  apply (untagged_function_untouched Samples.primary (Samples.fn "a" [Samples.blockNoRegion]) 10).
  repeat constructor.
Defined.

(** ** Counting what is inserted *)

Lemma getNextNode_in : forall a BB x, getNextNode a BB = Some x -> In x BB.
Proof.
  intros a BB x. induction BB as [|y BB IH]; cbn; [discriminate|].
  destruct (Nat.eqb (addr y) a).
  - destruct BB; cbn; [discriminate|]. intros H. inversion H. right. now left.
  - intros H. right. now apply IH.
Qed.

Lemma back_in : forall (A : Type) (l : list A) x, back l = Some x -> In x l.
Proof.
  intros A l x. induction l as [|y l IH]; cbn; [discriminate|].
  destruct l as [|z l]; [intros H; inversion H; now left|].
  intros H. right. now apply IH.
Qed.

Lemma getTerminator_in : forall BB T, getTerminator BB = Some T -> In T BB.
Proof.
  intros BB T. unfold getTerminator. destruct (back BB) as [x|] eqn:E; [|discriminate].
  destruct (isTerminator x); [|discriminate]. intros H. inversion H; subst.
  now apply back_in.
Qed.

Lemma scan_tagged : forall BB,
  (existsb hasUnsafeInst BB = false /\ scanUnsafe BB = (None, None)) \/
  (existsb hasUnsafeInst BB = true /\
   exists First Last, scanUnsafe BB = (Some First, Some Last) /\ In First BB /\ In Last BB).
Proof.
  intros BB.
  destruct (unsafe_decompose BB)
    as [Hfree | (pre & mid & Last & post & -> & Hpre & Hs & HL & Hpost)].
  - left. split; [|now apply scanUnsafe_none].
    induction Hfree as [|x BB Hx _ IH]; [reflexivity|]. cbn. now rewrite Hx, IH.
  - right. split.
    + apply existsb_exists. exists Last. split; [|exact HL].
      apply in_or_app. right. apply in_or_app. right. now left.
    + exists (hd Last mid), Last. split; [|split].
      * unfold scanUnsafe.
        replace (pre ++ mid ++ Last :: post) with (pre ++ (mid ++ [Last]) ++ post)
          by (rewrite <- !app_assoc; reflexivity).
        rewrite fold_left_app, (scan_unsafeFree pre (None, None) Hpre), fold_left_app.
        rewrite (scan_segment mid Last None Hs HL). now apply scan_unsafeFree.
      * apply in_or_app. right. destruct mid; cbn; [now left|]. now left.
      * apply in_or_app. right. apply in_or_app. right. now left.
Qed.

Lemma markBlock_account : forall BB n BB' m n',
  markBlock BB n = Some (BB', m, n') ->
  m = existsb hasUnsafeInst BB /\ n' = n + grown m /\
  List.length BB' = List.length BB + grown m.
Proof.
  intros BB n BB' m n'. unfold markBlock.
  destruct (scan_tagged BB) as [[He Hs] | [He (First & Last & Hs & HF & HLa)]]; rewrite Hs.
  - intros H. inversion H; subst. rewrite He. cbn. repeat split; lia.
  - rewrite He.
    assert (L1 : List.length (insertBefore (addr First) [CreateCall n AsmMarkerBegin []] BB)
                 = List.length BB + 1).
    { apply insertBefore_length. now apply In_addrs. }
    destruct (getNextNode (addr Last) _) as [NextInst|] eqn:En.
    + intros H. inversion H; subst. cbn [grown]. repeat split.
      rewrite insertBefore_length; [cbn; lia|].
      apply In_addrs. exact (getNextNode_in _ _ _ En).
    + destruct (getTerminator _) as [T|] eqn:Et; [|discriminate].
      intros H. inversion H; subst. cbn [grown]. repeat split.
      rewrite insertBefore_length; [cbn; lia|].
      apply In_addrs. exact (getTerminator_in _ _ Et).
Qed.

Lemma markBlocks_account : forall BBs Modified n BBs' m n',
  markBlocks BBs Modified n = Some (BBs', m, n') ->
  m = (Modified || negb (Nat.eqb (List.length (filter (existsb hasUnsafeInst) BBs)) 0)) /\
  n' = n + 2 * List.length (filter (existsb hasUnsafeInst) BBs) /\
  List.length (List.concat BBs')
  = List.length (List.concat BBs) + 2 * List.length (filter (existsb hasUnsafeInst) BBs).
Proof.
  induction BBs as [|BB BBs IH]; intros Modified n BBs' m n' H.
  - cbn in H. inversion H; subst. cbn. rewrite orb_false_r. repeat split; lia.
  - cbn [markBlocks] in H.
    destruct (markBlock BB n) as [[[BB1 m1] n1]|] eqn:E1; [|discriminate].
    destruct (markBlocks BBs (Modified || m1) n1) as [[[r m2] n2]|] eqn:E2; [|discriminate].
    inversion H; subst.
    destruct (markBlock_account _ _ _ _ _ E1) as (Hm & Hn & Hl).
    destruct (IH _ _ _ _ _ E2) as (Hm' & Hn' & Hl').
    cbn [filter List.concat]. rewrite <- Hm. rewrite !length_app, Hl, Hl', Hn', Hn, Hm'.
    destruct m1; cbn [grown List.length Nat.eqb negb]; rewrite ?orb_true_r, ?orb_false_r;
      repeat split; lia.
Qed.

Lemma capture_tagged : forall BB,
  existsb hasUnsafeInst (map captureInst BB) = existsb hasUnsafeInst BB.
Proof.
  induction BB as [|x BB IH]; [reflexivity|].
  cbn. now rewrite captureInst_hasUnsafeInst, IH.
Qed.

Lemma capture_taggedBlocks : forall F, taggedBlocks (captureUnsafeLineInfo F) = taggedBlocks F.
Proof.
  intros F. unfold taggedBlocks, captureUnsafeLineInfo. cbn [blocks setBlocks].
  induction (blocks F) as [|BB bbs IH]; [reflexivity|].
  cbn [map filter]. rewrite capture_tagged. destruct (existsb hasUnsafeInst BB); cbn; now rewrite IH.
Qed.

Lemma capture_count : forall F,
  instructionCount (captureUnsafeLineInfo F) = instructionCount F.
Proof.
  intros F. unfold instructionCount, captureUnsafeLineInfo. cbn [blocks setBlocks].
  induction (blocks F) as [|BB bbs IH]; [reflexivity|].
  cbn [map List.concat]. now rewrite !length_app, length_map, IH.
Qed.

(** X3: on a primary build, for a function with distinct instruction
    objects whose blocks end in their terminator, MarkerPlanter returns; it
    reports a change exactly when some block holds an instruction carrying
    [unsafe_inst], and it creates two instructions for every such block and
    none otherwise. *)
Theorem marker_accounting : forall env F n,
  isPrimaryPackage env = true ->
  uniqueAddrs F -> freshFor n F -> wellFormedFunction F ->
  exists F',
    run env F n
    = Some (if Nat.eqb (taggedBlocks F) 0 then PA_all else PA_none, F',
            n + 2 * taggedBlocks F) /\
    instructionCount F' = instructionCount F + 2 * taggedBlocks F.
Proof.
  intros env F n Hp Hu Hfr Hwf. unfold run. rewrite Hp. cbn [negb].
  unfold insertUnsafeMarkers.
  destruct (markBlocks_planted (blocks (captureUnsafeLineInfo F)) false n)
    as (bbs & m & k & E & _).
  - cbn [blocks captureUnsafeLineInfo setBlocks]. rewrite Forall_map.
    apply NoDup_concat_each in Hu.
    eapply Forall_impl; [|exact Hu]. intros BB H. cbn beta. now rewrite capture_addrs.
  - cbn [blocks captureUnsafeLineInfo setBlocks]. rewrite Forall_map.
    eapply Forall_impl; [|exact Hfr]. intros BB H. now apply capture_belowFresh.
  - cbn [blocks captureUnsafeLineInfo setBlocks]. rewrite Forall_map.
    eapply Forall_impl; [|exact Hwf]. intros BB H. now apply capture_wellFormed.
  - rewrite E.
    destruct (markBlocks_account _ _ _ _ _ _ E) as (Hm & Hn & Hl).
    fold (taggedBlocks (captureUnsafeLineInfo F)) in Hm, Hn, Hl.
    fold (instructionCount (captureUnsafeLineInfo F)) in Hl.
    rewrite capture_taggedBlocks in Hm, Hn, Hl. rewrite capture_count in Hl.
    exists (setBlocks bbs (captureUnsafeLineInfo F)). split; [|exact Hl].
    rewrite Hm, Hn. cbn [orb]. now destruct (Nat.eqb (taggedBlocks F) 0).
Qed.

Lemma marker_accounting_witness :
  exists F',
    run Samples.primary Samples.fnTwoTagged 10
    = Some (if Nat.eqb (taggedBlocks Samples.fnTwoTagged) 0 then PA_all else PA_none, F',
            10 + 2 * taggedBlocks Samples.fnTwoTagged) /\
    instructionCount F'
    = instructionCount Samples.fnTwoTagged + 2 * taggedBlocks Samples.fnTwoTagged.
Proof.
  apply (marker_accounting Samples.primary Samples.fnTwoTagged 10).
  - reflexivity.
  - unfold uniqueAddrs. simpl. repeat constructor; simpl; intuition discriminate.
  - repeat constructor.
  - repeat constructor. eexists; split; reflexivity.
Defined.

End InstMarkerFacts.

Module UnsafeFunctionTrackerFacts.
Import IR Props PassProps ListFacts PassFacts UnsafeFunctionTracker UnsafeFunctionTrackerInv
       UnsafeFunctionTrackerProofs.

(** ** Phase 1 *)

Lemma analyzeFunction_blocks : forall F G, blocks G = blocks F -> analyzeFunction G = analyzeFunction F.
Proof. intros F G H. unfold analyzeFunction. now rewrite H. Qed.

Lemma assignIds_rows : forall fs idx k,
  snd (fst (assignIds fs idx k)) = tableRows (filter eligible fs) k /\
  snd (assignIds fs idx k) = eligiblePositions fs idx.
Proof.
  induction fs as [|F fs IH]; intros idx k; [split; reflexivity|].
  cbn [assignIds filter eligiblePositions].
  change (eligible F) with (shouldInstrumentFunction F).
  destruct (shouldInstrumentFunction F); cbn [negb].
  - destruct (IH (S idx) (wrap32 (k + 1))) as [H1 H2].
    destruct (assignIds fs (S idx) (wrap32 (k + 1))) as [[fs' md] ti]. cbn [fst snd] in *.
    cbn [tableRows]. rewrite H1, H2. split; [|reflexivity]. f_equal.
  - destruct (IH (S idx) k) as [H1 H2].
    destruct (assignIds fs (S idx) k) as [[fs' md] ti]. cbn [fst snd] in *. now split.
Qed.

Lemma assignIds_none : forall fs idx k,
  filter eligible fs = [] -> assignIds fs idx k = (fs, [], []).
Proof.
  induction fs as [|F fs IH]; intros idx k H; [reflexivity|].
  cbn [filter] in H. cbn [assignIds]. change (eligible F) with (shouldInstrumentFunction F) in H.
  destruct (shouldInstrumentFunction F); [discriminate|]. cbn [negb].
  now rewrite (IH (S idx) k H).
Qed.

(** X4: a module without an eligible function comes back from
    FunctionTracker unchanged: no attachment, no table, no constructor, no
    destructor, and the verdict that all analyses are preserved. *)
Theorem tracker_nothing_eligible : forall env M n,
  filter eligible (functions M) = [] -> run env M n = Some (PA_all, M, n).
Proof.
  intros env M n H. unfold run. destruct (negb (isPrimaryPackage env)); [reflexivity|].
  now rewrite (assignIds_none _ 0 0%Z H).
Qed.

Lemma tracker_nothing_eligible_witness :
  run Samples.primary PassSamples.moduleHelpersOnly 10
  = Some (PA_all, PassSamples.moduleHelpersOnly, 10).
Proof.
  apply (tracker_nothing_eligible Samples.primary PassSamples.moduleHelpersOnly 10).
  reflexivity.
Defined.

(** ** Phase 5 *)

Lemma positions_ext : forall fs gs idx,
  map eligible fs = map eligible gs -> eligiblePositions fs idx = eligiblePositions gs idx.
Proof.
  induction fs as [|F fs IH]; intros [|G gs] idx H; try discriminate; [reflexivity|].
  cbn in H. inversion H as [[H1 H2]]. cbn [eligiblePositions]. rewrite H1.
  now rewrite (IH gs (S idx) H2).
Qed.

Lemma positions_app_none : forall fs gs idx,
  Forall (fun G => eligible G = false) gs ->
  eligiblePositions (fs ++ gs) idx = eligiblePositions fs idx.
Proof.
  induction fs as [|F fs IH]; intros gs idx H.
  - cbn [app]. revert idx. induction H as [|G gs HG _ IHg]; intros idx; [reflexivity|].
    cbn [eligiblePositions]. rewrite HG. apply IHg.
  - cbn [app eligiblePositions]. now rewrite (IH gs (S idx) H).
Qed.

Lemma replaceAt_app : forall (A : Type) (pre : list A) x y rest,
  replaceAt (List.length pre) y (pre ++ x :: rest) = pre ++ y :: rest.
Proof. induction pre as [|z pre IH]; intros; cbn; [reflexivity | now rewrite IH]. Qed.

Lemma enter_spec : forall suffix pre n,
  Forall (fun F => eligible F = true -> Ready F) suffix ->
  instrumentEntries (eligiblePositions suffix (List.length pre)) (pre ++ suffix) n
  = Some (pre ++ fst (enterAll suffix n), snd (enterAll suffix n)).
Proof.
  induction suffix as [|F suffix IH]; intros pre n H.
  - reflexivity.
  - inversion H as [|? ? HF H']; subst. cbn [eligiblePositions enterAll].
    destruct (eligible F) eqn:He.
    + destruct (HF eq_refl) as (_ & Hid & Front & rest & others & Hb).
      cbn [instrumentEntries]. unfold instrumentEntry.
      rewrite nth_error_app2, Nat.sub_diag by lia. cbn [nth_error]. rewrite Hb.
      destruct (idConstant F) as [c|] eqn:Hc; [|contradiction].
      cbv zeta. rewrite insertBefore_here by reflexivity. rewrite replaceAt_app.
      replace (pre ++ setBlocks (([CreateCall n (CalleeFunction RECORD_FUNCTION_FN) [c]]
                                   ++ Front :: rest) :: others) F :: suffix)
        with ((pre ++ [entered n F]) ++ suffix).
      * replace (S (List.length pre)) with (List.length (pre ++ [entered n F]))
          by (rewrite length_app; cbn; lia).
        rewrite (IH (pre ++ [entered n F]) (n + 1) H'). cbn [fst snd].
        now rewrite <- app_assoc.
      * rewrite <- app_assoc. unfold entered. now rewrite Hb, Hc.
    + replace (pre ++ F :: suffix) with ((pre ++ [F]) ++ suffix)
        by (now rewrite <- app_assoc).
      replace (S (List.length pre)) with (List.length (pre ++ [F]))
        by (rewrite length_app; cbn; lia).
      rewrite (IH (pre ++ [F]) n H'). cbn [fst snd]. now rewrite <- app_assoc.
Qed.


Lemma enterAll_nth : forall fs n i G,
  nth_error fs i = Some G ->
  nth_error (fst (enterAll fs n)) i
  = Some (if eligible G
          then entered (n + List.length (filter eligible (firstn i fs))) G else G).
Proof.
  induction fs as [|F fs IH]; intros n i G H; [destruct i; discriminate|].
  destruct i as [|i].
  - cbn in H. inversion H; subst. cbn [enterAll firstn filter List.length].
    rewrite Nat.add_0_r. now destruct (eligible G).
  - cbn [nth_error] in H. cbn [enterAll firstn filter].
    destruct (eligible F); cbn [fst nth_error List.length].
    + rewrite (IH (n + 1) i G H). destruct (eligible G); [|reflexivity].
      do 2 f_equal. lia.
    + now rewrite (IH n i G H).
Qed.

Lemma helpers_blocks : forall F, blocks (helpers F) = blocks F.
Proof.
  intros F. unfold helpers, setAttrs.
  repeat match goal with |- context [if ?c then _ else _] => destruct c end; reflexivity.
Qed.

Lemma helpers_idConstant : forall F, idConstant (helpers F) = idConstant F.
Proof.
  intros F. destruct (Kept_helpers F) as (_ & Hm & _).
  unfold idConstant, getFMetadata. now rewrite Hm.
Qed.

(** The function list when phase 5 starts, and what phase 5 makes of it. *)
Lemma phase5 : forall M n fs1 m0 md,
  Forall wellFormedFunction (functions M) ->
  Forall2 Tagged (functions M) fs1 ->
  exists ds,
    functions (beforePhase5 (setFunctions fs1 M) n (m0 :: md))
      = map helpers (fs1 ++ ds) ++ [InitFunc n (m0 :: md)] /\
    Forall PlainDeclaration ds /\
    instrumentEntries (eligiblePositions (functions M) 0)
      (functions (beforePhase5 (setFunctions fs1 M) n (m0 :: md))) (n + 3)
    = Some (enterAll (map helpers (fs1 ++ ds) ++ [InitFunc n (m0 :: md)]) (n + 3)) /\
    eligiblePositions (functions M) 0
    = eligiblePositions (map helpers (fs1 ++ ds) ++ [InitFunc n (m0 :: md)]) 0.
Proof.
  intros M n fs1 m0 md Hwf Htag.
  destruct (beforePhase5_functions (setFunctions fs1 M) n (m0 :: md)) as (ds & Efs & Hds).
  cbn [functions setFunctions] in Efs. exists ds. split; [exact Efs|]. split; [exact Hds|].
  rewrite Efs. set (L := map helpers (fs1 ++ ds) ++ [InitFunc n (m0 :: md)]).
  assert (Hel1 : map eligible (map helpers fs1) = map eligible (functions M)).
  { clear - Htag. induction Htag as [|F F1 l l1 HT _ IH]; [reflexivity|].
    cbn [map]. rewrite IH. f_equal.
    rewrite (Kept_eligible _ _ (Kept_helpers F1)). now apply Tagged_eligible. }
  assert (Hds' : Forall (fun G => eligible G = false) (map helpers ds ++ [InitFunc n (m0 :: md)])).
  { rewrite Forall_app. split; [|now repeat constructor].
    rewrite Forall_map. eapply Forall_impl; [|exact Hds]. intros D [Hb _].
    rewrite (Kept_eligible _ _ (Kept_helpers D)).
    unfold eligible, shouldInstrumentFunction, isDeclaration. now rewrite Hb. }
  assert (Epos : eligiblePositions (functions M) 0 = eligiblePositions L 0).
  { unfold L. rewrite map_app, <- app_assoc, (positions_app_none _ _ 0 Hds').
    symmetry. now apply positions_ext. }
  rewrite Epos.
  assert (HR : Forall (fun F => eligible F = true -> Ready F) L).
  { unfold L. rewrite map_app, <- app_assoc, Forall_app. split.
    - clear - Htag Hwf. induction Htag as [|F F1 l l1 HT _ IH]; [constructor|].
      inversion Hwf as [|? ? W1 W2]; subst. cbn [map]. constructor; [|now apply IH].
      intros He. split; [exact He|].
      assert (HeF : eligible F = true).
      { rewrite <- (Tagged_eligible _ _ HT), <- (Kept_eligible _ _ (Kept_helpers F1)).
        exact He. }
      destruct HT as (_ & Hb & _ & Hid). split.
      + rewrite helpers_idConstant. now apply Hid.
      + destruct (eligible_entry F HeF W1) as (Front & rest & others & HbF).
        exists Front, rest, others. rewrite helpers_blocks. congruence.
    - eapply Forall_impl; [|exact Hds']. intros G HG He. congruence. }
  pose proof (enter_spec L [] (n + 3) HR) as H. cbn [app List.length] in H.
  rewrite H. split; [now destruct (enterAll L (n + 3)) | reflexivity].
Qed.






(** X6: on a primary build, an eligible function of the module is found at
    its position after FunctionTracker with its name and with one call of
    [__unsafe_record_function] in front of the first instruction of its
    entry block; the operand of the call is the constant of the function's
    own id attachment, and the rest of the body is as it was. *)
Theorem tracker_entry_call : forall env M n i F,
  isPrimaryPackage env = true ->
  Forall wellFormedFunction (functions M) ->
  nth_error (functions M) i = Some F -> eligible F = true ->
  exists M' n' F' a c Front rest others,
    run env M n = Some (PA_none, M', n') /\
    nth_error (functions M') i = Some F' /\
    fname F' = fname F /\
    blocks F = (Front :: rest) :: others /\
    idConstant F' = Some c /\
    blocks F' = (recordFunctionCallAt a c :: Front :: rest) :: others /\
    n + 3 <= a.
Proof.
  intros env M n i F Henv Hwf Hn He.
  destruct (assignIds_spec (functions M) 0 0) as (fs1 & md & ti & Has & Htag & _).
  change (wrap32 (Z.of_nat 0)) with 0%Z in Has.
  destruct (assignIds_rows (functions M) 0 0%Z) as [Hmd Hti]. rewrite Has in Hmd, Hti.
  cbn [fst snd] in Hmd, Hti. subst ti.
  assert (Hin : In F (filter eligible (functions M))).
  { apply filter_In. split; [eapply nth_error_In; eassumption | exact He]. }
  destruct md as [|m0 md].
  { destruct (filter eligible (functions M)); [contradiction | discriminate]. }
  rewrite (run_primary env M n fs1 m0 md _ Henv Has).
  destruct (phase5 M n fs1 m0 md Hwf Htag) as (ds & Efs & Hds & Hie & _). rewrite Hie.
  destruct (Forall2_nth_error_l _ _ _ _ _ _ _ Htag Hn) as (F1 & Hn1 & HT).
  assert (HnL : nth_error (map helpers (fs1 ++ ds) ++ [InitFunc n (m0 :: md)]) i
                = Some (helpers F1)).
  { rewrite map_app, <- app_assoc.
    rewrite nth_error_app1 by (rewrite length_map; apply nth_error_Some; congruence).
    now rewrite nth_error_map, Hn1. }
  pose proof (enterAll_nth _ (n + 3) i _ HnL) as Hnth.
  assert (He1 : eligible (helpers F1) = true).
  { rewrite (Kept_eligible _ _ (Kept_helpers F1)), (Tagged_eligible _ _ HT). exact He. }
  rewrite He1 in Hnth.
  destruct (enterAll (map helpers (fs1 ++ ds) ++ [InitFunc n (m0 :: md)]) (n + 3))
    as [fs' n'] eqn:EL. cbn [fst] in Hnth.
  assert (HF : wellFormedFunction F).
  { rewrite Forall_forall in Hwf. apply Hwf. eapply nth_error_In; eassumption. }
  destruct (eligible_entry F He HF) as (Front & rest & others & Hb).
  destruct HT as (Hname & Hblocks & _ & Hid).
  destruct (idConstant F1) as [c|] eqn:Hc; [|now elim (Hid He)].
  eexists. exists n'. eexists. eexists. exists c, Front, rest, others.
  split; [reflexivity|]. cbn [functions setFunctions]. split; [exact Hnth|].
  unfold entered. rewrite helpers_blocks, helpers_idConstant, Hblocks, Hb, Hc.
  cbn [fname blocks setBlocks].
  split; [destruct (Kept_helpers F1) as (Hn' & _); congruence|].
  split; [reflexivity|]. split.
  - unfold idConstant, getFMetadata in *. cbn [fmetadata setBlocks].
    destruct (Kept_helpers F1) as (_ & Hm & _). rewrite Hm. exact Hc.
  - split; [reflexivity | lia].
Qed.

Lemma tracker_entry_call_witness :
  exists M' n' F' a c Front rest others,
    run Samples.primary Samples.moduleThree 20 = Some (PA_none, M', n') /\
    nth_error (functions M') 2 = Some F' /\
    fname F' = fname (Samples.fn "b" [Samples.blockOneRegion]) /\
    blocks (Samples.fn "b" [Samples.blockOneRegion]) = (Front :: rest) :: others /\
    idConstant F' = Some c /\
    blocks F' = (recordFunctionCallAt a c :: Front :: rest) :: others /\
    20 + 3 <= a.
Proof.
  apply (tracker_entry_call Samples.primary Samples.moduleThree 20 2
           (Samples.fn "b" [Samples.blockOneRegion])).
  - reflexivity.
  - repeat constructor; eexists; split; reflexivity.
  - reflexivity.
  - reflexivity.
Defined.

(** X7: [analyzeFunction] is false on a function without sentinels,
    however many of its instructions carry [unsafe_inst]: the flag of the
    table depends on MarkerPlanter having run. *)
Theorem flag_needs_sentinels : forall F,
  sentinelFree F -> analyzeFunction F = false.
Proof.
  intros F H. rewrite analyzeFunction_closed_regions.
  - unfold hasTaggedInRegion. unfold sentinelFree in H.
    induction H as [|BB bbs HBB _ IH]; [reflexivity|].
    cbn [existsb]. now rewrite (proj2 (proj2 (markerless_untracked BB HBB))), IH.
  - eapply Forall_impl; [|exact H]. intros BB HBB. exact (proj1 (proj2 (markerless_untracked BB HBB))).
Qed.

Lemma flag_needs_sentinels_witness : analyzeFunction Samples.fnTaggedRet = false.
Proof. apply (flag_needs_sentinels Samples.fnTaggedRet). repeat constructor. Defined.

End UnsafeFunctionTrackerFacts.

Module UnsafeInstCounterFacts.
Import IR Props PassProps ListFacts PassFacts UnsafeInstCounter UnsafeInstCounterProofs.

Lemma region_counted : forall BB f,
  List.length (regionInsts f BB) <= List.length (countedInsts BB).
Proof.
  unfold countedInsts. induction BB as [|i BB IH]; intros f; [cbn; lia|].
  cbn [regionInsts filter]. destruct (isDbgInfoIntrinsic i) eqn:Hd.
  - rewrite (counted_dbg i Hd). apply IH.
  - destruct (markerKind i) as [[|]|] eqn:Hm.
    + rewrite (counted_marker i _ Hm). apply IH.
    + rewrite (counted_marker i _ Hm). apply IH.
    + rewrite (counted_plain i Hd Hm). rewrite length_app. specialize (IH f).
      destruct f; cbn; lia.
Qed.

(** X8: for a block of fewer than 2^32 instructions the counts
    [analyzeBasicBlock] returns are ordered: every category count lies
    between 0 and the count of instructions inside regions, which is at
    most the count of all counted instructions, which is at most the length
    of the block. *)
Theorem block_counts_ordered : forall BB,
  fitsCounters BB ->
  (0 <= totalUnsafeInsts (analyzeBasicBlock BB) <= totalInsts (analyzeBasicBlock BB))%Z /\
  (totalInsts (analyzeBasicBlock BB) <= Z.of_nat (List.length BB))%Z /\
  (forall c, (0 <= countOf c (analyzeBasicBlock BB)
                <= totalUnsafeInsts (analyzeBasicBlock BB))%Z).
Proof.
  intros BB Hfit. unfold fitsCounters in Hfit.
  pose proof (countedInsts_length BB) as Hc.
  pose proof (region_counted BB false) as Hr.
  rewrite analyze_totalInsts, analyze_totalUnsafeInsts.
  rewrite !wrap32_small by lia. split; [lia|]. split; [lia|].
  intros c. rewrite analyze_countOf. unfold wrap16.
  assert (Hcc : categoryCount c (regionInsts false BB) <= List.length (regionInsts false BB))
    by (unfold categoryCount; apply filter_length_le).
  pose proof (Z.mod_pos_bound (Z.of_nat (categoryCount c (regionInsts false BB))) 65536
                ltac:(lia)) as Hb.
  pose proof (Z.mod_le (Z.of_nat (categoryCount c (regionInsts false BB))) 65536
                ltac:(lia) ltac:(lia)) as Hle.
  lia.
Qed.

Lemma block_counts_ordered_witness :
  (0 <= totalUnsafeInsts (analyzeBasicBlock Samples.blockOneRegion)
     <= totalInsts (analyzeBasicBlock Samples.blockOneRegion))%Z /\
  (totalInsts (analyzeBasicBlock Samples.blockOneRegion)
     <= Z.of_nat (List.length Samples.blockOneRegion))%Z /\
  (forall c, (0 <= countOf c (analyzeBasicBlock Samples.blockOneRegion)
                <= totalUnsafeInsts (analyzeBasicBlock Samples.blockOneRegion))%Z).
Proof.
  apply (block_counts_ordered Samples.blockOneRegion). unfold fitsCounters. simpl. lia.
Defined.

(** X9: the id FunctionTracker attaches to a function, a 32-bit constant
    under [unsafe_count.func_id], is the id [getFunctionId] of
    InstructionCounter reads from it. *)
Theorem function_id_round_trip : forall F k,
  (0 <= k < 4294967296)%Z ->
  getFunctionId
    (setFMetadata UnsafeFunctionTracker.FUNCTION_ID_METADATA [MDConstInt 32 k] F)
  = Some k.
Proof.
  intros F k Hk. unfold getFunctionId, getFMetadata, setFMetadata. cbn [fmetadata].
  change FUNCTION_ID_METADATA with UnsafeFunctionTracker.FUNCTION_ID_METADATA.
  rewrite UnsafeFunctionTrackerProofs.lookupMD_storeMD_same.
  f_equal. change (2 ^ Z.of_nat 32)%Z with 4294967296%Z.
  unfold wrap32. now rewrite !Z.mod_small by (rewrite ?Z.mod_small; lia).
Qed.

Lemma function_id_round_trip_witness :
  getFunctionId
    (setFMetadata UnsafeFunctionTracker.FUNCTION_ID_METADATA [MDConstInt 32 7]
       (Samples.fn "h" [Samples.blockNoRegion]))
  = Some 7%Z.
Proof. apply (function_id_round_trip (Samples.fn "h" [Samples.blockNoRegion]) 7). lia. Defined.

(** X10: InstructionCounter passes over a function that carries no id
    attachment, and also over one whose id is 2^32 - 1, the value
    [getFunctionId] returns for a missing attachment: the function and the
    module come back unchanged, no helper is declared, and the verdict is
    that all analyses are preserved. *)
Theorem counter_passes_over : forall env M F n,
  getFMetadata FUNCTION_ID_METADATA F = None \/
  (exists rest, getFMetadata FUNCTION_ID_METADATA F
                = Some (MDConstInt 32 4294967295 :: rest)) ->
  run env M F n = Some (PA_all, M, F, n).
Proof.
  intros env M F n H. unfold run.
  destruct (negb (isPrimaryPackage env)); [reflexivity|].
  destruct (negb (shouldInstrumentFunction F)); [reflexivity|].
  unfold getFunctionId. destruct H as [H|[rest H]]; rewrite H; reflexivity.
Qed.

Lemma counter_passes_over_witness :
  run Samples.primary Samples.emptyModule (Samples.withFuncId 4294967295 Samples.fnCounted) 10
  = Some (PA_all, Samples.emptyModule, Samples.withFuncId 4294967295 Samples.fnCounted, 10).
Proof.
  apply (counter_passes_over Samples.primary Samples.emptyModule
           (Samples.withFuncId 4294967295 Samples.fnCounted) 10).
  right. exists []. reflexivity.
Defined.

(** ** The declaration of the helper *)

Lemma setAttrs_fname : forall name F, fname (setAttrs name F) = fname F.
Proof. intros name F. unfold setAttrs. now destruct (String.eqb (fname F) name). Qed.

Lemma lookup_setAttrs : forall name nm fs,
  lookupFunction nm (map (setAttrs name) fs)
  = option_map (setAttrs name) (lookupFunction nm fs).
Proof.
  intros name nm fs. induction fs as [|F fs IH]; [reflexivity|].
  cbn [map lookupFunction]. rewrite setAttrs_fname.
  destruct (String.eqb (fname F) nm); [reflexivity | exact IH].
Qed.

Lemma setAttrs_twice : forall name F, setAttrs name (setAttrs name F) = setAttrs name F.
Proof.
  intros name F. unfold setAttrs at 2. destruct (String.eqb (fname F) name) eqn:E.
  - unfold setAttrs. cbn [fname]. now rewrite E.
  - unfold setAttrs. now rewrite E.
Qed.

Lemma setAttrs_other : forall name F, fname F <> name -> setAttrs name F = F.
Proof.
  intros name F H. unfold setAttrs.
  destruct (String.eqb_spec (fname F) name); [contradiction | reflexivity].
Qed.

(** X11: after [getOrCreateRecordBlockFn] the module has a function named
    [__unsafe_record_block] with external linkage and the noinline
    attribute; a function of that name that was already there keeps its
    body.  A second call changes nothing, and no function of another name is
    touched. *)
Theorem record_block_helper : forall M,
  (exists G, lookupFunction RECORD_BLOCK_FN (functions (getOrCreateRecordBlockFn M)) = Some G /\
             flinkage G = ExternalLinkage /\ fnoinline G = true /\
             (forall F0, lookupFunction RECORD_BLOCK_FN (functions M) = Some F0 ->
                         blocks G = blocks F0)) /\
  getOrCreateRecordBlockFn (getOrCreateRecordBlockFn M) = getOrCreateRecordBlockFn M /\
  (forall name, name <> RECORD_BLOCK_FN ->
     lookupFunction name (functions (getOrCreateRecordBlockFn M))
     = lookupFunction name (functions M)).
Proof.
  intros M.
  assert (Hlook : exists G0,
            lookupFunction RECORD_BLOCK_FN (functions (getOrInsertFunction RECORD_BLOCK_FN M))
            = Some G0 /\
            (forall F0, lookupFunction RECORD_BLOCK_FN (functions M) = Some F0 -> G0 = F0)).
  { unfold getOrInsertFunction.
    destruct (lookupFunction RECORD_BLOCK_FN (functions M)) as [F0|] eqn:E.
    - exists F0. split; [exact E|]. intros ? H. now inversion H.
    - exists (declaration RECORD_BLOCK_FN). cbn [functions setFunctions].
      rewrite lookupFunction_app, E. split; [reflexivity | discriminate]. }
  destruct Hlook as (G0 & HG0 & Hsame).
  assert (HL : lookupFunction RECORD_BLOCK_FN (functions (getOrCreateRecordBlockFn M))
               = Some (setAttrs RECORD_BLOCK_FN G0)).
  { unfold getOrCreateRecordBlockFn, markRuntimeHelper. cbn [functions setFunctions].
    now rewrite lookup_setAttrs, HG0. }
  split; [|split].
  - exists (setAttrs RECORD_BLOCK_FN G0). split; [exact HL|].
    pose proof (lookupFunction_name _ _ _ HG0) as Hn. unfold setAttrs.
    rewrite Hn, String.eqb_refl. cbn. repeat split.
    intros F0 HF0. now rewrite (Hsame F0 HF0).
  - unfold getOrCreateRecordBlockFn at 1. unfold getOrInsertFunction. rewrite HL.
    unfold getOrCreateRecordBlockFn, markRuntimeHelper. cbn [functions setFunctions].
    unfold setFunctions. cbn [globals global_ctors global_dtors compiler_used]. f_equal.
    rewrite map_map. apply map_ext. intros F. apply setAttrs_twice.
  - intros name Hne. unfold getOrCreateRecordBlockFn, markRuntimeHelper.
    cbn [functions setFunctions]. rewrite lookup_setAttrs.
    assert (E : lookupFunction name (functions (getOrInsertFunction RECORD_BLOCK_FN M))
                = lookupFunction name (functions M)).
    { unfold getOrInsertFunction.
      destruct (lookupFunction RECORD_BLOCK_FN (functions M)); [reflexivity|].
      cbn [functions setFunctions]. rewrite lookupFunction_app.
      destruct (lookupFunction name (functions M)); [reflexivity|].
      cbn [lookupFunction]. change (fname (declaration RECORD_BLOCK_FN)) with RECORD_BLOCK_FN.
      destruct (String.eqb_spec RECORD_BLOCK_FN name); [congruence | reflexivity]. }
    rewrite E. destruct (lookupFunction name (functions M)) as [F|] eqn:EF; [|reflexivity].
    cbn [option_map]. f_equal. apply setAttrs_other.
    rewrite (lookupFunction_name _ _ _ EF). exact Hne.
Qed.

End UnsafeInstCounterFacts.

Module CpuCycleCountFacts.
Import IR Props PassProps ListFacts PassFacts CpuCycleCount CpuCycleCountInv CpuCycleCountProofs.

Lemma collect_unpaired : forall l cur P R,
  closesPair (isSome cur) (markerKinds l) = false ->
  exists cur', fold_left collectStep l (cur, P, R) = (cur', P, R).
Proof.
  induction l as [|i l IH]; intros cur P R H; [now exists cur|].
  cbn [fold_left]. unfold markerKinds in H. cbn [flat_map] in H.
  fold (markerKinds l) in H.
  destruct (markerKind i) as [[|]|] eqn:Hm; cbn [app closesPair] in H.
  - destruct cur as [b|].
    + assert (E : collectStep (Some b, P, R) i = (Some b, P, R)).
      { unfold collectStep, markerKind in *.
        destruct (inlineAsmOfCallBase i) as [asm|]; [|reflexivity].
        destruct (String.eqb asm UNSAFE_MARKER_BEGIN); [reflexivity|].
        destruct (String.eqb asm UNSAFE_MARKER_END); discriminate. }
      rewrite E. now apply IH.
    + rewrite (collectStep_begin P R i Hm). now apply IH.
  - destruct cur as [b|]; [discriminate|]. cbn [isSome orb] in H.
    assert (E : collectStep (None, P, R) i = (None, P, R)).
    { unfold collectStep, markerKind in *.
      destruct (inlineAsmOfCallBase i) as [asm|]; [|reflexivity].
      destruct (String.eqb asm UNSAFE_MARKER_BEGIN); [discriminate|].
      destruct (String.eqb asm UNSAFE_MARKER_END); reflexivity. }
    rewrite E. now apply IH.
  - rewrite (collectStep_plain _ i Hm). now apply IH.
Qed.

Lemma collectBlock_unpaired : forall acc BB, unpaired BB -> collectBlock acc BB = acc.
Proof.
  intros [P R] BB H. unfold collectBlock. cbn [fst snd].
  destruct (collect_unpaired BB None P R H) as [cur' E]. now rewrite E.
Qed.

(** X12: a function in which no block holds a begin sentinel followed by an
    end sentinel comes back from [instrumentUnsafeBlocks] unchanged and
    unreported: a begin or an end without its partner in the same block
    stays in the code. *)
Theorem unpaired_sentinels_stay : forall F n,
  Forall unpaired (blocks F) -> instrumentUnsafeBlocks F n = (false, F, n).
Proof.
  intros F n H. unfold instrumentUnsafeBlocks.
  replace (collectMarkers (blocks F)) with (@nil (nat * nat), @nil nat); [reflexivity|].
  unfold collectMarkers. generalize (@nil (nat * nat), @nil nat).
  induction H as [|BB bbs HBB _ IH]; intros acc; [reflexivity|].
  cbn [fold_left]. rewrite (collectBlock_unpaired acc BB HBB). apply IH.
Qed.

Lemma unpaired_sentinels_witness :
  instrumentUnsafeBlocks Samples.fnSplitRegion 10 = (false, Samples.fnSplitRegion, 10).
Proof.
  apply (unpaired_sentinels_stay Samples.fnSplitRegion 10). repeat constructor.
Defined.

End CpuCycleCountFacts.

Module ExternalCallTrackerFacts.
Import IR Props PassProps ListFacts PassFacts ExternalCallTracker.

Lemma fold_terminators : forall l st,
  Forall (fun Inst => isTerminator Inst = true) l ->
  fold_left instrumentCall l st = st.
Proof.
  induction l as [|Inst l IH]; intros st H; [reflexivity|].
  inversion H as [|? ? H1 H2]; subst. cbn [fold_left].
  destruct st as [[bbs m] n]. unfold instrumentCall at 2. rewrite H1. now apply IH.
Qed.

Lemma terminator_calls_untouched : forall M F n,
  nothingToWrap M F -> instrumentExternalCalls M F n = (false, F, n).
Proof.
  intros M F n H. unfold instrumentExternalCalls, nothingToWrap in *.
  destruct (collectCalls M (blocks F)) as [|c cs]; [reflexivity|].
  rewrite (fold_terminators _ _ H). now rewrite setBlocks_blocks.
Qed.

(** ** One wrapped call *)

Lemma nextNonDebug_skip : forall dbg rest,
  Forall (fun i => isDbgInfoIntrinsic i = true) dbg ->
  nextNonDebug (dbg ++ rest) = nextNonDebug rest.
Proof.
  induction dbg as [|d dbg IH]; intros rest H; [reflexivity|].
  inversion H as [|? ? H1 H2]; subst. cbn. rewrite H1. now apply IH.
Qed.

Lemma nextNonDebugIn_at : forall a l1 x l2,
  ~ In a (addrs l1) -> addr x = a -> nextNonDebugIn a (l1 ++ x :: l2) = nextNonDebug l2.
Proof.
  induction l1 as [|y l1 IH]; intros x l2 Hn E; cbn.
  - now rewrite E, Nat.eqb_refl.
  - cbn in Hn. destruct (Nat.eqb_spec (addr y) a) as [E'|E']; [tauto|].
    apply IH; tauto.
Qed.

Lemma holds_addr : forall a BB,
  existsb (fun Inst => Nat.eqb (addr Inst) a) BB = true <-> In a (addrs BB).
Proof.
  intros a BB. rewrite existsb_exists. unfold addrs. rewrite in_map_iff. split.
  - intros (x & Hx & E). apply Nat.eqb_eq in E. eauto.
  - intros (x & E & Hx). exists x. split; [assumption | now apply Nat.eqb_eq].
Qed.

Lemma holds_addr_false : forall a BB,
  ~ In a (addrs BB) -> existsb (fun Inst => Nat.eqb (addr Inst) a) BB = false.
Proof.
  intros a BB H. destruct (existsb _ BB) eqn:E; [|reflexivity].
  apply holds_addr in E. contradiction.
Qed.

Lemma getNextNonDebug_skip : forall a before rest,
  Forall (fun BB => ~ In a (addrs BB)) before ->
  getNextNonDebugInstruction a (before ++ rest) = getNextNonDebugInstruction a rest.
Proof.
  induction before as [|B before IH]; intros rest H; [reflexivity|].
  inversion H as [|? ? H1 H2]; subst. cbn.
  rewrite (holds_addr_false _ _ H1). now apply IH.
Qed.

Lemma insertBeforeF_absent : forall a news bbs,
  Forall (fun BB => ~ In a (addrs BB)) bbs -> insertBeforeF a news bbs = bbs.
Proof.
  intros a news bbs H. unfold insertBeforeF.
  induction H as [|B bbs H1 H2 IH]; [reflexivity|].
  cbn. now rewrite (insertBefore_absent _ _ _ H1), IH.
Qed.

Lemma insertBeforeF_one : forall a news before l1 x l2 after,
  Forall (fun BB => ~ In a (addrs BB)) before ->
  Forall (fun BB => ~ In a (addrs BB)) after ->
  ~ In a (addrs l1) -> addr x = a ->
  insertBeforeF a news (before ++ (l1 ++ x :: l2) :: after)
  = before ++ (l1 ++ news ++ x :: l2) :: after.
Proof.
  intros a news before l1 x l2 after Hb Ha Hl E.
  unfold insertBeforeF. rewrite map_app. cbn [map].
  fold (insertBeforeF a news before). fold (insertBeforeF a news after).
  rewrite (insertBeforeF_absent _ _ _ Hb), (insertBeforeF_absent _ _ _ Ha).
  now rewrite (insertBefore_at _ _ _ _ _ Hl E).
Qed.

Lemma NoDup_concat_other : forall (before : list (list Instruction)) BB after x,
  NoDup (addrs (List.concat (before ++ BB :: after))) ->
  In x BB ->
  Forall (fun B => ~ In (addr x) (addrs B)) before /\
  Forall (fun B => ~ In (addr x) (addrs B)) after.
Proof.
  intros before BB after x Hnd Hx.
  rewrite concat_app in Hnd. cbn [List.concat] in Hnd. rewrite !addrs_app in Hnd.
  split; apply Forall_forall; intros B HB Hin.
  - eapply (NoDup_app_disjoint _ _ _ (addr x) Hnd).
    + unfold addrs in *. rewrite concat_map. apply in_concat. exists (map addr B).
      split; [now apply in_map | exact Hin].
    + apply in_or_app. left. now apply In_addrs.
  - apply NoDup_app_r in Hnd.
    eapply (NoDup_app_disjoint _ _ _ (addr x) Hnd).
    + now apply In_addrs.
    + unfold addrs in *. rewrite concat_map. apply in_concat. exists (map addr B).
      split; [now apply in_map | exact Hin].
Qed.

Lemma wrap_one_call : forall before pre C dbg Next post after Modified n,
  isTerminator C = false ->
  Forall (fun i => isDbgInfoIntrinsic i = true) dbg ->
  isDbgInfoIntrinsic Next = false ->
  NoDup (addrs (List.concat (before ++ (pre ++ C :: dbg ++ Next :: post) :: after))) ->
  belowFresh n (pre ++ C :: dbg ++ Next :: post) ->
  instrumentCall (before ++ (pre ++ C :: dbg ++ Next :: post) :: after, Modified, n) C
  = (before
       ++ (pre ++ CreateFence n SequentiallyConsistent :: extStartAt (n + 1) :: C :: dbg
             ++ CreateFence (n + 2) SequentiallyConsistent :: extEndAt (n + 3) (n + 1)
             :: Next :: post)
       :: after,
     true, n + 4).
Proof.
  intros before pre C dbg Next post after Modified n HT Hdbg HN Hnd Hfresh.
  set (BB := pre ++ C :: dbg ++ Next :: post) in *.
  assert (HC : In C BB) by (unfold BB; apply in_or_app; right; now left).
  assert (HNx : In Next BB).
  { unfold BB. apply in_or_app. right. right. apply in_or_app. right. now left. }
  destruct (NoDup_concat_other _ _ _ C Hnd HC) as [HbC HaC].
  destruct (NoDup_concat_other _ _ _ Next Hnd HNx) as [HbN HaN].
  assert (HndB : NoDup (addrs BB)).
  { pose proof (NoDup_concat_each _ Hnd) as Hall. rewrite Forall_app in Hall.
    destruct Hall as [_ Hall]. now inversion Hall. }
  assert (HpC : ~ In (addr C) (addrs pre)) by (exact (addr_not_in_prefix _ _ _ HndB)).
  assert (HpN : ~ In (addr Next) (addrs (pre ++ C :: dbg))).
  { unfold BB in HndB.
    replace (pre ++ C :: dbg ++ Next :: post) with ((pre ++ C :: dbg) ++ Next :: post) in HndB
      by (rewrite <- app_assoc; reflexivity).
    exact (addr_not_in_prefix _ _ _ HndB). }
  assert (HltN : addr Next < n) by (exact (belowFresh_in _ _ _ Hfresh HNx)).
  unfold instrumentCall. rewrite HT. unfold BB.
  rewrite (insertBeforeF_one (addr C) _ before pre C (dbg ++ Next :: post) after
             HbC HaC HpC eq_refl).
  rewrite (getNextNonDebug_skip _ _ _ HbC). cbn [getNextNonDebugInstruction].
  assert (Hin : existsb (fun Inst => Nat.eqb (addr Inst) (addr C))
                  (pre ++ [CreateFence n SequentiallyConsistent;
                           CreateCall (n + 1) (CalleeFunction EXTERNAL_CALL_START_FN) []]
                     ++ C :: dbg ++ Next :: post) = true).
  { apply holds_addr. rewrite !addrs_app. apply in_or_app. right. apply in_or_app. right.
    now left. }
  rewrite Hin.
  replace (pre ++ [CreateFence n SequentiallyConsistent;
                   CreateCall (n + 1) (CalleeFunction EXTERNAL_CALL_START_FN) []]
             ++ C :: dbg ++ Next :: post)
    with ((pre ++ [CreateFence n SequentiallyConsistent;
                   CreateCall (n + 1) (CalleeFunction EXTERNAL_CALL_START_FN) []])
            ++ C :: dbg ++ Next :: post)
    by (rewrite <- app_assoc; reflexivity).
  assert (HC' : ~ In (addr C)
                  (addrs (pre ++ [CreateFence n SequentiallyConsistent;
                     CreateCall (n + 1) (CalleeFunction EXTERNAL_CALL_START_FN) []]))).
  { rewrite addrs_app, in_app_iff. cbn.
    pose proof (belowFresh_in _ _ _ Hfresh HC). intuition lia. }
  rewrite (nextNonDebugIn_at _ _ C _ HC' eq_refl).
  rewrite (nextNonDebug_skip _ _ Hdbg). cbn [nextNonDebug]. rewrite HN.
  replace ((pre ++ [CreateFence n SequentiallyConsistent;
                    CreateCall (n + 1) (CalleeFunction EXTERNAL_CALL_START_FN) []])
             ++ C :: dbg ++ Next :: post)
    with ((pre ++ CreateFence n SequentiallyConsistent
               :: CreateCall (n + 1) (CalleeFunction EXTERNAL_CALL_START_FN) []
               :: C :: dbg) ++ Next :: post)
    by (rewrite <- !app_assoc; reflexivity).
  assert (HN' : ~ In (addr Next)
                  (addrs (pre ++ CreateFence n SequentiallyConsistent
                            :: CreateCall (n + 1) (CalleeFunction EXTERNAL_CALL_START_FN) []
                            :: C :: dbg))).
  { rewrite addrs_app, in_app_iff in *. cbn in *. intuition lia. }
  rewrite (insertBeforeF_one (addr Next) _ before _ Next post after HbN HaN HN' eq_refl).
  unfold extStartAt, extEndAt. rewrite <- !app_assoc. reflexivity.
Qed.


(** X13: when the one external call a function holds is no terminator,
    [instrumentExternalCalls] puts a sequentially consistent fence and the
    call of [external_call_start] immediately before it, and a fence and the
    call of [external_call_end], fed the value of the start call, before the
    next instruction that is no debug intrinsic; debug intrinsics that
    follow the call stay between the call and the end timer. *)
Theorem external_call_wrapped : forall M F before pre C dbg Next post after n,
  blocks F = before ++ (pre ++ C :: dbg ++ Next :: post) :: after ->
  collectCalls M (blocks F) = [C] ->
  isTerminator C = false ->
  Forall (fun i => isDbgInfoIntrinsic i = true) dbg ->
  isDbgInfoIntrinsic Next = false ->
  uniqueAddrs F -> freshFor n F ->
  instrumentExternalCalls M F n
  = (true,
     setBlocks
       (before
          ++ (pre ++ CreateFence n SequentiallyConsistent :: extStartAt (n + 1) :: C :: dbg
                ++ CreateFence (n + 2) SequentiallyConsistent :: extEndAt (n + 3) (n + 1)
                :: Next :: post)
          :: after) F,
     n + 4).
Proof.
  intros M F before pre C dbg Next post after n HB Hc HT Hdbg HN Hu Hf.
  unfold instrumentExternalCalls. rewrite Hc. cbn [fold_left]. rewrite HB.
  unfold uniqueAddrs in Hu. unfold freshFor in Hf. rewrite HB in Hu, Hf.
  rewrite (wrap_one_call before pre C dbg Next post after false n HT Hdbg HN Hu).
  - reflexivity.
  - rewrite Forall_app in Hf. destruct Hf as [_ Hf]. now inversion Hf.
Qed.

Lemma external_call_wrapped_witness :
  instrumentExternalCalls PassSamples.modulePuts PassSamples.fnCallsPuts 10
  = (true,
     setBlocks
       ([]
          ++ ([Samples.inst 0 Alloca] ++ CreateFence 10 SequentiallyConsistent
                :: extStartAt (10 + 1) :: PassSamples.callTo 1 "puts"
                :: [PassSamples.callTo 2 "llvm.dbg.value"]
                ++ CreateFence (10 + 2) SequentiallyConsistent :: extEndAt (10 + 3) (10 + 1)
                :: Samples.inst 3 Ret :: [])
          :: []) PassSamples.fnCallsPuts,
     10 + 4).
Proof.
  apply (external_call_wrapped PassSamples.modulePuts PassSamples.fnCallsPuts []
           [Samples.inst 0 Alloca] (PassSamples.callTo 1 "puts")
           [PassSamples.callTo 2 "llvm.dbg.value"] (Samples.inst 3 Ret) [] [] 10).
  - reflexivity.
  - reflexivity.
  - reflexivity.
  - repeat constructor.
  - reflexivity.
  - unfold uniqueAddrs. simpl. repeat constructor; simpl; intuition discriminate.
  - repeat constructor.
Defined.

(** ** What the second pass leaves in place *)

Lemma filter_insertBefore_new : forall (p : Instruction -> bool) a news BB,
  Forall (fun i => p i = false) news ->
  filter p (insertBefore a news BB) = filter p BB.
Proof.
  intros p a news BB H. induction BB as [|x BB IH]; [reflexivity|].
  cbn [insertBefore]. destruct (Nat.eqb (addr x) a).
  - rewrite filter_app. now rewrite (filter_none _ p news H).
  - cbn [filter]. now rewrite IH.
Qed.

Lemma In_insertBefore_cases : forall a news BB x,
  In x (insertBefore a news BB) -> In x news \/ In x BB.
Proof.
  intros a news BB x. induction BB as [|y BB IH]; cbn; [tauto|].
  destruct (Nat.eqb (addr y) a).
  - rewrite in_app_iff. cbn. tauto.
  - cbn. intros [H|H]; [tauto|]. destruct (IH H); tauto.
Qed.

Lemma keptOrTimer_insert : forall n a news bbs,
  Forall TimerInst news -> keptOrTimer n bbs -> keptOrTimer n (insertBeforeF a news bbs).
Proof.
  intros n a news bbs Hn H. unfold keptOrTimer, insertBeforeF in *.
  rewrite Forall_map. eapply Forall_impl; [|exact H].
  intros BB HBB. apply Forall_forall. intros x Hx.
  destruct (In_insertBefore_cases _ _ _ _ Hx) as [Hx'|Hx'].
  - right. rewrite Forall_forall in Hn. now apply Hn.
  - rewrite Forall_forall in HBB. now apply HBB.
Qed.

Lemma secondPass_keeps : forall n l bbs m k,
  n <= k -> keptOrTimer n bbs ->
  match fold_left instrumentCall l (bbs, m, k) with
  | (bbs', _, k') =>
      map (filter (olderThan n)) bbs' = map (filter (olderThan n)) bbs /\ k <= k' /\
      keptOrTimer n bbs'
  end.
Proof.
  intros n l. induction l as [|Inst l IH]; intros bbs m k Hk HK; [cbn; auto|].
  cbn [fold_left]. unfold instrumentCall at 2.
  destruct (isTerminator Inst); [now apply IH|].
  set (news1 := [CreateFence k SequentiallyConsistent;
                 CreateCall (k + 1) (CalleeFunction EXTERNAL_CALL_START_FN) []]).
  assert (Hold1 : Forall (fun i => olderThan n i = false) news1).
  { repeat constructor; unfold olderThan; cbn; apply Nat.ltb_ge; lia. }
  assert (HT1 : Forall TimerInst news1).
  { constructor; [exists k; now left|].
    constructor; [exists (k + 1); right; now left | constructor]. }
  assert (E1 : map (filter (olderThan n)) (insertBeforeF (addr Inst) news1 bbs)
               = map (filter (olderThan n)) bbs).
  { unfold insertBeforeF. rewrite map_map. apply map_ext. intros BB.
    now apply filter_insertBefore_new. }
  destruct (getNextNonDebugInstruction (addr Inst) (insertBeforeF (addr Inst) news1 bbs))
    as [NextInst|].
  - set (news2 := [CreateFence (k + 2) SequentiallyConsistent;
                   CreateCall (k + 3) (CalleeFunction EXTERNAL_CALL_END_FN) [VInst (k + 1)]]).
    assert (Hold2 : Forall (fun i => olderThan n i = false) news2).
    { repeat constructor; unfold olderThan; cbn; apply Nat.ltb_ge; lia. }
    assert (HT2 : Forall TimerInst news2).
    { constructor; [exists (k + 2); now left|].
      constructor; [exists (k + 3); right; right; now exists (k + 1) | constructor]. }
    specialize (IH (insertBeforeF (addr NextInst) news2
                      (insertBeforeF (addr Inst) news1 bbs)) true (k + 4)).
    destruct (fold_left instrumentCall l _) as [[bbs' m'] k'].
    destruct IH as (Ha & Hb & Hc); [lia | now repeat apply keptOrTimer_insert |].
    split; [|split; [lia | assumption]].
    rewrite Ha, <- E1. unfold insertBeforeF at 1. rewrite map_map. apply map_ext.
    intros BB. now apply filter_insertBefore_new.
  - specialize (IH (insertBeforeF (addr Inst) news1 bbs) m (k + 2)).
    destruct (fold_left instrumentCall l _) as [[bbs' m'] k'].
    destruct IH as (Ha & Hb & Hc); [lia | now apply keptOrTimer_insert |].
    split; [|split; [lia | assumption]]. now rewrite Ha.
Qed.

Lemma filter_older_fresh : forall n bbs,
  Forall (belowFresh n) bbs -> map (filter (olderThan n)) bbs = bbs.
Proof.
  intros n bbs H. induction H as [|BB bbs HBB _ IH]; [reflexivity|].
  cbn [map]. rewrite IH. f_equal.
  induction HBB as [|x BB Hx _ IHB]; [reflexivity|].
  cbn [filter]. unfold olderThan at 1. apply Nat.ltb_lt in Hx. now rewrite Hx, IHB.
Qed.

Lemma keptOrTimer_fresh : forall n bbs, Forall (belowFresh n) bbs -> keptOrTimer n bbs.
Proof.
  intros n bbs H. unfold keptOrTimer. eapply Forall_impl; [|exact H].
  intros BB HBB. eapply Forall_impl; [|exact HBB].
  intros x Hx. left. now apply Nat.ltb_lt.
Qed.

(** X14: [instrumentExternalCalls] removes, reorders and alters nothing:
    the instructions that were there before, read in order, are the blocks
    of the input, and every instruction it has created is a fence, a call
    of [external_call_start] or a call of [external_call_end]. *)
Theorem external_calls_only_added : forall M F n,
  freshFor n F ->
  exists m bbs n',
    instrumentExternalCalls M F n = (m, setBlocks bbs F, n') /\
    map (filter (olderThan n)) bbs = blocks F /\
    n <= n' /\
    Forall (Forall (fun i => olderThan n i = true \/ TimerInst i)) bbs.
Proof.
  intros M F n Hf. unfold instrumentExternalCalls.
  destruct (collectCalls M (blocks F)) as [|c cs].
  - exists false, (blocks F), n. rewrite setBlocks_blocks.
    split; [reflexivity|]. split; [now apply filter_older_fresh|].
    split; [lia | now apply keptOrTimer_fresh].
  - pose proof (secondPass_keeps n (c :: cs) (blocks F) false n (Nat.le_refl n)
                  (keptOrTimer_fresh _ _ Hf)) as H.
    destruct (fold_left instrumentCall (c :: cs) (blocks F, false, n)) as [[bbs' m'] k'].
    destruct H as (Ha & Hb & Hc). exists m', bbs', k'.
    split; [reflexivity|]. split; [|split; assumption].
    rewrite Ha. now apply filter_older_fresh.
Qed.

Lemma external_calls_only_added_witness :
  exists m bbs n',
    instrumentExternalCalls PassSamples.modulePuts PassSamples.fnCallsPuts 10
    = (m, setBlocks bbs PassSamples.fnCallsPuts, n') /\
    map (filter (olderThan 10)) bbs = blocks PassSamples.fnCallsPuts /\
    10 <= n' /\
    Forall (Forall (fun i => olderThan 10 i = true \/ TimerInst i)) bbs.
Proof.
  apply (external_calls_only_added PassSamples.modulePuts PassSamples.fnCallsPuts 10).
  repeat constructor.
Defined.

(** ** A module with nothing to wrap *)

Lemma isExternalCall_declared : forall name M Inst,
  isRuntimeFunction name = true ->
  isExternalCall (getOrInsertFunction name M) Inst = isExternalCall M Inst.
Proof.
  intros name M Inst Hr. unfold getOrInsertFunction.
  destruct (lookupFunction name (functions M)) eqn:El; [reflexivity|].
  unfold isExternalCall, getCalledFunction.
  destruct (isCallBaseOp (opcode Inst)); [|reflexivity].
  destruct (calledOperand Inst) as [[nm| |]|]; try reflexivity.
  cbn [functions setFunctions]. rewrite lookupFunction_app.
  destruct (lookupFunction nm (functions M)) eqn:E; [reflexivity|].
  cbn. destruct (String.eqb_spec name nm) as [->|]; [|reflexivity].
  cbn. rewrite Hr. now destruct (String.prefix "llvm." nm).
Qed.

Lemma collectCalls_declared : forall name M bbs,
  isRuntimeFunction name = true ->
  collectCalls (getOrInsertFunction name M) bbs = collectCalls M bbs.
Proof.
  intros name M bbs Hr. unfold collectCalls.
  induction bbs as [|BB bbs IH]; [reflexivity|]. cbn [flat_map]. rewrite IH. f_equal.
  apply filter_ext. intros Inst. now apply isExternalCall_declared.
Qed.

Lemma instrumentFunctions_nothing : forall M fs n,
  Forall (fun F => isDeclaration F = true \/ nothingToWrap M F) fs ->
  instrumentFunctions M fs false n = (fs, false, n).
Proof.
  intros M fs n H. induction H as [|F fs HF _ IH]; [reflexivity|].
  cbn [instrumentFunctions].
  destruct (isDeclaration F || isRuntimeFunction (fname F)) eqn:E; [now rewrite IH|].
  destruct HF as [HF|HF].
  - rewrite HF in E. discriminate.
  - rewrite (terminator_calls_untouched M F n HF). now rewrite IH.
Qed.

(** X15: on a primary build of a module in which every external call is a
    terminator (or there is none), ExternalCallTracker leaves every function
    as it was and reports that all analyses are preserved; the module still
    gains the declarations of [external_call_start] and
    [external_call_end]. *)
Theorem external_nothing_to_wrap : forall env M n,
  isPrimaryPackage env = true ->
  Forall (nothingToWrap M) (functions M) ->
  run env M n
  = (PA_all,
     getOrInsertFunction EXTERNAL_CALL_END_FN (getOrInsertFunction EXTERNAL_CALL_START_FN M),
     n).
Proof.
  intros env M n Hp H. unfold run. rewrite Hp. cbn [negb].
  set (M1 := getOrInsertFunction EXTERNAL_CALL_END_FN
               (getOrInsertFunction EXTERNAL_CALL_START_FN M)).
  assert (Hall : Forall (fun F => isDeclaration F = true \/ nothingToWrap M1 F)
                   (functions M1)).
  { unfold M1.
    destruct (declared_functions EXTERNAL_CALL_START_FN M) as (d1 & E1 & D1 & _).
    destruct (declared_functions EXTERNAL_CALL_END_FN
                (getOrInsertFunction EXTERNAL_CALL_START_FN M)) as (d2 & E2 & D2 & _).
    rewrite E2, E1. rewrite !Forall_app. repeat split.
    - eapply Forall_impl; [|exact H]. intros F HF. right. unfold nothingToWrap in *.
      now rewrite !collectCalls_declared.
    - eapply Forall_impl; [|exact D1]. intros; now left.
    - eapply Forall_impl; [|exact D2]. intros; now left. }
  rewrite (instrumentFunctions_nothing M1 (functions M1) n Hall).
  now rewrite setFunctions_functions.
Qed.

Lemma external_nothing_to_wrap_witness :
  run Samples.primary PassSamples.moduleInvokes 10
  = (PA_all,
     getOrInsertFunction EXTERNAL_CALL_END_FN
       (getOrInsertFunction EXTERNAL_CALL_START_FN PassSamples.moduleInvokes),
     10).
Proof.
  apply (external_nothing_to_wrap Samples.primary PassSamples.moduleInvokes 10).
  - reflexivity.
  - repeat constructor.
Defined.

End ExternalCallTrackerFacts.

Module HeapTrackerProofs.
Import IR Props PassProps ListFacts PassFacts HeapTracker.

Lemma instrumentCollected_walk : forall rest done n,
  NoDup (addrs rest) -> belowFresh n rest ->
  Forall (fun x => ~ In (addr x) (addrs done)) rest ->
  instrumentCollected (filter isMemInst rest) (done ++ rest) n
  = (done ++ fst (memWalk rest n), snd (memWalk rest n)).
Proof.
  induction rest as [|x rest IH]; intros done n Hnd Hf Hd.
  - cbn. reflexivity.
  - inversion Hnd as [|? ? Hx Hnd']; subst.
    inversion Hf as [|? ? Hlt Hf']; subst.
    inversion Hd as [|? ? Hxd Hd']; subst.
    cbn [filter memWalk]. destruct (isMemInst x) eqn:Em.
    + cbn [instrumentCollected].
      rewrite (insertBefore_at (addr x) _ done x rest Hxd eq_refl).
      replace (done ++ [CreateCall n (CalleeFunction DYN_MEM_ACCESS_FN) [getPointerOperand x]]
                 ++ x :: rest)
        with ((done ++ [memCallAt n x; x]) ++ rest)
        by (rewrite <- app_assoc; reflexivity).
      rewrite IH; try assumption.
      * destruct (memWalk rest (n + 1)) as [r' n']. cbn [fst snd].
        rewrite <- app_assoc. reflexivity.
      * eapply belowFresh_mono; [|exact Hf']. lia.
      * rewrite Forall_forall in *. intros y Hy. rewrite addrs_app, in_app_iff. cbn.
        intros [H|[H|[H|[]]]].
        -- exact (Hd' y Hy H).
        -- specialize (Hf' y Hy). cbn in Hf'. lia.
        -- apply Hx. rewrite H. now apply In_addrs.
    + replace (done ++ x :: rest) with ((done ++ [x]) ++ rest)
        by (rewrite <- app_assoc; reflexivity).
      rewrite IH; try assumption.
      * destruct (memWalk rest n) as [r' n']. cbn [fst snd].
        rewrite <- app_assoc. reflexivity.
      * rewrite Forall_forall in *. intros y Hy. rewrite addrs_app, in_app_iff. cbn.
        intros [H|[H|[]]].
        -- exact (Hd' y Hy H).
        -- apply Hx. rewrite H. now apply In_addrs.
Qed.

Lemma memInst_not_asm : forall x, isMemInst x = true -> inlineAsmOfCallInst x = None.
Proof.
  intros x H. unfold isMemInst, isLoad, isStore, inlineAsmOfCallInst in *.
  destruct (opcode x); try discriminate; reflexivity.
Qed.

Lemma isSome_activeAfter : forall act x,
  isSome (activeAfter act x) = regionAfter (isSome act) x.
Proof.
  intros act x. unfold activeAfter, regionAfter.
  destruct (inlineAsmOfCallInst x) as [s|]; [|reflexivity].
  destruct (String.eqb s UNSAFE_MARKER_BEGIN); [reflexivity|].
  destruct (String.eqb s UNSAFE_MARKER_END); [now destruct act | reflexivity].
Qed.

Lemma unsafeMemBlock_plain : forall x r act k,
  isMemInst x = false ->
  unsafeMemBlock (x :: r) act k
  = (x :: fst (unsafeMemBlock r (activeAfter act x) k),
     snd (unsafeMemBlock r (activeAfter act x) k)).
Proof.
  intros x r act k Em. cbn [unsafeMemBlock]. fold (isMemInst x). rewrite Em.
  fold (activeAfter act x).
  replace (match act with Some _ => [] | None => [] end) with (@nil Instruction)
    by (now destruct act).
  cbn [List.length app]. rewrite Nat.add_0_r.
  now destruct (unsafeMemBlock r (activeAfter act x) k).
Qed.

Lemma unsafeMemBlock_mem : forall x r act k,
  isMemInst x = true ->
  unsafeMemBlock (x :: r) act k
  = if isSome act
    then (unsafeMemCallAt k x :: x :: fst (unsafeMemBlock r act (k + 1)),
          snd (unsafeMemBlock r act (k + 1)))
    else (x :: fst (unsafeMemBlock r act k), snd (unsafeMemBlock r act k)).
Proof.
  intros x r act k Em. cbn [unsafeMemBlock]. fold (isMemInst x). rewrite Em.
  rewrite (memInst_not_asm x Em). destruct act as [a|]; cbn [isSome List.length app].
  - now destruct (unsafeMemBlock r (Some a) (k + 1)).
  - rewrite Nat.add_0_r. now destruct (unsafeMemBlock r None k).
Qed.

Lemma memCall_plain : forall n x, isMemInst (memCallAt n x) = false.
Proof. reflexivity. Qed.

Lemma memCall_active : forall act n x, activeAfter act (memCallAt n x) = act.
Proof. reflexivity. Qed.

Lemma unsafeMemBlock_walk : forall BB act n k,
  unsafeMemBlock (fst (memWalk BB n)) act k
  = (fst (fst (heapWalk BB (isSome act) n k)), snd (heapWalk BB (isSome act) n k)).
Proof.
  induction BB as [|x BB IH]; intros act n k; [reflexivity|].
  cbn [memWalk heapWalk]. destruct (isMemInst x) eqn:Em.
  - destruct (memWalk BB (n + 1)) as [r1 n1] eqn:E1. cbn [fst].
    rewrite (unsafeMemBlock_plain _ _ _ _ (memCall_plain n x)), memCall_active.
    rewrite (unsafeMemBlock_mem _ _ _ _ Em).
    specialize (IH act (n + 1)). rewrite E1 in IH. cbn [fst] in IH.
    destruct (isSome act) eqn:Ea.
    + rewrite (IH (k + 1)). cbn [fst snd].
      destruct (heapWalk BB true (n + 1) (k + 1)) as [[r' n'] k']. reflexivity.
    + rewrite (IH k). cbn [fst snd].
      destruct (heapWalk BB false (n + 1) k) as [[r' n'] k']. reflexivity.
  - destruct (memWalk BB n) as [r1 n1] eqn:E1. cbn [fst].
    rewrite (unsafeMemBlock_plain _ _ _ _ Em).
    specialize (IH (activeAfter act x) n k). rewrite E1 in IH. cbn [fst] in IH.
    rewrite IH, isSome_activeAfter. cbn [fst snd].
    destruct (heapWalk BB (regionAfter (isSome act) x) n k) as [[r' n'] k']. reflexivity.
Qed.

(** ** The two passes over a function *)

Lemma memWalk_count : forall BB n,
  snd (memWalk BB n) = n + List.length (filter isMemInst BB).
Proof.
  induction BB as [|x BB IH]; intros n; cbn [memWalk filter]; [cbn; lia|].
  destruct (isMemInst x).
  - specialize (IH (n + 1)). destruct (memWalk BB (n + 1)). cbn in *. lia.
  - specialize (IH n). now destruct (memWalk BB n).
Qed.

Lemma heapWalk_first_counter : forall BB act n k,
  snd (fst (heapWalk BB act n k)) = snd (memWalk BB n).
Proof.
  induction BB as [|x BB IH]; intros act n k; [reflexivity|].
  cbn [heapWalk memWalk]. destruct (isMemInst x).
  - specialize (IH act (n + 1) (if act then k + 1 else k)).
    destruct (heapWalk BB act (n + 1) _) as [[r' n'] k'].
    destruct (memWalk BB (n + 1)). exact IH.
  - specialize (IH (regionAfter act x) n k).
    destruct (heapWalk BB (regionAfter act x) n k) as [[r' n'] k'].
    destruct (memWalk BB n). exact IH.
Qed.

Lemma instrumentMemInst_walk : forall bbs n,
  Forall (fun BB => NoDup (addrs BB)) bbs -> Forall (belowFresh n) bbs ->
  instrumentMemInst bbs n = memWalkBlocks bbs n.
Proof.
  induction bbs as [|BB bbs IH]; intros n Hnd Hf; [reflexivity|].
  inversion Hnd as [|? ? H1 H2]; subst. inversion Hf as [|? ? F1 F2]; subst.
  cbn [instrumentMemInst memWalkBlocks]. fold (isMemInst).
  change (fun Inst => isLoad Inst || isStore Inst) with isMemInst.
  pose proof (instrumentCollected_walk BB [] n H1 F1) as Hw. cbn [app] in Hw.
  rewrite Hw by (apply Forall_forall; intros ? ? []).
  pose proof (memWalk_count BB n) as Hc.
  destruct (memWalk BB n) as [BB' n1]. cbn [fst snd] in *.
  rewrite IH; [reflexivity | assumption |].
  eapply Forall_impl; [|exact F2]. intros B HB. eapply belowFresh_mono; [|exact HB]. lia.
Qed.

Lemma memWalkBlocks_count : forall bbs n,
  snd (memWalkBlocks bbs n) = n + memInstCount bbs.
Proof.
  unfold memInstCount. induction bbs as [|BB bbs IH]; intros n; [cbn; lia|].
  cbn [memWalkBlocks List.concat]. rewrite filter_app, length_app.
  pose proof (memWalk_count BB n) as Hc. destruct (memWalk BB n) as [BB' n1].
  specialize (IH n1). destruct (memWalkBlocks bbs n1). cbn [fst snd] in *. lia.
Qed.

Lemma instrumentUnsafeMemInst_walk : forall bbs n k,
  instrumentUnsafeMemInst (fst (memWalkBlocks bbs n)) k
  = (fst (fst (heapWalkBlocks bbs n k)), snd (heapWalkBlocks bbs n k)).
Proof.
  induction bbs as [|BB bbs IH]; intros n k; [reflexivity|].
  cbn [memWalkBlocks heapWalkBlocks].
  pose proof (unsafeMemBlock_walk BB None n k) as Hw.
  pose proof (heapWalk_first_counter BB false n k) as Hn.
  destruct (memWalk BB n) as [BB1 n1]. cbn [fst snd isSome] in *.
  destruct (heapWalk BB false n k) as [[BB' n1'] k1]. cbn [fst snd] in *. subst n1'.
  specialize (IH n1). destruct (memWalkBlocks bbs n1) as [r1 n2]. cbn [fst] in *.
  cbn [instrumentUnsafeMemInst]. rewrite Hw, IH.
  destruct (heapWalkBlocks bbs n1 k1) as [[r' n'] k']. reflexivity.
Qed.

(** X16: on a primary build, for a function with distinct instruction
    objects in every block, the two passes of HeapTracker together give what
    one walk over each block gives: every load and store is preceded by a
    call of [dyn_mem_access] with its pointer operand, and a load or store
    after a begin sentinel of its block with no end sentinel in between has
    in addition a call of [dyn_unsafe_mem_access], with the pointer and the
    load flag, between that call and itself.  The verdict is that all
    analyses are preserved, whatever was inserted. *)
Theorem heap_tracker_walk : forall env M F n,
  isPrimaryPackage env = true ->
  Forall (fun BB => NoDup (addrs BB)) (blocks F) -> freshFor n F ->
  exists bbs n1 n2,
    heapWalkBlocks (blocks F) n (n + memInstCount (blocks F)) = (bbs, n1, n2) /\
    run env M F n
    = (PA_all,
       getOrInsertFunction DYN_UNSAFE_MEM_ACCESS_FN (getOrInsertFunction DYN_MEM_ACCESS_FN M),
       setBlocks bbs F, n2).
Proof.
  intros env M F n Hp Hnd Hf. unfold run. rewrite Hp. cbn [negb].
  rewrite (instrumentMemInst_walk (blocks F) n Hnd Hf).
  pose proof (memWalkBlocks_count (blocks F) n) as Hc.
  pose proof (instrumentUnsafeMemInst_walk (blocks F) n (n + memInstCount (blocks F))) as Hw.
  destruct (memWalkBlocks (blocks F) n) as [bbs1 n1]. cbn [fst snd] in *. subst n1.
  rewrite Hw.
  destruct (heapWalkBlocks (blocks F) n (n + memInstCount (blocks F))) as [[bbs n1] n2].
  exists bbs, n1, n2. split; reflexivity.
Qed.

Lemma heap_tracker_walk_witness :
  exists bbs n1 n2,
    heapWalkBlocks (blocks PassSamples.fnHeap) 10
      (10 + memInstCount (blocks PassSamples.fnHeap)) = (bbs, n1, n2) /\
    run Samples.primary Samples.emptyModule PassSamples.fnHeap 10
    = (PA_all,
       getOrInsertFunction DYN_UNSAFE_MEM_ACCESS_FN
         (getOrInsertFunction DYN_MEM_ACCESS_FN Samples.emptyModule),
       setBlocks bbs PassSamples.fnHeap, n2).
Proof.
  apply (heap_tracker_walk Samples.primary Samples.emptyModule PassSamples.fnHeap 10).
  - reflexivity.
  - repeat constructor; simpl; intuition discriminate.
  - repeat constructor.
Defined.

End HeapTrackerProofs.

Module DebugInfoPreserverProofs.
Import IR Props PassProps ListFacts PassFacts DebugInfoPreserver.

Lemma verifyLoop_in_place : forall rest done Modified,
  NoDup (addrs (done ++ rest)) ->
  verifyLoop rest (option_map addr (hd_error rest)) (done ++ rest) Modified
  = (Modified, done ++ rest).
Proof.
  induction rest as [|PN rest IH]; intros done Modified Hnd; [reflexivity|].
  cbn [verifyLoop hd_error option_map sameNode].
  destruct (isPHI PN); [|reflexivity].
  rewrite Nat.eqb_refl. cbn [negb]. unfold advance.
  rewrite (getNextNode_at (addr PN) done PN rest (addr_not_in_prefix _ _ _ Hnd) eq_refl).
  replace (done ++ PN :: rest) with ((done ++ [PN]) ++ rest) in *
    by (rewrite <- app_assoc; reflexivity).
  apply IH. exact Hnd.
Qed.

Lemma verifyPHINodes_in_place : forall BB,
  NoDup (addrs BB) -> verifyPHINodes BB = (false, BB).
Proof. intros BB H. exact (verifyLoop_in_place BB [] false H). Qed.

Lemma verifyBlocks_in_place : forall bbs Modified,
  Forall (fun BB => NoDup (addrs BB)) bbs -> verifyBlocks bbs Modified = (Modified, bbs).
Proof.
  induction bbs as [|BB bbs IH]; intros Modified H; [reflexivity|].
  inversion H as [|? ? H1 H2]; subst. cbn [verifyBlocks].
  rewrite (verifyPHINodes_in_place BB H1), orb_false_r, (IH Modified H2). reflexivity.
Qed.

Lemma reorderPHIs_in_place : forall fs Modified,
  Forall (fun F => Forall (fun BB => NoDup (addrs BB)) (blocks F)) fs ->
  reorderPHIs fs Modified = (Modified, fs).
Proof.
  induction fs as [|F fs IH]; intros Modified H; [reflexivity|].
  inversion H as [|? ? H1 H2]; subst. cbn [reorderPHIs].
  destruct (isDeclaration F).
  - now rewrite (IH Modified H2).
  - rewrite (verifyBlocks_in_place (blocks F) Modified H1), (IH Modified H2).
    now rewrite setBlocks_blocks.
Qed.

(** X17: [verifyPHINodes] moves nothing: on a block of distinct
    instruction objects it returns false and leaves the block as it was,
    wherever the PHI nodes stand. *)
Theorem phi_normalisation_moves_nothing : forall BB,
  NoDup (addrs BB) -> verifyPHINodes BB = (false, BB).
Proof. intros BB H. exact (verifyLoop_in_place BB [] false H). Qed.

Lemma phi_normalisation_witness :
  verifyPHINodes PassSamples.blockTwoPhis = (false, PassSamples.blockTwoPhis).
Proof.
  apply (phi_normalisation_moves_nothing PassSamples.blockTwoPhis).
  repeat constructor; simpl; intuition discriminate.
Defined.

Lemma collectLocations_nodes : forall fs,
  collectLocations fs
  = map locationNode (validLocations (flat_map (fun F => List.concat (blocks F)) fs)).
Proof.
  intros fs. unfold collectLocations, validLocations.
  induction fs as [|F fs IH]; [reflexivity|].
  cbn [flat_map]. rewrite flat_map_app, map_app, IH. f_equal.
  induction (blocks F) as [|BB bbs IHb]; [reflexivity|].
  cbn [flat_map List.concat]. rewrite flat_map_app, map_app, IHb. f_equal.
  induction BB as [|Inst BB IHi]; [reflexivity|].
  cbn [flat_map]. rewrite map_app, IHi. f_equal.
  destruct (debugLoc Inst) as [Loc|]; [|reflexivity].
  destruct (isValidDebugLocation (Some Loc)); reflexivity.
Qed.

(** X18: on a module whose blocks hold distinct instruction objects the
    pass leaves every function as it was and reports that all analyses are
    preserved, although it has added the anchor global and its entry in the
    compiler-used set.  The anchor carries one node per instruction with a
    valid location, in module order; locations shared by several
    instructions are listed once per instruction. *)
Theorem anchor_pass_result : forall M n,
  uniqueInBlocks M ->
  run M n
  = (PA_all,
     mkModule (functions M)
       (globals M ++ [anchorGlobal n (map locationNode (validLocations (instructionsOf M)))])
       (global_ctors M) (global_dtors M) (compiler_used M ++ [n]),
     n + 1).
Proof.
  intros M n H. unfold run. rewrite (reorderPHIs_in_place (functions M) false H).
  rewrite collectLocations_nodes. fold (instructionsOf M). unfold anchorGlobal.
  destruct M as [fs gl ct dt cu]. cbn [functions globals global_ctors global_dtors
    compiler_used setFunctions addGlobal appendToCompilerUsed].
  now destruct (map locationNode (validLocations (instructionsOf (mkModule fs gl ct dt cu)))).
Qed.

Lemma anchor_pass_witness :
  run PassSamples.moduleLocated 5
  = (PA_all,
     mkModule (functions PassSamples.moduleLocated)
       (globals PassSamples.moduleLocated
          ++ [anchorGlobal 5
                (map locationNode (validLocations (instructionsOf PassSamples.moduleLocated)))])
       (global_ctors PassSamples.moduleLocated) (global_dtors PassSamples.moduleLocated)
       (compiler_used PassSamples.moduleLocated ++ [5]),
     5 + 1).
Proof.
  apply (anchor_pass_result PassSamples.moduleLocated 5).
  repeat constructor; simpl; intuition discriminate.
Defined.

End DebugInfoPreserverProofs.

Module DynamicLineCountProofs.
Import IR Props PassProps ListFacts PassFacts DynamicLineCount.

(** ** Phase 1 against the tracked pairs *)

Lemma after_nil : forall c, after [] [] c = c.
Proof.
  intros []. unfold after. cbn. now rewrite app_nil_r, orb_false_r, Nat.add_0_r.
Qed.

Lemma after_after : forall ps1 gs1 ps2 gs2 c,
  after ps2 gs2 (after ps1 gs1 c) = after (ps1 ++ ps2) (gs1 ++ gs2) c.
Proof.
  intros. unfold after, insertKeys. cbn [allUnsafeLines strings modified fresh].
  rewrite fold_left_app, <- app_assoc, length_app. f_equal.
  - rewrite <- orb_assoc. f_equal. destruct ps1, ps2; reflexivity.
  - lia.
Qed.

Lemma collectBlock_tracked : forall BB inside c,
  exists BB' gs,
    collectBlock BB inside c = (BB', after (trackedBlock inside BB) gs c) /\
    List.length gs = List.length (trackedBlock inside BB) /\
    (trackedBlock inside BB = [] -> BB' = BB).
Proof.
  induction BB as [|Inst rest IH]; intros inside c.
  - exists [], []. cbn [collectBlock trackedBlock]. now rewrite after_nil.
  - cbn [collectBlock trackedBlock].
    destruct (isMarkerInstruction Inst) as [isBegin|].
    + destruct (IH isBegin c) as (BB' & gs & E & Hl & Hsame). rewrite E.
      exists (Inst :: BB'), gs. split; [reflexivity|]. split; [assumption|].
      intros H. now rewrite (Hsame H).
    + unfold hasUnsafeInst.
      destruct (if inside && isSome (getMetadata "unsafe_inst" Inst) then lineInfo Inst
                else None) as [[Line File]|].
      * set (c1 := mkCollect _ _ true _).
        destruct (IH inside c1) as (BB' & gs & E & Hl & Hsame). rewrite E.
        eexists. exists (createGlobalString (fresh c) File :: gs).
        split; [|split; [cbn; now rewrite Hl | discriminate]].
        f_equal.
        replace c1 with (after [(Line, File)] [createGlobalString (fresh c) File] c).
        -- now rewrite after_after.
        -- unfold after, c1. cbn. now rewrite orb_true_r.
      * destruct (IH inside c) as (BB' & gs & E & Hl & Hsame). rewrite E.
        exists (Inst :: BB'), gs. split; [reflexivity|]. split; [assumption|].
        intros H. now rewrite (Hsame H).
Qed.

Lemma collectBlocks_tracked : forall bbs c,
  exists bbs' gs,
    collectBlocks bbs c = (bbs', after (flat_map (trackedBlock false) bbs) gs c) /\
    List.length gs = List.length (flat_map (trackedBlock false) bbs) /\
    (flat_map (trackedBlock false) bbs = [] -> bbs' = bbs).
Proof.
  induction bbs as [|BB bbs IH]; intros c.
  - exists [], []. cbn. now rewrite after_nil.
  - cbn [collectBlocks flat_map].
    destruct (collectBlock_tracked BB false c) as (BB' & g1 & E1 & L1 & S1). rewrite E1.
    destruct (IH (after (trackedBlock false BB) g1 c)) as (bbs' & g2 & E2 & L2 & S2).
    rewrite E2. exists (BB' :: bbs'), (g1 ++ g2). rewrite after_after.
    split; [reflexivity|]. split; [rewrite !length_app; lia|].
    intros H. apply app_eq_nil in H. destruct H as [Ha Hb].
    now rewrite (S1 Ha), (S2 Hb).
Qed.

Lemma collectFunctions_tracked : forall fs c,
  exists fs' gs,
    collectFunctions fs c = (fs', after (trackedFunctions fs) gs c) /\
    List.length gs = List.length (trackedFunctions fs) /\
    (trackedFunctions fs = [] -> fs' = fs).
Proof.
  induction fs as [|F fs IH]; intros c.
  - exists [], []. cbn. now rewrite after_nil.
  - cbn [collectFunctions]. unfold trackedFunctions. cbn [flat_map].
    fold (trackedFunctions fs). destruct (shouldInstrumentFunction F).
    + destruct (collectBlocks_tracked (blocks F) c) as (bbs & g1 & E1 & L1 & S1).
      rewrite E1.
      destruct (IH (after (flat_map (trackedBlock false) (blocks F)) g1 c))
        as (fs' & g2 & E2 & L2 & S2).
      rewrite E2. exists (setBlocks bbs F :: fs'), (g1 ++ g2). rewrite after_after.
      split; [reflexivity|]. split; [rewrite !length_app; lia|].
      intros H. apply app_eq_nil in H. destruct H as [Ha Hb].
      now rewrite (S1 Ha), (S2 Hb), setBlocks_blocks.
    + destruct (IH c) as (fs' & gs & E & L & S). rewrite E.
      exists (F :: fs'), gs. cbn [app]. split; [reflexivity|]. split; [assumption|].
      intros H. now rewrite (S H).
Qed.

(** ** Decimal text and [stoul] *)

Lemma horner_acc : forall d acc,
  horner (uintDigits d) (Z.pos acc) = Z.pos (Pos.of_uint_acc d acc).
Proof.
  unfold horner.
  induction d; intros acc; cbn [uintDigits fold_left Pos.of_uint_acc];
    try reflexivity; rewrite <- IHd; f_equal; lia.
Qed.

Lemma horner_of_uint : forall d,
  horner (uintDigits d) 0 = Z.of_N (Pos.of_uint d).
Proof.
  unfold horner.
  induction d; cbn [uintDigits fold_left Pos.of_uint]; try reflexivity;
    [exact IHd | exact (horner_acc d _) ..].
Qed.

Lemma leadingDigits_text : forall d tail,
  leadingDigits tail = [] ->
  leadingDigits (String.append (DecimalString.NilEmpty.string_of_uint d) tail) = uintDigits d.
Proof.
  induction d; intros tail Ht; cbn [DecimalString.NilEmpty.string_of_uint String.append
                                     uintDigits]; try exact Ht;
    cbn [leadingDigits]; cbv [digitValue]; cbn; now rewrite IHd.
Qed.

Lemma to_uint_digits : forall n, uintDigits (N.to_uint n) <> [].
Proof.
  intros n H. destruct (N.to_uint n) eqn:E; try discriminate.
  pose proof (DecimalN.Unsigned.of_to n) as Hn. rewrite E in Hn. cbn in Hn. subst n.
  discriminate.
Qed.

Lemma stoul_to_string : forall z tail,
  (0 <= z < 18446744073709551616)%Z ->
  leadingDigits tail = [] ->
  stoul (String.append (to_string z) tail) = Some z.
Proof.
  intros z tail Hz Ht. unfold stoul, to_string.
  rewrite (leadingDigits_text _ tail Ht).
  pose proof (to_uint_digits (Z.to_N z)) as Hne.
  destruct (uintDigits (N.to_uint (Z.to_N z))) as [|d ds] eqn:E; [contradiction|].
  rewrite <- E. fold (horner (uintDigits (N.to_uint (Z.to_N z))) 0).
  rewrite horner_of_uint.
  change (Pos.of_uint (N.to_uint (Z.to_N z))) with (N.of_uint (N.to_uint (Z.to_N z))).
  rewrite DecimalN.Unsigned.of_to, Z2N.id by lia.
  destruct (Z.ltb_spec z 18446744073709551616); [reflexivity | lia].
Qed.


(** ** Splitting a key *)

Lemma index_colon : forall File tail,
  noColon File = true ->
  String.index 0 ":" (String.append File (String ":" tail)) = Some (String.length File).
Proof.
  induction File as [|c File IH]; intros tail H.
  - cbn [String.append String.index String.prefix String.length].
    destruct (ascii_dec ":" ":") as [_|E]; [now destruct tail | now elim E].
  - cbn [noColon] in H. apply andb_true_iff in H. destruct H as [Hc HF].
    cbn [String.append String.index String.prefix String.length].
    destruct (ascii_dec ":" c) as [E|E].
    + subst c. discriminate.
    + now rewrite (IH tail HF).
Qed.

Lemma substring_prefix : forall File tail,
  String.substring 0 (String.length File) (String.append File tail) = File.
Proof.
  induction File as [|c File IH]; intros tail; cbn.
  - now destruct tail.
  - now rewrite IH.
Qed.

Lemma substring_all : forall s, String.substring 0 (String.length s) s = s.
Proof. induction s as [|c s IH]; cbn; [reflexivity | now rewrite IH]. Qed.

Lemma substring_suffix : forall File tail,
  String.substring (String.length File + 1)
    (String.length (String.append File (String ":" tail)) - (String.length File + 1))
    (String.append File (String ":" tail))
  = tail.
Proof.
  induction File as [|c File IH]; intros tail.
  - cbn. rewrite Nat.sub_0_r. apply substring_all.
  - cbn [String.length String.append Nat.add String.substring Nat.sub]. apply IH.
Qed.

Lemma append_assoc : forall a b c,
  String.append (String.append a b) c = String.append a (String.append b c).
Proof. induction a as [|x a IH]; intros b c; cbn; [reflexivity | now rewrite IH]. Qed.

Lemma append_empty : forall s, String.append s "" = s.
Proof. induction s as [|c s IH]; cbn; [reflexivity | now rewrite IH]. Qed.

Lemma registerLines_cons_good : forall Line File keys n,
  goodPair (Line, File) ->
  registerLines (lineKeyOf (Line, File) :: keys) n
  = match registerLines keys (n + 2) with
    | Some (calls, gs, n') =>
        Some (registerCallAt n (Line, File) :: calls, createGlobalString n File :: gs, n')
    | None => None
    end.
Proof.
  intros Line File keys n [Hr Hc]. cbn [fst snd] in *.
  assert (E : lineKeyOf (Line, File) = String.append File (String ":" (to_string Line)))
    by reflexivity.
  cbn [registerLines]. rewrite E.
  rewrite (index_colon File (to_string Line) Hc), substring_prefix, substring_suffix.
  rewrite <- (append_empty (to_string Line)).
  rewrite stoul_to_string by (try reflexivity; lia).
  unfold registerCallAt, toUnsigned. cbn [fst snd]. now rewrite Z.mod_small by lia.
Qed.

Lemma registerLines_good : forall ps n,
  Forall goodPair ps ->
  registerLines (map lineKeyOf ps) n
  = Some (fst (registered ps n), snd (registered ps n), n + 2 * List.length ps).
Proof.
  induction ps as [|[Line File] ps IH]; intros n H.
  - cbn. now rewrite Nat.add_0_r.
  - inversion H as [|? ? Hp H']; subst. cbn [map].
    rewrite (registerLines_cons_good Line File _ n Hp), (IH (n + 2) H').
    cbn [registered fst snd List.length]. do 2 f_equal. lia.
Qed.

Lemma registerLines_bad_head : forall pre c rest keys n,
  noColon pre = true -> opensNoNumber c ->
  registerLines (String.append pre (String ":" (String c rest)) :: keys) n = None.
Proof.
  intros pre c rest keys n Hp Hc. cbn [registerLines].
  rewrite (index_colon pre (String c rest) Hp), substring_suffix.
  unfold stoul. cbn [leadingDigits]. destruct Hc as [Hc _]. now rewrite Hc.
Qed.

Lemma registerLines_bad : forall keys pre c rest n,
  noColon pre = true -> opensNoNumber c ->
  In (String.append pre (String ":" (String c rest))) keys ->
  registerLines keys n = None.
Proof.
  induction keys as [|k keys IH]; intros pre c rest n Hp Hc Hin; [contradiction|].
  destruct Hin as [->|Hin]; [now apply registerLines_bad_head|].
  cbn [registerLines]. destruct (String.index 0 ":" k); [|reflexivity].
  destruct (stoul _); [|reflexivity].
  now rewrite (IH pre c rest (n + 2) Hp Hc Hin).
Qed.

(** ** The set of keys *)

Lemma setInsert_in : forall k s x, In x (setInsert k s) <-> x = k \/ In x s.
Proof.
  intros k s x. induction s as [|y s IH]; cbn [setInsert].
  - cbn. intuition.
  - destruct (String.compare k y) eqn:E.
    + apply String.compare_eq_iff in E. subst y. cbn. intuition.
    + cbn. intuition.
    + cbn. rewrite IH. intuition.
Qed.

Lemma insertKeys_in : forall ps s x,
  In x (insertKeys ps s) <-> In x (map lineKeyOf ps) \/ In x s.
Proof.
  unfold insertKeys. induction ps as [|p ps IH]; intros s x; cbn [fold_left map].
  - cbn. intuition.
  - rewrite IH, setInsert_in. cbn. intuition.
Qed.

Lemma ltS_trans : forall a b c, ltS a b -> ltS b c -> ltS a c.
Proof.
  unfold ltS. intros a b c H1 H2.
  apply OrderedTypeEx.String_as_OT.cmp_lt in H1, H2.
  apply OrderedTypeEx.String_as_OT.cmp_lt.
  eapply OrderedTypeEx.String_as_OT.lt_trans; eassumption.
Qed.

Lemma ltS_flip : forall a b, String.compare a b = Gt -> ltS b a.
Proof.
  unfold ltS. intros a b H. rewrite String.compare_antisym, H. reflexivity.
Qed.

Lemma setInsert_sorted : forall k s,
  StronglySorted ltS s -> StronglySorted ltS (setInsert k s).
Proof.
  intros k s H. induction H as [|y s Hs IH Hy]; cbn [setInsert].
  - repeat constructor.
  - destruct (String.compare k y) eqn:E.
    + now constructor.
    + constructor; [now constructor|]. constructor; [exact E|].
      eapply Forall_impl; [|exact Hy]. intros z Hz. exact (ltS_trans _ _ _ E Hz).
    + constructor; [exact IH|]. apply Forall_forall. intros z Hz.
      apply setInsert_in in Hz. destruct Hz as [->|Hz].
      * now apply ltS_flip.
      * rewrite Forall_forall in Hy. now apply Hy.
Qed.

Lemma insertKeys_sorted : forall ps s,
  StronglySorted ltS s -> StronglySorted ltS (insertKeys ps s).
Proof.
  unfold insertKeys. induction ps as [|p ps IH]; intros s H; [exact H|].
  cbn [fold_left]. apply IH. now apply setInsert_sorted.
Qed.

(** ** The pass *)

Lemma trackedFunctions_app : forall fs gs,
  trackedFunctions (fs ++ gs) = trackedFunctions fs ++ trackedFunctions gs.
Proof. intros. unfold trackedFunctions. apply flat_map_app. Qed.

Lemma trackedFunctions_declarations : forall ds,
  Forall (fun D => isDeclaration D = true) ds -> trackedFunctions ds = [].
Proof.
  intros ds H. induction H as [|D ds HD _ IH]; [reflexivity|].
  unfold trackedFunctions. cbn [flat_map]. fold (trackedFunctions ds). rewrite IH.
  unfold shouldInstrumentFunction. now rewrite HD.
Qed.

Lemma setup_functions : forall M,
  exists ds, functions (setupRuntimeFunctions M) = functions M ++ ds /\
             Forall (fun D => isDeclaration D = true) ds /\
             globals (setupRuntimeFunctions M) = globals M /\
             global_ctors (setupRuntimeFunctions M) = global_ctors M /\
             global_dtors (setupRuntimeFunctions M) = global_dtors M.
Proof.
  intros M. unfold setupRuntimeFunctions.
  destruct (declared_functions REGISTER_UNSAFE_LINE_FN M) as (d1 & E1 & D1 & G1 & C1 & T1).
  destruct (declared_functions TRACK_UNSAFE_LINE_EXECUTION_FN
              (getOrInsertFunction REGISTER_UNSAFE_LINE_FN M))
    as (d2 & E2 & D2 & G2 & C2 & T2).
  destruct (declared_functions PRINT_UNSAFE_COVERAGE_STATS_FN
              (getOrInsertFunction TRACK_UNSAFE_LINE_EXECUTION_FN
                 (getOrInsertFunction REGISTER_UNSAFE_LINE_FN M)))
    as (d3 & E3 & D3 & G3 & C3 & T3).
  exists (d1 ++ d2 ++ d3). rewrite E3, E2, E1, <- !app_assoc.
  split; [reflexivity|]. split; [now rewrite !Forall_app|]. repeat split; congruence.
Qed.

Lemma tracked_setup : forall M,
  trackedFunctions (functions (setupRuntimeFunctions M)) = trackedFunctions (functions M).
Proof.
  intros M. destruct (setup_functions M) as (ds & E & D & _).
  now rewrite E, trackedFunctions_app, (trackedFunctions_declarations ds D), app_nil_r.
Qed.

Lemma run_untracked : forall M n,
  trackedFunctions (functions M) = [] ->
  run M n = Some (PA_all, setupRuntimeFunctions M, n).
Proof.
  intros M n H. unfold run.
  destruct (collectFunctions_tracked (functions (setupRuntimeFunctions M))
              (mkCollect [] [] false n)) as (fs' & gs & E & L & S).
  rewrite tracked_setup, H in E, L, S. rewrite E, (S eq_refl).
  destruct gs; [|discriminate]. unfold after. cbn -[setupRuntimeFunctions].
  now rewrite setFunctions_functions, Nat.add_0_r.
Qed.

Lemma sentinelFree_untracked : forall fs,
  Forall sentinelFree fs -> trackedFunctions fs = [].
Proof.
  intros fs H. induction H as [|F fs HF _ IH]; [reflexivity|].
  unfold trackedFunctions. cbn [flat_map]. fold (trackedFunctions fs). rewrite IH, app_nil_r.
  destruct (shouldInstrumentFunction F); [|reflexivity].
  unfold sentinelFree in HF. induction HF as [|BB bbs HBB _ IHb]; [reflexivity|].
  cbn [flat_map]. now rewrite (proj1 (markerless_untracked BB HBB)), IHb.
Qed.

(** X19: on a module without sentinels DynamicLineCount inserts nothing
    and creates neither constructor nor destructor: the module gains the
    declarations of the three runtime functions and the verdict is that all
    analyses are preserved. *)
Theorem coverage_without_sentinels : forall M n,
  Forall sentinelFree (functions M) ->
  run M n = Some (PA_all, setupRuntimeFunctions M, n).
Proof.
  intros M n H. apply run_untracked. now apply sentinelFree_untracked.
Qed.

Lemma coverage_without_sentinels_witness :
  run PassSamples.moduleNoRegion 10
  = Some (PA_all, setupRuntimeFunctions PassSamples.moduleNoRegion, 10).
Proof.
  apply (coverage_without_sentinels PassSamples.moduleNoRegion 10). repeat constructor.
Defined.


(** X21: for lines that fit [unsigned] and file names without a colon,
    the constructor loop reads every key back into the line and the file it
    was built from: it creates, per key, a string global with the file name
    and a call of [register_unsafe_line] with the line and that global. *)
Theorem coverage_key_round_trip : forall ps n,
  Forall goodPair ps ->
  registerLines (map lineKeyOf ps) n
  = Some (fst (registered ps n), snd (registered ps n), n + 2 * List.length ps).
Proof. exact registerLines_good. Qed.

Lemma tracked_range : forall inside BB,
  Forall (fun p => (0 <= fst p < 4294967296)%Z) (trackedBlock inside BB).
Proof.
  intros inside BB. revert inside.
  induction BB as [|Inst BB IH]; intros inside; [constructor|].
  cbn [trackedBlock]. destruct (isMarkerInstruction Inst); [apply IH|].
  destruct (if inside && hasUnsafeInst Inst then lineInfo Inst else None) as [p|] eqn:E;
    [|apply IH].
  constructor; [|apply IH].
  destruct (inside && hasUnsafeInst Inst); [|discriminate].
  unfold lineInfo in E. destruct (getMetadata "unsafe_line_info" Inst) as [[|[] [|[] ?]]|];
    try discriminate.
  inversion E; subst. cbn [fst]. unfold toUnsigned. apply Z.mod_pos_bound. lia.
Qed.

Lemma coverage_key_round_trip_witness :
  registerLines (map lineKeyOf [(42%Z, "src/main.rs"); (7%Z, "lib.rs")]) 0
  = Some (fst (registered [(42%Z, "src/main.rs"); (7%Z, "lib.rs")] 0),
          snd (registered [(42%Z, "src/main.rs"); (7%Z, "lib.rs")] 0),
          0 + 2 * List.length [(42%Z, "src/main.rs"); (7%Z, "lib.rs")]).
Proof.
  apply (coverage_key_round_trip [(42%Z, "src/main.rs"); (7%Z, "lib.rs")] 0).
  repeat constructor; simpl; lia.
Defined.

Lemma trackedFunctions_range : forall fs,
  Forall (fun p => (0 <= fst p < 4294967296)%Z) (trackedFunctions fs).
Proof.
  intros fs. unfold trackedFunctions. apply Forall_flat_map. apply Forall_forall.
  intros F _. destruct (shouldInstrumentFunction F); [|constructor].
  apply Forall_flat_map. apply Forall_forall. intros BB _. apply tracked_range.
Qed.

Lemma keys_as_pairs : forall (ps : list (Z * string)) (keys : list string),
  (forall k, In k keys -> In k (map lineKeyOf ps)) ->
  exists qs, keys = map lineKeyOf qs /\ Forall (fun q => In q ps) qs.
Proof.
  intros ps keys. induction keys as [|k keys IH]; intros H.
  - exists []. split; [reflexivity | constructor].
  - destruct IH as (qs & E & Hq); [intros k' Hk'; apply H; now right|].
    destruct (proj1 (in_map_iff _ _ _) (H k (or_introl eq_refl))) as (q & Eq & Hin).
    exists (q :: qs). split; [cbn; now rewrite Eq, E | now constructor].
Qed.

Lemma addGlobals_fields : forall gs M,
  functions (addGlobals gs M) = functions M /\
  globals (addGlobals gs M) = globals M ++ gs /\
  global_ctors (addGlobals gs M) = global_ctors M /\
  global_dtors (addGlobals gs M) = global_dtors M.
Proof.
  unfold addGlobals. induction gs as [|G gs IH]; intros M; cbn [fold_left].
  - now rewrite app_nil_r.
  - destruct (IH (addGlobal G M)) as (A & B & C & D). rewrite A, B, C, D.
    cbn. now rewrite <- app_assoc.
Qed.

Lemma insertKeys_nonempty : forall ps s, ps <> [] -> insertKeys ps s <> [].
Proof.
  intros ps s Hne H. destruct ps as [|p ps]; [contradiction|].
  assert (Hin : In (lineKeyOf p) (insertKeys (p :: ps) s)).
  { apply insertKeys_in. left. now left. }
  rewrite H in Hin. contradiction.
Qed.

(** X22: when at least one instruction is tracked and no tracked file name
    holds a colon, DynamicLineCount returns and reports a change; the module
    gains [unsafe_lines_module_ctor] as a constructor and
    [unsafe_lines_module_dtor] as a destructor, both of priority 0; the
    constructor registers every distinct key once, in the order of the set,
    and every tracked line is among them. *)
Theorem coverage_hooks : forall M n,
  trackedFunctions (functions M) <> [] ->
  Forall (fun p => noColon (snd p) = true) (trackedFunctions (functions M)) ->
  exists M' n' qs a,
    run M n = Some (PA_none, M', n') /\
    global_ctors M' = global_ctors M ++ [("unsafe_lines_module_ctor", 0%Z)] /\
    global_dtors M' = global_dtors M ++ [("unsafe_lines_module_dtor", 0%Z)] /\
    Forall (fun q => In q (trackedFunctions (functions M))) qs /\
    StronglySorted ltS (map lineKeyOf qs) /\
    (forall p, In p (trackedFunctions (functions M)) ->
               In (lineKeyOf p) (map lineKeyOf qs)) /\
    In (mkFunction "unsafe_lines_module_ctor"
          [fst (registered qs a) ++ [CreateRetVoid (a + 2 * List.length qs)]]
          [] InternalLinkage false)
       (functions M').
Proof.
  intros M n Hne Hcolon. unfold run.
  destruct (collectFunctions_tracked (functions (setupRuntimeFunctions M))
              (mkCollect [] [] false n)) as (fs' & gs & E & L & _).
  rewrite tracked_setup in E, L. rewrite E.
  set (ps := trackedFunctions (functions M)) in *.
  unfold after. cbn [allUnsafeLines strings modified fresh app].
  set (M2 := addGlobals gs (setFunctions fs' (setupRuntimeFunctions M))).
  destruct (keys_as_pairs ps (insertKeys ps []))
    as (qs & Ek & Hq); [intros k Hk; apply insertKeys_in in Hk; cbn in Hk; tauto|].
  pose proof (insertKeys_nonempty ps [] Hne) as Hk.
  assert (Hgood : Forall goodPair qs).
  { rewrite Forall_forall in *. intros q Hin. split.
    - exact (proj1 (Forall_forall _ _) (trackedFunctions_range (functions M)) q (Hq q Hin)).
    - exact (Hcolon q (Hq q Hin)). }
  destruct (insertKeys ps []) as [|k0 ks] eqn:Eins; [contradiction|].
  unfold createModuleConstructor. rewrite Ek, (registerLines_good qs _ Hgood).
  cbn [createModuleDestructor].
  destruct (setup_functions M) as (ds & Ef & _ & Eg & Ec & Ed).
  destruct (addGlobals_fields gs (setFunctions fs' (setupRuntimeFunctions M)))
    as (A & B & C & D). fold M2 in A, B, C, D.
  cbn [setFunctions functions globals global_ctors global_dtors] in A, B, C, D.
  do 2 eexists. exists qs, (n + 2 * List.length ps).
  split; [reflexivity|].
  cbn [appendToGlobalDtors appendToGlobalCtors addFunction setFunctions functions
       global_ctors global_dtors].
  destruct (addGlobals_fields (snd (registered qs (n + 2 * List.length ps))) M2)
    as (_ & _ & C' & D').
  rewrite C', D', C, D, Ec, Ed.
  split; [reflexivity|]. split; [reflexivity|]. split; [exact Hq|].
  split; [rewrite <- Ek, <- Eins; apply insertKeys_sorted; constructor|].
  split.
  - intros p Hp. rewrite <- Ek, <- Eins. apply insertKeys_in. left. now apply in_map.
  - apply in_or_app. left. apply in_or_app. right. now left.
Qed.

Lemma coverage_hooks_witness :
  exists M' n' qs a,
    run PassSamples.moduleCovered 10 = Some (PA_none, M', n') /\
    global_ctors M'
      = global_ctors PassSamples.moduleCovered ++ [("unsafe_lines_module_ctor", 0%Z)] /\
    global_dtors M'
      = global_dtors PassSamples.moduleCovered ++ [("unsafe_lines_module_dtor", 0%Z)] /\
    Forall (fun q => In q (trackedFunctions (functions PassSamples.moduleCovered))) qs /\
    StronglySorted ltS (map lineKeyOf qs) /\
    (forall p, In p (trackedFunctions (functions PassSamples.moduleCovered)) ->
               In (lineKeyOf p) (map lineKeyOf qs)) /\
    In (mkFunction "unsafe_lines_module_ctor"
          [fst (registered qs a) ++ [CreateRetVoid (a + 2 * List.length qs)]]
          [] InternalLinkage false)
       (functions M').
Proof.
  apply (coverage_hooks PassSamples.moduleCovered 10).
  - discriminate.
  - repeat constructor.
Defined.

(** X23: when the file name of a tracked instruction holds a colon and the
    character after the first colon is no digit, blank or sign, the
    constructor loop splits the key at that colon and [std::stoul] finds no
    number: the exception leaves the pass. *)
Theorem coverage_colon_in_file_name : forall M n Line pre c rest,
  In (Line, String.append pre (String ":" (String c rest)))
     (trackedFunctions (functions M)) ->
  noColon pre = true -> opensNoNumber c ->
  run M n = None.
Proof.
  intros M n Line pre c rest Hin Hp Hc. unfold run.
  destruct (collectFunctions_tracked (functions (setupRuntimeFunctions M))
              (mkCollect [] [] false n)) as (fs' & gs & E & L & _).
  rewrite tracked_setup in E, L. rewrite E.
  set (ps := trackedFunctions (functions M)) in *.
  unfold after. cbn [allUnsafeLines strings modified fresh app].
  set (key := String.append pre (String ":" (String c
                (String.append rest (String ":" (to_string Line)))))).
  assert (Hkey : In key (insertKeys ps [])).
  { apply insertKeys_in. left. apply in_map_iff. exists (Line, String.append pre (String ":" (String c rest))).
    split; [|exact Hin]. unfold lineKeyOf, key. cbn [fst snd].
    now rewrite append_assoc. }
  destruct (insertKeys ps []) as [|k0 ks] eqn:Eins; [contradiction|].
  unfold createModuleConstructor.
  now rewrite (registerLines_bad (k0 :: ks) pre c _ _ Hp Hc Hkey).
Qed.

Lemma coverage_colon_witness : run PassSamples.moduleDrive 10 = None.
Proof.
  apply (coverage_colon_in_file_name PassSamples.moduleDrive 10 42 "C" "/"%char
           "src/main.rs").
  - left. reflexivity.
  - reflexivity.
  - split; [reflexivity | simpl; intuition discriminate].
Defined.

End DynamicLineCountProofs.
